(** * js-module-benchmark: the module-tree generator [gen.py]

    A shallow embedding of [gen.py]: the grammar expansion that builds the
    module tree ([Module.__init__], [Module.expand_recurse]), the writer of
    the module artifacts ([Module.export]) and the export pipeline of
    [Benchmark] (module export, sort, bundles, comparison pages); further
    down, the validation of the command line ([Options]).

    Conventions of the embedding.
    - A Python [str] is a [string]; a one-character [str] (a grammar symbol)
      is a [string] of length one, as in Python, which has no character type.
    - [options.rules] and [options.sizes] are Python dicts that are only
      looked up: [gmap string _].
    - [pathlib.Path] is the pure POSIX path: a root flag and the list of
      components.
    - Python's [None] result of [expand_recurse] is kept ([option]), since
      [Benchmark.modules] stores it.
    - Exceptions are an error type; the files written and directories made
      before an exception stay in the file-system state.  The exceptions
      modelled are the ones the program decides itself: [TypeError] on a
      [None] list, [FileExistsError] on a directory made twice, the
      [ValueError] of [relative_to], the failure of an external tool.  The
      output location is taken to be writable. *)

From Stdlib Require Import ZArith List String Ascii Bool Lia.
From Stdlib Require Import Decimal DecimalFacts DecimalNat DecimalString.
From Stdlib Require Import Sorted Permutation.
From Stdlib Require OrderedTypeEx DecimalPos.
From stdpp Require Import gmap strings.
Import ListNotations.

#[local] Set Warnings "-register-all".
#[local] Arguments String.append : simpl nomatch.
Local Open Scope string_scope.
Local Open Scope list_scope.

(** ** Strings *)

(** The characters that a Rocq string literal cannot hold. *)
Definition nl : string := String (ascii_of_nat 10) "".
Definition dq : string := String (ascii_of_nat 34) "".

(** [f"{index}"] for a non-negative int and [f"{number}"] for any int. *)
Definition str_nat (n : nat) : string := NilEmpty.string_of_uint (Nat.to_uint n).
Definition str_Z (z : Z) : string := NilEmpty.string_of_int (Z.to_int z).

(** Iterating over a [str] yields its one-character substrings. *)
Fixpoint chars (s : string) : list string :=
  match s with
  | EmptyString => []
  | String c s' => String c "" :: chars s'
  end.

(** [s.replace(old, new)] for one-character [old] and [new]. *)
Fixpoint replace_char (old new : ascii) (s : string) : string :=
  match s with
  | EmptyString => ""
  | String c s' =>
      String (if Ascii.eqb c old then new else c) (replace_char old new s')
  end.

(** [s.split("/")]: never empty, the pieces hold no separator. *)
Fixpoint split_slash (s : string) : list string :=
  match s with
  | EmptyString => [""]
  | String c s' =>
      if Ascii.eqb c "/" then "" :: split_slash s'
      else match split_slash s' with
           | [] => [String c ""]
           | piece :: pieces => String c piece :: pieces
           end
  end.

(** ** Paths ([pathlib.PurePosixPath])

    A path is its root ("/" or none) and its components.  Parsing drops the
    empty and the "." components.  The strings this program turns into paths
    start with at most one separator, so the POSIX special case of exactly
    two leading separators does not arise and is not modelled. *)

Record Path := mkPath { anchored : bool; comps : list string }.

Definition keep_component (c : string) : bool :=
  negb (String.eqb c "") && negb (String.eqb c ".").

Definition Path_of (s : string) : Path :=
  {| anchored := String.prefix "/" s;
     comps := List.filter keep_component (split_slash s) |}.

(** [p / q] for two paths: an absolute right operand replaces the left
    one.  [p / s] parses the string first. *)
Definition path_join_path (p q : Path) : Path :=
  if anchored q then q
  else {| anchored := anchored p; comps := comps p ++ comps q |}.

Definition path_join (p : Path) (s : string) : Path :=
  path_join_path p (Path_of s).

(** [p.parent] *)
Definition path_parent (p : Path) : Path :=
  {| anchored := anchored p; comps := removelast (comps p) |}.

(** [p.parts]: the root, when there is one, is the first part. *)
Definition path_parts (p : Path) : list string :=
  (if anchored p then ["/"] else []) ++ comps p.

(** [str(p)] *)
Definition path_str (p : Path) : string :=
  if anchored p then "/" +:+ String.concat "/" (comps p)
  else match comps p with
       | [] => "."
       | _ => String.concat "/" (comps p)
       end.

(** ** Options (the validated configuration) *)

Definition ROOT_AXIOM : string := "A".

Record Options := mkOptions {
  o_depth : nat;
  o_rules : gmap string string;
  o_sizes : gmap string Z;
  o_dynamic_imports : bool }.

(** ** Module *)

(** [self.parent] is only read in [__init__], for the parent's
    [submodule_path]; the back pointer is not stored. *)
Inductive Module := mkModule {
  simple_name : string;
  name : string;
  path : Path;
  submodule_path : Path;
  depth : nat;
  index : nat;
  size : Z;
  dynamic_import : bool;
  children : list Module }.

(** [Module.__init__] *)
Definition Module_init (name0 : string) (parent : option Module)
    (depth0 index0 : nat) (size0 : Z) (dynamic_import0 : bool) : Module :=
  let '(name1, path1) :=
    match parent with
    | Some p =>
        let path0 := path_join (submodule_path p) name0 in
        let n := replace_char "/" "_" (path_str path0) in
        (n, path_join (submodule_path p) (n +:+ ".mjs"))
    | None => (name0, Path_of (name0 +:+ ".mjs"))
    end in
  {| simple_name := name0;
     name := name1;
     path := path1;
     submodule_path := path_join (path_parent path1) name0;
     depth := depth0;
     index := index0;
     size := size0;
     dynamic_import := dynamic_import0;
     children := [] |}.

(** [self.children.append(module)], also used to write back an expanded
    child. *)
Definition set_children (m : Module) (cs : list Module) : Module :=
  {| simple_name := simple_name m; name := name m; path := path m;
     submodule_path := submodule_path m; depth := depth m; index := index m;
     size := size m; dynamic_import := dynamic_import m; children := cs |}.

Definition append (self module : Module) : Module :=
  set_children self (children self ++ [module]).

Definition has_children (self : Module) : bool :=
  match children self with [] => false | _ => true end.

(** The [for symbol in expansion] loop of [expand_recurse]; [recurse] is
    the recursive call [module.expand_recurse].

    A new module is one object reached from [self.children] and from the
    accumulator.  It is appended to both before it is expanded; the slot of
    the accumulator it was appended at is overwritten with the expanded
    module once the recursive call is over, and the expanded module is the
    child of [self]. *)
Definition expand_result : Type :=
  option (Module * list Module * option (list Module)).

Fixpoint expand_loop
    (recurse : Module -> string -> list Module -> expand_result)
    (options : Options) (symbols : list string) (index0 : nat)
    (self : Module) (accumulator : list Module) : expand_result :=
  match symbols with
  | [] => Some (self, accumulator, Some accumulator)
  | symbol :: rest =>
      let name0 := symbol +:+ str_nat index0 in
      let module :=
        Module_init name0 (Some self) (depth self + 1) index0
          (default 0%Z (o_sizes options !! symbol))
          (o_dynamic_imports options) in
      let slot := length accumulator in
      match recurse module symbol (accumulator ++ [module]) with
      | None => None
      | Some (module', accumulator', _) =>
          expand_loop recurse options rest (S index0) (append self module')
            (<[slot := module']> accumulator')
      end
  end.

(** [Module.expand_recurse].  The state is the module [self] and the shared
    [accumulator]; the third component is the value returned: [None] for the
    two bare [return]s, the accumulator otherwise.  The outer [option] is
    [None] when the [fuel] runs out; [S (options.depth - self.depth)] is
    enough (see [expand_recurse_fuel]). *)
Fixpoint expand_recurse (fuel : nat) (options : Options) (self : Module)
    (symbol : string) (accumulator : list Module) : expand_result :=
  match fuel with
  | O => None
  | S fuel' =>
      if Nat.eqb (depth self) (o_depth options) then
        Some (self, accumulator, None)
      else
        match o_rules options !! symbol with
        | None => Some (self, accumulator, None)
        | Some expansion =>
            expand_loop (expand_recurse fuel' options) options
              (chars expansion) 0 self accumulator
        end
  end.

(** ** Benchmark: the module tree *)

Record Benchmark := mkBenchmark {
  options : Options;
  start_module : Module;
  modules : option (list Module) }.

(** [Benchmark.create_module_tree] (called by [__init__]).  The root is
    built with [size=0], whatever the size table holds. *)
Definition create_module_tree (o : Options) : option Benchmark :=
  let start :=
    Module_init ROOT_AXIOM None 0 0 0%Z (o_dynamic_imports o) in
  match expand_recurse (S (o_depth o)) o start ROOT_AXIOM [] with
  | None => None
  | Some (start', _, result) =>
      Some {| options := o; start_module := start'; modules := result |}
  end.

(** The configuration of the first scenario: rules A -> AB, B -> BBB. *)
Definition scenario_rules : gmap string string :=
  <["A" := "AB"]> (<["B" := "BBB"]> ∅).

Definition scenario_options (d : nat) (dyn : bool) : Options :=
  {| o_depth := d; o_rules := scenario_rules; o_sizes := ∅;
     o_dynamic_imports := dyn |}.

(** ** The pseudo-random generator

    The state of Python's global generator is the sequence of the raw values
    it has yet to produce; [random.randint(lo, hi)] takes the next one and
    lands in [lo .. hi].  Every sequence of literals within the range is the
    output of some state. *)

Definition RandomState : Type := nat -> Z.

Definition randint (lo hi : Z) (g : RandomState) : Z * RandomState :=
  ((lo + g O mod (hi - lo + 1))%Z, fun n => g (S n)).

(** ** Module.export: the text of one artifact *)

(** The specifier [./{self.simple_name}/{module.name}.mjs] a module writes
    for a child, and the name [f_{module.name}] of an entry function. *)
Definition import_specifier (self module : Module) : string :=
  "./" +:+ simple_name self +:+ "/" +:+ name module +:+ ".mjs".

Definition entry_name (m : Module) : string := "f_" +:+ name m.

(** [create_dynamic_imports] *)
Definition create_dynamic_imports (self : Module) : list string :=
  map (fun module =>
         "import('" +:+ import_specifier self module +:+ "').then(m => m."
           +:+ entry_name module +:+ "())")
      (children self).

(** [write_static_imports]: the lines written and the operations returned. *)
Definition write_static_imports (self : Module) : list string * list string :=
  (map (fun module =>
          "import {" +:+ entry_name module +:+ "} from '"
            +:+ import_specifier self module +:+ "'" +:+ nl)
       (children self),
   map (fun module => entry_name module +:+ "()") (children self)).

(** [write_imports] *)
Definition write_imports (self : Module) : list string * list string :=
  if dynamic_import self then ([], create_dynamic_imports self)
  else write_static_imports self.

(** After the entry function is written, [operations] is one string: the sum
    returned (static) or the arguments of [Promise.all] (dynamic). *)
Definition joined_operations (self : Module) : string :=
  let operations := snd (write_imports self) in
  if dynamic_import self then String.concat ("," +:+ nl +:+ "    ") operations
  else String.concat "+" (operations ++ ["a"]).

Definition random_digits : Z := 10.
Definition instruction_length : Z :=
  (3 + random_digits + 1) + (3 + random_digits + 2).
Definition min_range : Z := 10 ^ (random_digits - 1).
Definition max_range : Z := 10 ^ random_digits - 1.

(** [range(math.floor((self.size - len(operations) * 2) / instruction_length))]:
    the number of iterations; an empty range when the bound is not positive.
    The quotient is a float in Python; it is exact, and so is its floor, for
    every size below 2^53. *)
Definition filler_bound (self : Module) : Z :=
  ((size self - Z.of_nat (String.length (joined_operations self)) * 2)
     / instruction_length)%Z.

Definition filler_count (self : Module) : nat := Z.to_nat (filler_bound self).

(** The numbers drawn by the filler loop. *)
Fixpoint draw_numbers (n : nat) (g : RandomState) : list Z * RandomState :=
  match n with
  | O => ([], g)
  | S n' =>
      let '(number, g1) := randint min_range max_range g in
      let '(numbers, g2) := draw_numbers n' g1 in
      (number :: numbers, g2)
  end.

(** The filler loop of a sized module; no number is drawn for a module
    without size. *)
Definition helper_draw (self : Module) (g : RandomState)
    : list Z * RandomState :=
  if Z.eqb (size self) 0 then ([], g)
  else draw_numbers (filler_count self) g.

Definition filler_line (number : Z) : string :=
  "a+=" +:+ str_Z number +:+ ";a-=" +:+ str_Z number +:+ ";" +:+ nl.

(** The body of the [with] block of [Module.export]: the strings passed to
    [f.write], in order, and the generator afterwards. *)
Definition export_writes (self : Module) (g : RandomState)
    : list string * RandomState :=
  let '(import_lines, _) := write_imports self in
  let header :=
    if dynamic_import self
    then "export async function f_" +:+ name self +:+ "() {" +:+ nl
    else "export function f_" +:+ name self +:+ "() {" +:+ nl in
  let guard :=
    if Z.eqb (size self) 0 then []
    else ["  if (document.evaluate_all) {" +:+ nl;
          "    a=helper()" +:+ nl;
          "  }" +:+ nl] in
  let body :=
    if dynamic_import self
    then ["  const results = await Promise.all([" +:+ nl;
          "    " +:+ joined_operations self +:+ nl;
          "  ]);" +:+ nl;
          "  for (let result of results) a += result;" +:+ nl;
          "  return a;" +:+ nl]
    else ["  return " +:+ joined_operations self +:+ ";" +:+ nl] in
  let '(numbers, g') := helper_draw self g in
  let helper :=
    if Z.eqb (size self) 0 then []
    else
      ["function helper() {" +:+ nl; "  let a=1;"]
        ++ map filler_line numbers
        ++ [";" +:+ nl; "  return a+100;" +:+ nl; "}" +:+ nl] in
  (import_lines ++ [header; "  let a=1;" +:+ nl] ++ guard ++ body
     ++ ["}" +:+ nl] ++ helper, g').

Definition export_text (self : Module) (g : RandomState) : string :=
  String.concat "" (fst (export_writes self g)).

(** ** The world: files, directories, the random generator

    Paths in the world are the paths handed to [open] and [mkdir], that is
    [out_dir / p].  What is stored in a file is a text, the variables handed
    to a template of the [html] directory (the templates and their
    substitution are external), or the output of an external tool. *)

Record Info := mkInfo {
  info_rules : gmap string string;
  info_sizes : gmap string Z;
  info_depth : nat;
  info_module_count : nat;
  info_total_size : Z }.

Inductive Content :=
  | Text (text : string)
  | BenchmarkPage (headers : string) (info : Info) (scripts : string)
      (module : string)
  | IndexPage (info : Info) (benchmarks : string)
  | ToolOutput (command : string).

Record World := mkWorld {
  files : list (Path * Content);
  dirs : list Path;
  random : RandomState }.

Inductive Error :=
  | TypeError
  | ValueError
  | FileExistsError
  | CalledProcessError.

#[global] Instance Path_eq_dec : EqDecision Path.
Proof. solve_decision. Defined.

(** [open(p, "w")], the writes, and the close: the file holds the text,
    whatever it held before. *)
Definition write_file (p : Path) (c : Content) (w : World) : World :=
  {| files := List.filter (fun f => negb (bool_decide (fst f = p))) (files w)
                ++ [(p, c)];
     dirs := dirs w;
     random := random w |}.

(** [p.mkdir()] raises when the directory is there already. *)
Definition mkdir (p : Path) (w : World) : option Error * World :=
  if bool_decide (p ∈ dirs w) then (Some FileExistsError, w)
  else (None, {| files := files w; dirs := dirs w ++ [p];
                 random := random w |}).

(** [p.mkdir(parents=True, exist_ok=True)] *)
Definition mkdir_exist_ok (p : Path) (w : World) : World :=
  if bool_decide (p ∈ dirs w) then w
  else {| files := files w; dirs := dirs w ++ [p]; random := random w |}.

Definition set_random (w : World) (g : RandomState) : World :=
  {| files := files w; dirs := dirs w; random := g |}.

(** [Module.export]: the artifact of [self], then, when [self] has
    children, its directory and the artifacts of the children. *)
Fixpoint Module_export (self : Module) (out_dir : Path) (w : World)
    {struct self} : option Error * World :=
  let '(writes, g) := export_writes self (random w) in
  let w1 :=
    write_file (path_join_path out_dir (path self))
      (Text (String.concat "" writes)) (set_random w g) in
  match self with
  | mkModule _ _ _ _ _ _ _ _ modules0 =>
      if has_children self then
        match mkdir (path_join_path out_dir (submodule_path self)) w1 with
        | (Some e, w2) => (Some e, w2)
        | (None, w2) =>
            (fix each (ms : list Module) (w : World)
                 : option Error * World :=
               match ms with
               | [] => (None, w)
               | module :: rest =>
                   match Module_export module out_dir w with
                   | (Some e, w') => (Some e, w')
                   | (None, w') => each rest w'
                   end
               end) modules0 w2
        end
      else (None, w1)
  end.

(** ** The order of [self.modules.sort]

    The key of a module is [(len(m.path.parts), m.path.parts)].  Tuples
    compare component by component, a proper prefix first; strings compare
    by code point (for UTF-8 that is the order of the bytes). *)

Fixpoint tuple_compare (t1 t2 : list string) : comparison :=
  match t1, t2 with
  | [], [] => Eq
  | [], _ :: _ => Lt
  | _ :: _, [] => Gt
  | a :: t1', b :: t2' =>
      match String.compare a b with
      | Eq => tuple_compare t1' t2'
      | c => c
      end
  end.

Definition sort_key (m : Module) : nat * list string :=
  (length (path_parts (path m)), path_parts (path m)).

Definition key_compare (k1 k2 : nat * list string) : comparison :=
  match Nat.compare (fst k1) (fst k2) with
  | Eq => tuple_compare (snd k1) (snd k2)
  | c => c
  end.

Definition key_ltb (k1 k2 : nat * list string) : bool :=
  match key_compare k1 k2 with Lt => true | _ => false end.

(** [list.sort(key=...)] is stable: a module is placed behind the modules
    that were before it, and in front of the first later module whose key
    is not smaller. *)
Fixpoint insert_module (m : Module) (sorted : list Module) : list Module :=
  match sorted with
  | [] => [m]
  | m' :: rest =>
      if key_ltb (sort_key m') (sort_key m) then m' :: insert_module m rest
      else m :: m' :: rest
  end.

Definition sort_modules (ms : list Module) : list Module :=
  fold_right insert_module [] ms.

(** ** Benchmark: the export *)

Definition set_modules (b : Benchmark) (ms : option (list Module)) : Benchmark :=
  {| options := options b; start_module := start_module b; modules := ms |}.

(** [Benchmark.export_modules]: [len(self.modules)] raises [TypeError] when
    [self.modules] is [None]. *)
Definition export_modules (b : Benchmark) (out_path : Path) (w : World)
    : option Error * Benchmark * World :=
  match Module_export (start_module b) out_path w with
  | (Some e, w1) => (Some e, b, w1)
  | (None, w1) =>
      match modules b with
      | None => (Some TypeError, b, w1)
      | Some ms => (None, set_modules b (Some (sort_modules ms)), w1)
      end
  end.

(** The external tools: whether a command exits with status zero. *)
Definition Tools : Type := string -> bool.

(** [subprocess.check_call(command, shell=True)] writing [output]. *)
Definition check_call (tools : Tools) (command : string) (output : Path)
    (w : World) : option Error * World :=
  if tools command then (None, write_file output (ToolOutput command) w)
  else (Some CalledProcessError, w).

(** [Benchmark.build_bundles] *)
Definition build_bundles (tools : Tools) (out_path : Path) (w : World)
    : option Error * World :=
  let wbn_path := path_join out_path "bundled.wbn" in
  match
    check_call tools
      ("gen-bundle --dir='" +:+ path_str out_path +:+ "' --o='"
         +:+ path_str wbn_path +:+ "'") wbn_path w
  with
  | (Some e, w1) => (Some e, w1)
  | (None, w1) =>
      let module_path := path_join out_path "A.mjs" in
      let bundle_path := path_join out_path "bundled.mjs" in
      check_call tools
        ("npx rollup '" +:+ path_str module_path +:+ "' --format=esm --file='"
           +:+ path_str bundle_path +:+ "' --name=A") bundle_path w1
  end.

(** [l[:count]] *)
Definition slice_to {A : Type} (l : list A) (count : Z) : list A :=
  if (0 <=? count)%Z then firstn (Z.to_nat count) l
  else firstn (length l - Z.to_nat (- count)) l.

(** The element of [output_headers] and of [output_scripts] for a module. *)
Definition link_hint (module : Module) : string :=
  "  <link rel=" +:+ dq +:+ "modulepreload" +:+ dq +:+ " href=" +:+ dq
    +:+ path_str (path module) +:+ dq +:+ ">".

Definition script_tag (module : Module) : string :=
  "  <script type=" +:+ dq +:+ "module" +:+ dq +:+ " src=" +:+ dq
    +:+ path_str (path module) +:+ dq +:+ "></script>".

(** [Benchmark.output_headers], given the list in [self.modules] *)
Definition output_headers (ms : list Module) (prefetch_count : Z) : string :=
  String.concat nl (map link_hint (slice_to ms prefetch_count)).

(** [Benchmark.output_scripts] *)
Definition output_scripts (ms : list Module) (preload_count : Z) : string :=
  String.concat nl (map script_tag (slice_to ms preload_count)).

(** [Benchmark.output_info]: the values the text is made of. *)
Definition output_info (o : Options) (ms : list Module) : Info :=
  {| info_rules := o_rules o;
     info_sizes := o_sizes o;
     info_depth := o_depth o;
     info_module_count := length ms;
     info_total_size := fold_right Z.add 0%Z (map size ms) |}.

(** [Benchmark.export_benchmark]: the path written, and the world. *)
Definition export_benchmark (o : Options) (ms : list Module) (out_path : Path)
    (file_name : string) (prefetch_count preload_count : Z) (w : World)
    : Path * World :=
  let path0 := path_join out_path file_name in
  (path0,
   write_file path0
     (BenchmarkPage (output_headers ms prefetch_count) (output_info o ms)
        (output_scripts ms preload_count) "./A.mjs") w).

(** [Benchmark.export_bundled] *)
Definition export_bundled (o : Options) (ms : list Module) (out_path : Path)
    (w : World) : Path * World :=
  let path0 := path_join out_path "rollup.html" in
  (path0,
   write_file path0 (BenchmarkPage "" (output_info o ms) "" "./bundled.mjs") w).

(** [Benchmark.export_bundled_wbn] *)
Definition export_bundled_wbn (o : Options) (ms : list Module)
    (out_path : Path) (w : World) : Path * World :=
  let path0 := path_join out_path "webbundle.html" in
  (path0,
   write_file path0
     (BenchmarkPage
        ("  <script type=" +:+ dq +:+ "webbundle" +:+ dq +:+ "> { " +:+ dq
           +:+ "source" +:+ dq +:+ ": " +:+ dq +:+ "bundled.wbn" +:+ dq +:+ ", "
           +:+ dq +:+ "scopes" +:+ dq +:+ ": [" +:+ dq +:+ "./" +:+ dq
           +:+ "] } </script>")
        (output_info o ms) "" "./A.mjs") w).

(** [path.relative_to(base)]: [None] stands for the [ValueError]. *)
Fixpoint strip_prefix (base l : list string) : option (list string) :=
  match base, l with
  | [], _ => Some l
  | b :: base', x :: l' =>
      if String.eqb b x then strip_prefix base' l' else None
  | _ :: _, [] => None
  end.

Definition relative_to (p base : Path) : option Path :=
  match strip_prefix (path_parts base) (path_parts p) with
  | Some rest => Some {| anchored := false; comps := rest |}
  | None => None
  end.

(** [path.name] *)
Definition path_name (p : Path) : string := List.last (comps p) "".

(** [Benchmark.output_benchmark_list] *)
Fixpoint benchmark_items (out_path : Path) (benchmarks : list Path)
    : option (list string) :=
  match benchmarks with
  | [] => Some []
  | path0 :: rest =>
      match relative_to path0 out_path, benchmark_items out_path rest with
      | Some rel, Some items =>
          Some (("  <li><a href=" +:+ dq +:+ path_str rel +:+ dq +:+ ">"
                   +:+ path_name path0 +:+ "</a></li>") :: items)
      | _, _ => None
      end
  end.

Definition output_benchmark_list (out_path : Path) (benchmarks : list Path)
    : option string :=
  option_map (String.concat nl) (benchmark_items out_path benchmarks).

(** [Benchmark.export_index] *)
Definition export_index (o : Options) (ms : list Module) (out_path : Path)
    (benchmarks : list Path) (w : World) : option Error * World :=
  match output_benchmark_list out_path benchmarks with
  | None => (Some ValueError, w)
  | Some items =>
      (None,
       write_file (path_join out_path "index.html")
         (IndexPage (output_info o ms) items) w)
  end.

(** [Benchmark.export_html].  When [self.modules] is [None] the first
    [export_benchmark] opens its file and raises [TypeError] at
    [self.modules[:prefetch_count]].  The list of benchmarks is returned
    too. *)
Definition export_html (b : Benchmark) (out_path : Path) (w : World)
    : option Error * list Path * World :=
  match modules b with
  | None =>
      (Some TypeError, [],
       write_file (path_join out_path "unbundled.html") (Text "") w)
  | Some ms =>
      let o := options b in
      let count := Z.of_nat (length ms) in
      let '(p1, w1) := export_benchmark o ms out_path "unbundled.html" 0 0 w in
      let '(p2, w2) :=
        export_benchmark o ms out_path "modulepreload.html" count 0 w1 in
      let '(p3, w3) :=
        export_benchmark o ms out_path "script-preload.html" 0 count w2 in
      let '(benchmarks, w5) :=
        if o_dynamic_imports o then ([p1; p2; p3], w3)
        else
          let '(p4, w4) := export_bundled o ms out_path w3 in
          let '(p5, w5) := export_bundled_wbn o ms out_path w4 in
          ([p1; p2; p3; p4; p5], w5) in
      let '(e, w6) := export_index o ms out_path benchmarks w5 in
      (e, benchmarks, w6)
  end.

(** [Benchmark.export] *)
Definition export (tools : Tools) (b : Benchmark) (out_path : Path)
    (w : World) : option Error * Benchmark * World :=
  let w0 := mkdir_exist_ok out_path w in
  match export_modules b out_path w0 with
  | (Some e, b1, w1) => (Some e, b1, w1)
  | (None, b1, w1) =>
      let '(e2, w2) :=
        if o_dynamic_imports (options b1) then (None, w1)
        else build_bundles tools out_path w1 in
      match e2 with
      | Some e => (Some e, b1, w2)
      | None =>
          let '(e3, _, w3) := export_html b1 out_path w2 in
          (e3, b1, w3)
      end
  end.

(** The whole program, from the validated options: [Benchmark(options)]
    and [benchmark.export(Path(options.out))]. *)
Definition main (tools : Tools) (o : Options) (out : string) (w : World)
    : option (option Error * World) :=
  match create_module_tree o with
  | None => None
  | Some b =>
      let '(e, _, w') := export tools b (Path_of out) w in Some (e, w')
  end.

(** ** The expansion as a pure function

    [grow n options self symbol] is the module [self] once
    [self.expand_recurse(symbol, options, _)] is over, when [n] levels are
    left below [self]; [descendants] lists the modules below a module in
    the order they were created. *)

Fixpoint grow_loop (recurse : Module -> string -> Module) (options : Options)
    (parent : Module) (symbols : list string) (index0 : nat) : list Module :=
  match symbols with
  | [] => []
  | symbol :: rest =>
      recurse
        (Module_init (symbol +:+ str_nat index0) (Some parent)
           (depth parent + 1) index0
           (default 0%Z (o_sizes options !! symbol))
           (o_dynamic_imports options)) symbol
      :: grow_loop recurse options parent rest (S index0)
  end.

Fixpoint grow (n : nat) (options : Options) (self : Module) (symbol : string)
    : Module :=
  match n with
  | O => self
  | S n' =>
      match o_rules options !! symbol with
      | None => self
      | Some expansion =>
          set_children self
            (children self
               ++ grow_loop (grow n' options) options self (chars expansion) 0)
      end
  end.

Fixpoint descendants (m : Module) : list Module :=
  match m with
  | mkModule _ _ _ _ _ _ _ _ cs =>
      (fix below (l : list Module) : list Module :=
         match l with
         | [] => []
         | c :: l' => c :: descendants c ++ below l'
         end) cs
  end.

Fixpoint node_count (m : Module) : nat :=
  match m with
  | mkModule _ _ _ _ _ _ _ _ cs =>
      S ((fix total (l : list Module) : nat :=
            match l with
            | [] => O
            | c :: l' => node_count c + total l'
            end) cs)
  end.

(** The fields of a module that [__init__] sets, without the children. *)
Definition same_node (m1 m2 : Module) : Prop :=
  set_children m1 [] = set_children m2 [].

(** [symbol] is one of the successors of some rule. *)
Definition in_rules (o : Options) (symbol : string) : Prop :=
  exists predecessor expansion,
    o_rules o !! predecessor = Some expansion /\ In symbol (chars expansion).

(** [made_by o parent i c]: [c] was constructed in the loop of
    [parent.expand_recurse] at index [i], for a symbol of the rules. *)
Definition made_by (o : Options) (parent : Module) (i : nat) (c : Module)
    : Prop :=
  exists symbol : string,
    in_rules o symbol
    /\ same_node c
         (Module_init (symbol +:+ str_nat i) (Some parent) (depth parent + 1)
            i (default 0%Z (o_sizes o !! symbol)) (o_dynamic_imports o)).

Fixpoint children_made (o : Options) (parent : Module) (cs : list Module)
    (i : nat) : Prop :=
  match cs with
  | [] => True
  | c :: cs' => made_by o parent i c /\ children_made o parent cs' (S i)
  end.

(** Every module of the tree below [m] was made by the loop of its parent. *)
Fixpoint tree_made (o : Options) (m : Module) : Prop :=
  match m with
  | mkModule _ _ _ _ _ _ _ _ cs =>
      children_made o m cs 0
      /\ (fix all (l : list Module) : Prop :=
            match l with
            | [] => True
            | c :: l' => tree_made o c /\ all l'
            end) cs
  end.

(** ** The emitted programs

    The text of an artifact is the rendering of a small program: static
    imports, an entry function and, for a sized module, a helper. *)

Inductive Term :=
  | Call (function : string)
  | LocalA.

Inductive Body :=
  | ReturnSum (terms : list Term)
  | AwaitAll (loads : list (string * string)).

Record Artifact := mkArtifact {
  art_imports : list (string * string);
  art_async : bool;
  art_name : string;
  art_guard : bool;
  art_body : Body;
  art_helper : option (list Z) }.

(** The program [Module.export] writes for [self], the filler loop having
    drawn [numbers]. *)
Definition artifact_of (self : Module) (numbers : list Z) : Artifact :=
  {| art_imports :=
       if dynamic_import self then []
       else map (fun c => (entry_name c, import_specifier self c))
              (children self);
     art_async := dynamic_import self;
     art_name := entry_name self;
     art_guard := negb (Z.eqb (size self) 0);
     art_body :=
       if dynamic_import self
       then AwaitAll
              (map (fun c => (import_specifier self c, entry_name c))
                 (children self))
       else ReturnSum (map (fun c => Call (entry_name c)) (children self)
                         ++ [LocalA]);
     art_helper := if Z.eqb (size self) 0 then None else Some numbers |}.

Definition render_term (t : Term) : string :=
  match t with
  | Call f => f +:+ "()"
  | LocalA => "a"
  end.

Definition render_load (l : string * string) : string :=
  "import('" +:+ fst l +:+ "').then(m => m." +:+ snd l +:+ "())".

(** The strings written for a program, in order. *)
Definition render (a : Artifact) : list string :=
  map (fun i => "import {" +:+ fst i +:+ "} from '" +:+ snd i +:+ "'" +:+ nl)
    (art_imports a)
  ++ [(if art_async a then "export async function " else "export function ")
        +:+ art_name a +:+ "() {" +:+ nl;
      "  let a=1;" +:+ nl]
  ++ (if art_guard a
      then ["  if (document.evaluate_all) {" +:+ nl;
            "    a=helper()" +:+ nl;
            "  }" +:+ nl]
      else [])
  ++ match art_body a with
     | ReturnSum terms =>
         ["  return " +:+ String.concat "+" (map render_term terms) +:+ ";"
            +:+ nl]
     | AwaitAll loads =>
         ["  const results = await Promise.all([" +:+ nl;
          "    " +:+ String.concat ("," +:+ nl +:+ "    ")
                       (map render_load loads) +:+ nl;
          "  ]);" +:+ nl;
          "  for (let result of results) a += result;" +:+ nl;
          "  return a;" +:+ nl]
     end
  ++ ["}" +:+ nl]
  ++ match art_helper a with
     | None => []
     | Some numbers =>
         ["function helper() {" +:+ nl; "  let a=1;"]
           ++ map filler_line numbers
           ++ [";" +:+ nl; "  return a+100;" +:+ nl; "}" +:+ nl]
     end.

(** ** What the emitted programs compute

    The values are JavaScript numbers.  Every value that arises here is an
    integer below 2^53 in magnitude (see [helper_values_exact]), where the
    arithmetic of doubles is the arithmetic of integers. *)

Inductive Stmt :=
  | AddAssign (n : Z)
  | SubAssign (n : Z).

(** The statements between [let a=1;] and [return a+100;]. *)
Definition helper_body (numbers : list Z) : list Stmt :=
  flat_map (fun n => [AddAssign n; SubAssign n]) numbers.

Definition exec (a : Z) (s : Stmt) : Z :=
  match s with
  | AddAssign n => (a + n)%Z
  | SubAssign n => (a - n)%Z
  end.

(** The values [a] takes while the statements run. *)
Fixpoint values (a : Z) (body : list Stmt) : list Z :=
  match body with
  | [] => [a]
  | s :: body' => a :: values (exec a s) body'
  end.

(** [helper()] *)
Definition call_helper (numbers : list Z) : Z :=
  (fold_left exec (helper_body numbers) 1 + 100)%Z.








(** The base value of an entry function. *)
Definition base_value (evaluate_all : bool) (m : Module) : Z :=
  if negb (Z.eqb (size m) 0) && evaluate_all then 101%Z else 1%Z.



(** ** Notions used by the proofs *)

(** [c in s] *)
Fixpoint contains (c : ascii) (s : string) : bool :=
  match s with
  | EmptyString => false
  | String c' s' => Ascii.eqb c' c || contains c s'
  end.

Definition is_digit (c : ascii) : bool :=
  Nat.leb 48 (nat_of_ascii c) && Nat.leb (nat_of_ascii c) 57.

Fixpoint all_digits (s : string) : bool :=
  match s with
  | EmptyString => true
  | String c s' => is_digit c && all_digits s'
  end.

(** No rule has the path separator among its successors. *)
Definition no_separator (o : Options) : Prop :=
  forall predecessor expansion,
    o_rules o !! predecessor = Some expansion ->
    contains "/" expansion = false.

(** The tree [create_module_tree] builds. *)
Definition module_tree (o : Options) : Module :=
  grow (o_depth o) o
    (Module_init ROOT_AXIOM None 0 0 0%Z (o_dynamic_imports o)) ROOT_AXIOM.

(** A module under which children can be made: its [submodule_path] has a
    component and is not the empty text. *)
Definition sub_ok (m : Module) : Prop :=
  comps (submodule_path m) <> [] /\ path_str (submodule_path m) <> "".

(** The value of the entry function of [m] when every child loads. *)
Fixpoint total (evaluate_all : bool) (m : Module) : Z :=
  match m with
  | mkModule _ _ _ _ _ _ _ _ cs =>
      (base_value evaluate_all m
       + (fix sum (l : list Module) : Z :=
            match l with
            | [] => 0
            | c :: l' => total evaluate_all c + sum l'
            end) cs)%Z
  end.

(** [key_le m1 m2]: the key of [m2] is not smaller than the key of [m1]. *)
Definition key_le (m1 m2 : Module) : Prop :=
  key_ltb (sort_key m2) (sort_key m1) = false.

(** The helper that [Module.export] emits for [self]: the literals of its
    filler, or [None] when there is no helper. *)
Definition emitted_helper (self : Module) (g : RandomState)
    : option (list Z) :=
  art_helper (artifact_of self (fst (helper_draw self g))).

(** Reading a file of the world. *)
Definition read_file (w : World) (p : Path) : option Content :=
  option_map snd (List.find (fun f => bool_decide (fst f = p)) (files w)).

(** The comparison pages of a run, by loading mode, and the item of a page
    in the list of the index. *)
Definition page_names (dyn : bool) : list string :=
  ["unbundled.html"; "modulepreload.html"; "script-preload.html"]
    ++ (if dyn then [] else ["rollup.html"; "webbundle.html"]).

Definition index_item (file_name : string) : string :=
  "  <li><a href=" +:+ dq +:+ file_name +:+ dq +:+ ">" +:+ file_name
    +:+ "</a></li>".

(** The path [out_path / file_name] of a page. *)
Definition page_path (out : Path) (file_name : string) : Path :=
  {| anchored := anchored out; comps := comps out ++ [file_name] |}.

(** The text of the artifact of a root without children. *)
Definition root_only_text (dyn : bool) : string :=
  if dyn
  then "export async function f_A() {" +:+ nl
         +:+ "  let a=1;" +:+ nl
         +:+ "  const results = await Promise.all([" +:+ nl
         +:+ "    " +:+ nl
         +:+ "  ]);" +:+ nl
         +:+ "  for (let result of results) a += result;" +:+ nl
         +:+ "  return a;" +:+ nl
         +:+ "}" +:+ nl
  else "export function f_A() {" +:+ nl
         +:+ "  let a=1;" +:+ nl
         +:+ "  return a;" +:+ nl
         +:+ "}" +:+ nl.

(** Configurations of the scenarios: one rule A -> A with a size for A, and
    rules that use the path separator as a symbol. *)
Definition sized_options (size0 : Z) (d : nat) (dyn : bool) : Options :=
  {| o_depth := d;
     o_rules := <["A" := "A"]> ∅;
     o_sizes := <["A" := size0]> ∅;
     o_dynamic_imports := dyn |}.

Definition slash_options : Options :=
  {| o_depth := 3;
     o_rules := <["A" := "/A"]> (<["/" := "A"]> ∅);
     o_sizes := ∅;
     o_dynamic_imports := false |}.

(** A generator, for the examples. *)
Definition sample_random : RandomState := fun n => (Z.of_nat n * 7919)%Z.

Definition fresh_world (g : RandomState) : World :=
  {| files := []; dirs := []; random := g |}.

(** The benchmark of the first scenario once the tree is built, for a
    positive maximum depth. *)
Definition scenario_benchmark (d : nat) (dyn : bool) : Benchmark :=
  {| options := scenario_options d dyn;
     start_module := module_tree (scenario_options d dyn);
     modules := Some (descendants (module_tree (scenario_options d dyn))) |}.

(** A module under which children get plain names: [sub_ok], and the name
    is the submodule path with its separators replaced. *)
Definition plain_ok (m : Module) : Prop :=
  sub_ok m /\ replace_char "/" "_" (path_str (submodule_path m)) = name m.

(** ** Options: validation and parsing

    [Options.__init__] reads the command line with [optparse] and validates
    it.  The values [optparse] hands over are a record; the conversion of
    [--depth] and [--branches] to integers is its work.  [parser.error]
    prints the message and leaves the program.  The texts of [--rules] and
    [--sizes] are taken to be ASCII, where [len] counts the characters of a
    [string] and [lower] maps the letters A-Z. *)

Record Values := mkValues {
  v_out : string;
  v_depth : Z;
  v_branches : Z;
  v_rules : option string;
  v_sizes : option string;
  v_dynamic_imports : bool }.

(** The defaults of [setup_option_parser]. *)
Definition default_values : Values :=
  {| v_out := "out"; v_depth := 4; v_branches := 10; v_rules := None;
     v_sizes := None; v_dynamic_imports := false |}.

(** How the construction of [Options] ends early: [parser.error] with its
    message, or an exception that nothing catches. *)
Inductive Abort :=
  | ParserError (message : string)
  | Raise (e : Error).

(** [s.split(sep)] for a one-character [sep]. *)
Fixpoint split_on (sep : ascii) (s : string) : list string :=
  match s with
  | EmptyString => [""]
  | String c s' =>
      if Ascii.eqb c sep then "" :: split_on sep s'
      else match split_on sep s' with
           | [] => [String c ""]
           | piece :: pieces => String c piece :: pieces
           end
  end.

(** [s * n] *)
Fixpoint repeat_string (s : string) (n : nat) : string :=
  match n with
  | O => ""
  | S n' => s +:+ repeat_string s n'
  end.

(** The loop of [parse_rules]; [rules] is the dict filled so far.  The
    unpacking [predecessor, successors = rule.split(":")] raises
    [ValueError] unless there are exactly two pieces. *)
Fixpoint parse_rules_loop (pieces : list string) (rules : gmap string string)
    : Abort + gmap string string :=
  match pieces with
  | [] => inr rules
  | rule :: rest =>
      match split_on ":" rule with
      | [predecessor; successors] =>
          if negb (Nat.eqb (String.length predecessor) 1) then
            inl (ParserError
                   ("Invalid rule '" +:+ rule
                      +:+ "'': only 1 char predecessor allowed"))
          else if Nat.eqb (String.length successors) 0 then
            inl (ParserError
                   ("Invalid rule '" +:+ rule
                      +:+ "': successor not specified"))
          else
            match rules !! predecessor with
            | Some _ =>
                inl (ParserError ("More than one rule for '" +:+ predecessor))
            | None =>
                parse_rules_loop rest (<[predecessor := successors]> rules)
            end
      | _ => inl (Raise ValueError)
      end
  end.

(** [Options.parse_rules], on the text of [--rules] *)
Definition parse_rules (text : string) : Abort + gmap string string :=
  match parse_rules_loop (split_on "," text) ∅ with
  | inl e => inl e
  | inr rules =>
      match rules !! "A" with
      | None => inl (ParserError "Missing rule for initial axiom 'A'")
      | Some _ => inr rules
      end
  end.

(** [s.lower()], [s.endswith(c)] and [s[:-1]] *)
Definition lower_char (c : ascii) : ascii :=
  if Nat.leb 65 (nat_of_ascii c) && Nat.leb (nat_of_ascii c) 90
  then ascii_of_nat (nat_of_ascii c + 32) else c.

Fixpoint lower (s : string) : string :=
  match s with
  | EmptyString => ""
  | String c s' => String (lower_char c) (lower s')
  end.

Fixpoint ends_with (c : ascii) (s : string) : bool :=
  match s with
  | EmptyString => false
  | String c' EmptyString => Ascii.eqb c' c
  | String _ s' => ends_with c s'
  end.

Fixpoint drop_last (s : string) : string :=
  match s with
  | EmptyString => ""
  | String _ EmptyString => ""
  | String c s' => String c (drop_last s')
  end.

Section Sizes.

(** The builtin [int] on a [str]: [None] is its [ValueError]. *)
Variable int : string -> option Z.

(** The size a size text stands for: the [if]/[elif]/[else] of the loop of
    [parse_sizes]. *)
Definition parse_size (size_string0 : string) : option Z :=
  let size_string := lower size_string0 in
  if ends_with "k" size_string then
    option_map (fun n => (n * 1024)%Z) (int (drop_last size_string))
  else if ends_with "m" size_string then
    option_map (fun n => (n * 1024 * 1024)%Z) (int (drop_last size_string))
  else option_map (fun n => (n * 1024)%Z) (int size_string).

(** The loop of [parse_sizes]; the size is computed before the symbol is
    looked up. *)
Fixpoint parse_sizes_loop (inputs : list string) (sizes : gmap string Z)
    : Abort + gmap string Z :=
  match inputs with
  | [] => inr sizes
  | input :: rest =>
      match split_on ":" input with
      | [symbol; size_string] =>
          match parse_size size_string with
          | None => inl (Raise ValueError)
          | Some size0 =>
              match sizes !! symbol with
              | Some _ => inl (ParserError ("Duplicate size for " +:+ symbol))
              | None => parse_sizes_loop rest (<[symbol := size0]> sizes)
              end
          end
      | _ => inl (Raise ValueError)
      end
  end.

(** [Options.parse_sizes], on the value of [--sizes] *)
Definition parse_sizes (input_sizes : option string) : Abort + gmap string Z :=
  match input_sizes with
  | None => inr ∅
  | Some text => parse_sizes_loop (split_on "," text) ∅
  end.

(** [Options.validate_options]: the options the rest of the program reads. *)
Definition validate_options (v : Values) : Abort + Options :=
  if (v_depth v <? 0)%Z then inl (ParserError "--depth has to be >= 0")
  else if (v_branches v <=? 0)%Z then
    inl (ParserError "--branches has to be >= 1")
  else
    let rules_text :=
      match v_rules v with
      | None => "A:" +:+ repeat_string "A" (Z.to_nat (v_branches v))
      | Some text => text
      end in
    match parse_rules rules_text with
    | inl e => inl e
    | inr rules =>
        match parse_sizes (v_sizes v) with
        | inl e => inl e
        | inr sizes =>
            inr {| o_depth := Z.to_nat (v_depth v);
                   o_rules := rules;
                   o_sizes := sizes;
                   o_dynamic_imports := v_dynamic_imports v |}
        end
    end.


End Sizes.

(** [int] on a text of ASCII digits, where it is the decimal reading.  The
    builtin accepts more (a sign, blanks around, underscores between
    digits); the examples do not use that. *)
Definition int_digits (s : string) : option Z :=
  if all_digits s && negb (String.eqb s "")
  then option_map Z.of_uint (NilEmpty.uint_of_string s)
  else None.

(** ** Notions used by the proofs about the options *)

(** The text of a list of rules: [p:s,p:s,...]. *)
Definition rule_text (r : string * string) : string :=
  fst r +:+ ":" +:+ snd r.

Definition rules_text (l : list (string * string)) : string :=
  String.concat "," (map rule_text l).

(** A text that holds neither of the two separators. *)
Definition plain_text (s : string) : Prop :=
  contains "," s = false /\ contains ":" s = false.

(** A rule [parse_rules] takes: one character, and successors. *)
Definition rule_ok (r : string * string) : Prop :=
  String.length (fst r) = 1 /\ snd r <> ""
  /\ plain_text (fst r) /\ plain_text (snd r).

(** The grammar symbol a module was made for: its simple name is the
    symbol, followed by the index below the root. *)
Definition symbol_of (m : Module) : string :=
  match simple_name m with
  | EmptyString => ""
  | String c _ => String c ""
  end.

(** The successors [expand_recurse] loops over for [m]: none at the maximum
    depth, none for a symbol without rule. *)
Definition successors (o : Options) (m : Module) : list string :=
  if Nat.eqb (depth m) (o_depth o) then []
  else match o_rules o !! symbol_of m with
       | None => []
       | Some expansion => chars expansion
       end.

(** 1 + b + b^2 + ... + b^d *)
Fixpoint level_sum (b d : nat) : nat :=
  match d with
  | O => 1
  | S d' => 1 + b * level_sum b d'
  end.

(** [grown o m']: [m'] is a module as [expand_recurse] leaves it, called
    on a new module [m] of symbol [s], with [n] levels left below it. *)
Definition grown (o : Options) (m' : Module) : Prop :=
  exists n m s,
    m' = grow n o m s /\ children m = [] /\ depth m + n = o_depth o
    /\ symbol_of m = s.

(** The fields of a module that the loop of [expand_recurse] sets. *)
Definition made_fields (c : Module) : string * nat * nat * Z * bool :=
  (simple_name c, depth c, index c, size c, dynamic_import c).

(** A module placed as the export expects: its file and its directory for
    submodules lie side by side in a relative directory, under plain
    names. *)
Definition laid_out (m : Module) : Prop :=
  plain_ok m
  /\ anchored (path m) = false
  /\ comps (path m) = comps (path_parent (path m)) ++ [name m +:+ ".mjs"]
  /\ submodule_path m
     = {| anchored := false;
          comps := comps (path_parent (path m)) ++ [simple_name m] |}
  /\ contains "/" (simple_name m) = false
  /\ simple_name m <> "" /\ simple_name m <> ".".

(** ** Notions used by the proofs about the export *)

(** The world once [Module.export] has written the artifact of [self]. *)
Definition export_own (self : Module) (out_dir : Path) (w : World) : World :=
  let '(writes, g) := export_writes self (random w) in
  write_file (path_join_path out_dir (path self))
    (Text (String.concat "" writes)) (set_random w g).

(** The loop over the children in [Module.export]. *)
Fixpoint export_each (ms : list Module) (out_dir : Path) (w : World)
    : option Error * World :=
  match ms with
  | [] => (None, w)
  | module :: rest =>
      match Module_export module out_dir w with
      | (Some e, w') => (Some e, w')
      | (None, w') => export_each rest out_dir w'
      end
  end.

(** The modules [Module.export] reaches from [m], in the order it writes
    them: a module before its children, the children by index. *)
Definition exported (m : Module) : list Module := m :: descendants m.





(** The result of a step, with the generator replaced. *)
Definition with_random {A : Type} (g : RandomState) (r : A * World)
    : A * World :=
  (fst r, set_random (snd r) g).

(** One generation of the grammar: every symbol of the word is replaced by
    the successors of its rule; a symbol without rule has none. *)
Definition derive (o : Options) (word : list string) : list string :=
  flat_map (fun s => match o_rules o !! s with
                     | Some expansion => chars expansion
                     | None => []
                     end) word.

(** The modules of a list that are at depth [k], in the order of the list. *)
Definition at_depth (k : nat) (ms : list Module) : list Module :=
  List.filter (fun m => Nat.eqb (depth m) k) ms.

(** The options with another size table. *)
Definition with_sizes (o : Options) (sizes : gmap string Z) : Options :=
  {| o_depth := o_depth o; o_rules := o_rules o; o_sizes := sizes;
     o_dynamic_imports := o_dynamic_imports o |}.

(** [m] has the sort key [k]. *)
Definition has_key (k : nat * list string) (m : Module) : bool :=
  match key_compare (sort_key m) k with Eq => true | _ => false end.

(** A path component that parsing keeps as it is. *)
Definition plain_comp (c : string) : Prop :=
  contains "/" c = false /\ c <> "" /\ c <> ".".

(** * Proofs *)

(** ** Induction on module trees *)

Lemma Module_tree_ind (P : Module -> Prop) :
  (forall m, Forall P (children m) -> P m) -> forall m, P m.
Proof.
  intros step. fix IH 1. intros [sn n p sp d i sz dy cs].
  apply step. simpl.
  induction cs as [|c cs IHcs]; constructor.
  - apply IH.
  - exact IHcs.
Qed.

Lemma descendants_eq (m : Module) :
  descendants m = flat_map (fun c => c :: descendants c) (children m).
Proof.
  destruct m as [sn n p sp d i sz dy cs]. simpl.
  induction cs as [|c cs IHcs]; simpl; [reflexivity|].
  now rewrite IHcs.
Qed.

Lemma node_count_eq (m : Module) :
  node_count m = S (list_sum (map node_count (children m))).
Proof.
  destruct m as [sn n p sp d i sz dy cs]. simpl. f_equal.
  induction cs as [|c cs IHcs]; simpl; [reflexivity|].
  now rewrite IHcs.
Qed.

Lemma tree_made_eq (o : Options) (m : Module) :
  tree_made o m <->
  children_made o m (children m) 0 /\ Forall (tree_made o) (children m).
Proof.
  destruct m as [sn n p sp d i sz dy cs]. simpl.
  assert (H : forall l,
    (fix all (l : list Module) : Prop :=
       match l with [] => True | c :: l' => tree_made o c /\ all l' end) l
    <-> Forall (tree_made o) l).
  { induction l as [|c l IHl]; simpl.
    - split; [constructor | trivial].
    - rewrite IHl. split.
      + intros [? ?]. now constructor.
      + intros H. inversion H; subst. now split. }
  now rewrite H.
Qed.



(** ** The expansion: [expand_recurse] computes [grow] *)

Lemma Module_init_parent (n : string) (p p' : Module) d i sz dy :
  submodule_path p = submodule_path p' ->
  Module_init n (Some p) d i sz dy = Module_init n (Some p') d i sz dy.
Proof. intros H. unfold Module_init. now rewrite H. Qed.

Lemma grow_loop_parent (g : Module -> string -> Module) o (p p' : Module)
    symbols i :
  submodule_path p = submodule_path p' -> depth p = depth p' ->
  grow_loop g o p symbols i = grow_loop g o p' symbols i.
Proof.
  intros Hs Hd. revert i.
  induction symbols as [|s symbols IH]; intros i; simpl; [reflexivity|].
  rewrite IH, Hd. now rewrite (Module_init_parent _ p p').
Qed.

Lemma insert_slot (acc : list Module) (m m' : Module) (l : list Module) :
  <[length acc := m']> ((acc ++ [m]) ++ l) = acc ++ m' :: l.
Proof.
  rewrite <- app_assoc. simpl.
  induction acc as [|x acc IH]; simpl; [reflexivity|].
  now rewrite IH.
Qed.

(** What the recursive call does to a fresh module at depth [d]. *)
Definition recurse_grows (d : nat)
    (recurse : Module -> string -> list Module -> expand_result)
    (g : Module -> string -> Module) : Prop :=
  forall m symbol acc,
    children m = [] -> depth m = d ->
    exists r,
      recurse m symbol acc = Some (g m symbol, acc ++ descendants (g m symbol), r).

Lemma expand_loop_grow recurse g o symbols :
  forall i self acc,
    recurse_grows (depth self + 1) recurse g ->
    let grown := grow_loop g o self symbols i in
    let acc' := acc ++ flat_map (fun c => c :: descendants c) grown in
    expand_loop recurse o symbols i self acc
    = Some (set_children self (children self ++ grown), acc', Some acc').
Proof.
  induction symbols as [|s symbols IH]; intros i self acc Hrec; simpl.
  - rewrite !app_nil_r. now destruct self.
  - set (module := Module_init (s +:+ str_nat i) (Some self) (depth self + 1) i
                     (default 0%Z (o_sizes o !! s)) (o_dynamic_imports o)).
    destruct (Hrec module s (acc ++ [module]) eq_refl eq_refl) as [r Hr].
    rewrite Hr, insert_slot.
    rewrite (IH (S i) (append self (g module s))); [|exact Hrec].
    rewrite (grow_loop_parent g o (append self (g module s)) self)
      by reflexivity.
    unfold append. simpl. rewrite <- !app_assoc. simpl.
    reflexivity.
Qed.

Lemma grow_rule n o self symbol expansion :
  o_rules o !! symbol = Some expansion ->
  grow (S n) o self symbol
  = set_children self
      (children self ++ grow_loop (grow n o) o self (chars expansion) 0).
Proof. intros H. simpl. now rewrite H. Qed.

Lemma grow_no_rule n o self symbol :
  o_rules o !! symbol = None -> grow n o self symbol = self.
Proof. intros H. destruct n; simpl; [reflexivity | now rewrite H]. Qed.

Lemma descendants_leaf (m : Module) : children m = [] -> descendants m = [].
Proof. intros H. now rewrite descendants_eq, H. Qed.

Lemma expand_recurse_grow (o : Options) :
  forall fuel n self symbol acc,
    depth self + n = o_depth o -> n < fuel -> children self = [] ->
    exists r,
      expand_recurse fuel o self symbol acc
      = Some (grow n o self symbol,
              acc ++ descendants (grow n o self symbol), r)
      /\ r = match n, o_rules o !! symbol with
             | S _, Some _ => Some (acc ++ descendants (grow n o self symbol))
             | _, _ => None
             end.
Proof.
  induction fuel as [|fuel IH]; intros n self symbol acc Hd Hf Hc; [lia|].
  cbn [expand_recurse]. destruct n as [|n].
  - replace (Nat.eqb (depth self) (o_depth o)) with true
      by (symmetry; apply Nat.eqb_eq; lia).
    exists None. cbn [grow]. rewrite (descendants_leaf self Hc).
    now rewrite app_nil_r.
  - replace (Nat.eqb (depth self) (o_depth o)) with false
      by (symmetry; apply Nat.eqb_neq; lia).
    destruct (o_rules o !! symbol) as [expansion|] eqn:Hrule.
    + eexists. split; [|reflexivity].
      rewrite (grow_rule n o self symbol expansion Hrule).
      rewrite (expand_loop_grow _ (grow n o)).
      * rewrite (descendants_eq (set_children _ _)). cbn [children set_children].
        rewrite Hc. reflexivity.
      * intros m s acc0 Hm Hdm.
        destruct (IH n m s acc0) as [r [Hr _]]; [lia | lia | exact Hm |].
        now exists r.
    + exists None. rewrite (grow_no_rule _ _ _ _ Hrule).
      rewrite (descendants_leaf self Hc). now rewrite app_nil_r.
Qed.

(** ** Strings *)

Lemma append_assoc (s1 s2 s3 : string) :
  (s1 +:+ s2) +:+ s3 = s1 +:+ (s2 +:+ s3).
Proof. induction s1 as [|c s1 IH]; simpl; [reflexivity | now rewrite IH]. Qed.

Lemma append_nil_r (s : string) : s +:+ "" = s.
Proof. induction s as [|c s IH]; simpl; [reflexivity | now rewrite IH]. Qed.

Lemma append_empty (s1 s2 : string) : s1 +:+ s2 = "" -> s1 = "" /\ s2 = "".
Proof. destruct s1; simpl; [auto | discriminate]. Qed.

Lemma contains_append (c : ascii) (s1 s2 : string) :
  contains c (s1 +:+ s2) = contains c s1 || contains c s2.
Proof.
  induction s1 as [|a s1 IH]; simpl; [reflexivity|].
  rewrite IH. now rewrite orb_assoc.
Qed.

Lemma split_slash_plain (s : string) :
  contains "/" s = false -> split_slash s = [s].
Proof.
  induction s as [|c s IH]; simpl; [reflexivity|].
  intros H. apply orb_false_iff in H as [Hc Hs].
  rewrite Hc, (IH Hs). reflexivity.
Qed.

Lemma replace_char_append (old new : ascii) (s1 s2 : string) :
  replace_char old new (s1 +:+ s2)
  = replace_char old new s1 +:+ replace_char old new s2.
Proof. induction s1 as [|c s1 IH]; simpl; [reflexivity | now rewrite IH]. Qed.

Lemma replace_char_clean (s : string) :
  contains "/" (replace_char "/" "_" s) = false.
Proof.
  induction s as [|c s IH]; simpl; [reflexivity|].
  rewrite IH. destruct (Ascii.eqb c "/") eqn:E; [reflexivity|].
  now rewrite E.
Qed.

Lemma replace_char_id (s : string) :
  contains "/" s = false -> replace_char "/" "_" s = s.
Proof.
  induction s as [|c s IH]; simpl; [reflexivity|].
  intros H. apply orb_false_iff in H as [Hc Hs].
  now rewrite Hc, (IH Hs).
Qed.

Lemma replace_char_nonempty (s : string) :
  s <> "" -> replace_char "/" "_" s <> "".
Proof. destruct s; simpl; [congruence | discriminate]. Qed.

Lemma digits_lack (c : ascii) (s : string) :
  is_digit c = false -> all_digits s = true -> contains c s = false.
Proof.
  intros Hc. induction s as [|a s IH]; simpl; [reflexivity|].
  intros H. apply andb_true_iff in H as [Ha Hs].
  rewrite (IH Hs), orb_false_r.
  apply Ascii.eqb_neq. intros ->. congruence.
Qed.

Lemma string_of_uint_digits (d : uint) :
  all_digits (NilEmpty.string_of_uint d) = true.
Proof. induction d; simpl; auto. Qed.

Lemma str_nat_digits (i : nat) : all_digits (str_nat i) = true.
Proof. apply string_of_uint_digits. Qed.

Lemma str_nat_nonempty (i : nat) : str_nat i <> "".
Proof.
  unfold str_nat. intros H.
  assert (Hn : Nat.to_uint i <> Nil).
  { rewrite <- (Unsigned.of_to i) at 1. rewrite Unsigned.to_of.
    apply unorm_nonnil. }
  destruct (Nat.to_uint i); simpl in H; congruence.
Qed.

Lemma str_nat_inj (i j : nat) : str_nat i = str_nat j -> i = j.
Proof.
  unfold str_nat. intros H. apply Unsigned.to_uint_inj.
  assert (Hs : Some (Nat.to_uint i) = Some (Nat.to_uint j)).
  { rewrite <- !NilEmpty.usu. now rewrite H. }
  congruence.
Qed.

Lemma str_nat_no_slash (i : nat) : contains "/" (str_nat i) = false.
Proof. apply digits_lack; [reflexivity | apply str_nat_digits]. Qed.

(** ** Paths *)

Lemma prefix_slash (c : ascii) (s : string) :
  String.prefix "/" (String c s) = Ascii.eqb c "/".
Proof.
  cbn [String.prefix]. destruct (ascii_dec "/" c) as [<-|n].
  - now destruct s.
  - symmetry. apply Ascii.eqb_neq. congruence.
Qed.

Lemma Path_of_plain (s : string) :
  contains "/" s = false -> s <> "" -> s <> "." ->
  Path_of s = {| anchored := false; comps := [s] |}.
Proof.
  intros Hs He Hd. unfold Path_of. rewrite (split_slash_plain s Hs).
  simpl. unfold keep_component.
  apply String.eqb_neq in He, Hd. rewrite He, Hd. simpl.
  f_equal. destruct s as [|c s]; [reflexivity|].
  rewrite prefix_slash. cbn [contains] in Hs.
  now apply orb_false_iff in Hs as [Hc _].
Qed.

Lemma Path_of_rooted (s : string) :
  contains "/" s = false -> s <> "" -> s <> "." ->
  Path_of (String "/" s) = {| anchored := true; comps := [s] |}.
Proof.
  intros Hs He Hd. unfold Path_of. rewrite prefix_slash.
  cbn [split_slash]. rewrite Ascii.eqb_refl.
  rewrite (split_slash_plain s Hs). cbn [List.filter]. unfold keep_component.
  apply String.eqb_neq in He, Hd. rewrite He, Hd. reflexivity.
Qed.

Lemma concat_snoc (sep : string) (l : list string) (x : string) :
  l <> [] ->
  String.concat sep (l ++ [x]) = String.concat sep l +:+ sep +:+ x.
Proof.
  induction l as [|a l IH]; [congruence|]. intros _.
  destruct l as [|b l]; [reflexivity|].
  change (String.concat sep ((a :: b :: l) ++ [x]))
    with (a +:+ sep +:+ String.concat sep ((b :: l) ++ [x])).
  rewrite IH by discriminate.
  change (String.concat sep (a :: b :: l))
    with (a +:+ sep +:+ String.concat sep (b :: l)).
  now rewrite !append_assoc.
Qed.

Lemma path_str_snoc (p : Path) (x : string) :
  comps p <> [] ->
  path_str {| anchored := anchored p; comps := comps p ++ [x] |}
  = path_str p +:+ "/" +:+ x.
Proof.
  intros H. unfold path_str. cbn [anchored comps].
  destruct (anchored p).
  - rewrite (concat_snoc "/" (comps p) x H). reflexivity.
  - destruct (comps p) as [|a l]; [congruence|].
    change (String.concat "/" ((a :: l) ++ [x])
            = String.concat "/" (a :: l) +:+ "/" +:+ x).
    now apply concat_snoc.
Qed.

Lemma path_parent_snoc (p : Path) (x : string) :
  path_parent {| anchored := anchored p; comps := comps p ++ [x] |} = p.
Proof.
  unfold path_parent. cbn [anchored comps].
  rewrite removelast_last. now destruct p.
Qed.

(** ** What [__init__] gives a module made by the loop *)

Lemma Module_init_name n0 p d i sz dy :
  name (Module_init n0 (Some p) d i sz dy)
  = replace_char "/" "_" (path_str (path_join (submodule_path p) n0)).
Proof. reflexivity. Qed.

Lemma Module_init_path n0 p d i sz dy :
  path (Module_init n0 (Some p) d i sz dy)
  = path_join (submodule_path p)
      (name (Module_init n0 (Some p) d i sz dy) +:+ ".mjs").
Proof. reflexivity. Qed.

Lemma Module_init_sub n0 p d i sz dy :
  submodule_path (Module_init n0 (Some p) d i sz dy)
  = path_join (path_parent (path (Module_init n0 (Some p) d i sz dy))) n0.
Proof. reflexivity. Qed.

Lemma plain_name (c : ascii) (i : nat) :
  Ascii.eqb c "/" = false ->
  contains "/" (String c (str_nat i)) = false
  /\ String c (str_nat i) <> "" /\ String c (str_nat i) <> ".".
Proof.
  intros H. cbn [contains]. rewrite H, str_nat_no_slash.
  split; [reflexivity|]. split; [discriminate|].
  intros E. injection E as _ E. exact (str_nat_nonempty i E).
Qed.

Lemma digits_name (i : nat) :
  contains "/" (str_nat i) = false /\ str_nat i <> "" /\ str_nat i <> ".".
Proof.
  split; [apply str_nat_no_slash|]. split; [apply str_nat_nonempty|].
  intros E. pose proof (str_nat_digits i) as H. rewrite E in H. discriminate.
Qed.

Lemma mjs_file (n : string) :
  contains "/" n = false ->
  contains "/" (n +:+ ".mjs") = false
  /\ n +:+ ".mjs" <> "" /\ n +:+ ".mjs" <> ".".
Proof.
  intros H. rewrite contains_append, H. split; [reflexivity|]. split.
  - intros E. apply append_empty in E as [_ E]. discriminate.
  - destruct n as [|a n]; [discriminate|]. simpl. intros E.
    injection E as _ E. apply append_empty in E as [_ E]. discriminate.
Qed.

Lemma path_join_plain (p : Path) (s : string) :
  contains "/" s = false -> s <> "" -> s <> "." ->
  path_join p s = {| anchored := anchored p; comps := comps p ++ [s] |}.
Proof.
  intros H1 H2 H3. unfold path_join. now rewrite (Path_of_plain s H1 H2 H3).
Qed.

Section Init.
Variables (p : Module) (c : ascii) (i d : nat) (sz : Z) (dy : bool).
Hypothesis Hp : sub_ok p.

Let m : Module := Module_init (String c (str_nat i)) (Some p) d i sz dy.

Lemma init_name :
  name m
  = if Ascii.eqb c "/" then "_" +:+ str_nat i
    else replace_char "/" "_" (path_str (submodule_path p))
           +:+ "_" +:+ String c (str_nat i).
Proof.
  unfold m. rewrite Module_init_name.
  destruct (Ascii.eqb c "/") eqn:E.
  - apply Ascii.eqb_eq in E. subst c.
    destruct (digits_name i) as (H1 & H2 & H3).
    unfold path_join. rewrite (Path_of_rooted _ H1 H2 H3).
    unfold path_join_path, path_str. cbn [anchored comps String.concat].
    simpl. now rewrite (replace_char_id _ H1).
  - destruct (plain_name c i E) as (H1 & H2 & H3).
    rewrite (path_join_plain _ _ H1 H2 H3).
    rewrite path_str_snoc by apply Hp.
    rewrite !replace_char_append, (replace_char_id _ H1). reflexivity.
Qed.

Lemma init_name_clean : contains "/" (name m) = false.
Proof. unfold m. rewrite Module_init_name. apply replace_char_clean. Qed.

Lemma init_name_nonempty : name m <> "".
Proof.
  rewrite init_name. destruct (Ascii.eqb c "/"); [discriminate|].
  intros E. apply append_empty in E as [_ E]. discriminate.
Qed.

Lemma init_path :
  path m
  = {| anchored := anchored (submodule_path p);
       comps := comps (submodule_path p) ++ [name m +:+ ".mjs"] |}.
Proof.
  unfold m at 1. rewrite Module_init_path. fold m.
  destruct (mjs_file (name m) init_name_clean) as (H1 & H2 & H3).
  now apply path_join_plain.
Qed.

Lemma init_sub :
  submodule_path m
  = if Ascii.eqb c "/" then {| anchored := true; comps := [str_nat i] |}
    else {| anchored := anchored (submodule_path p);
            comps := comps (submodule_path p) ++ [String c (str_nat i)] |}.
Proof.
  unfold m at 1. rewrite Module_init_sub. fold m.
  rewrite init_path, path_parent_snoc.
  destruct (Ascii.eqb c "/") eqn:E.
  - apply Ascii.eqb_eq in E. subst c.
    destruct (digits_name i) as (H1 & H2 & H3).
    unfold path_join. now rewrite (Path_of_rooted _ H1 H2 H3).
  - destruct (plain_name c i E) as (H1 & H2 & H3).
    now apply path_join_plain.
Qed.

Lemma init_sub_ok : sub_ok m.
Proof.
  unfold sub_ok. rewrite init_sub. destruct (Ascii.eqb c "/").
  - split; [discriminate|]. unfold path_str. cbn [anchored]. discriminate.
  - split.
    + intros E. apply app_eq_nil in E as [_ E]. discriminate.
    + rewrite path_str_snoc by apply Hp. intros E.
      apply append_empty in E as [_ E]. discriminate.
Qed.

Lemma init_path_str :
  path_str (path m)
  = path_str (submodule_path p) +:+ "/" +:+ name m +:+ ".mjs".
Proof. rewrite init_path. apply path_str_snoc, Hp. Qed.
End Init.

(** The fields of a module equal those of the module it is the same node
    as. *)
Lemma same_node_fields (c m : Module) :
  same_node c m ->
  simple_name c = simple_name m /\ name c = name m /\ path c = path m
  /\ submodule_path c = submodule_path m /\ depth c = depth m
  /\ index c = index m /\ size c = size m
  /\ dynamic_import c = dynamic_import m.
Proof.
  unfold same_node, set_children. intros H.
  injection H. intros. repeat split; assumption.
Qed.

Lemma same_node_set_children (m : Module) (cs : list Module) :
  same_node (set_children m cs) m.
Proof. reflexivity. Qed.

Lemma single_char (s : string) :
  String.length s = 1 -> exists c, s = String c "".
Proof.
  destruct s as [|c [|]]; simpl; try discriminate. intros _. now exists c.
Qed.

Lemma chars_single (s : string) :
  Forall (fun x => String.length x = 1) (chars s).
Proof. induction s; simpl; constructor; auto. Qed.

Lemma in_rules_single (o : Options) (symbol : string) :
  in_rules o symbol -> exists a, symbol = String a "".
Proof.
  intros (predecessor & expansion & _ & Hin).
  apply single_char.
  pose proof (chars_single expansion) as H.
  rewrite List.Forall_forall in H. now apply H.
Qed.

(** The facts about a module made by the loop of [p]. *)
Lemma made_by_facts (o : Options) (p : Module) (i : nat) (c : Module) :
  sub_ok p -> made_by o p i c ->
  exists a : ascii,
    name c = (if Ascii.eqb a "/" then "_" +:+ str_nat i
              else replace_char "/" "_" (path_str (submodule_path p))
                     +:+ "_" +:+ String a (str_nat i))
    /\ simple_name c = String a (str_nat i)
    /\ path c = {| anchored := anchored (submodule_path p);
                   comps := comps (submodule_path p) ++ [name c +:+ ".mjs"] |}
    /\ contains "/" (name c) = false
    /\ sub_ok c
    /\ depth c = depth p + 1
    /\ index c = i
    /\ size c = default 0%Z (o_sizes o !! String a "")
    /\ dynamic_import c = o_dynamic_imports o
    /\ in_rules o (String a "").
Proof.
  intros Hp (symbol & Hrule & Hsame).
  destruct (in_rules_single o symbol Hrule) as [a ->].
  change (String a "" +:+ str_nat i) with (String a (str_nat i)) in Hsame.
  destruct (same_node_fields _ _ Hsame)
    as (Hsn & Hn & Hpath & Hsub & Hd & Hi & Hsz & Hdy).
  exists a. rewrite Hn. unfold sub_ok.
  rewrite Hsub, Hpath, Hsn, Hd, Hi, Hsz, Hdy.
  split; [now apply init_name|]. split; [reflexivity|].
  split; [now apply init_path|]. split; [apply init_name_clean|].
  split; [now apply init_sub_ok|]. repeat split; try reflexivity.
  exact Hrule.
Qed.

Lemma digits_lack_underscore (s1 s2 : string) (i : nat) :
  s1 +:+ "_" +:+ s2 <> str_nat i.
Proof.
  intros E.
  pose proof (digits_lack "_" (str_nat i) eq_refl (str_nat_digits i)) as H.
  rewrite <- E, contains_append in H. simpl in H.
  now rewrite orb_true_r in H.
Qed.

(** Two modules made by one loop at different indices differ in name. *)
Lemma made_by_name_inj (o : Options) (p : Module) (i j : nat)
    (c1 c2 : Module) :
  sub_ok p -> made_by o p i c1 -> made_by o p j c2 ->
  name c1 = name c2 -> i = j.
Proof.
  intros Hp H1 H2 E.
  destruct (made_by_facts o p i c1 Hp H1) as (a & Ha & _).
  destruct (made_by_facts o p j c2 Hp H2) as (b & Hb & _).
  rewrite Ha, Hb in E. clear Ha Hb H1 H2.
  destruct Hp as [_ Hstr].
  pose proof (replace_char_nonempty _ Hstr) as HR.
  destruct (replace_char "/" "_" (path_str (submodule_path p)))
    as [|r R] eqn:ER; [congruence|].
  destruct (Ascii.eqb a "/"), (Ascii.eqb b "/").
  - injection E as E. now apply str_nat_inj.
  - injection E as _ E. symmetry in E.
    now apply digits_lack_underscore in E.
  - injection E as _ E. now apply digits_lack_underscore in E.
  - apply String.app_inj in E. injection E as _ E. now apply str_nat_inj.
Qed.

(** ** The grown tree is made by the loops *)

Lemma grow_same_node n o m s : same_node (grow n o m s) m.
Proof.
  destruct n; simpl; [reflexivity|].
  destruct (o_rules o !! s); reflexivity.
Qed.

Lemma made_by_parent (o : Options) (p p' : Module) (i : nat) (c : Module) :
  submodule_path p = submodule_path p' -> depth p = depth p' ->
  made_by o p i c -> made_by o p' i c.
Proof.
  intros Hs Hd (symbol & Hrule & Hsame).
  exists symbol. split; [exact Hrule|].
  now rewrite <- (Module_init_parent _ p p'), <- Hd.
Qed.

Lemma grow_loop_made (g : Module -> string -> Module) o p symbols :
  (forall m s, same_node (g m s) m) ->
  Forall (in_rules o) symbols ->
  forall i, children_made o p (grow_loop g o p symbols i) i.
Proof.
  intros Hg Hs. induction Hs as [|s symbols Hrule _ IH]; intros i; simpl.
  - exact I.
  - split; [|apply IH].
    exists s. split; [exact Hrule | apply Hg].
Qed.

Lemma grow_loop_all (Q : Module -> Prop) (g : Module -> string -> Module)
    o p symbols :
  (forall m s, children m = [] -> Q (g m s)) ->
  forall i, Forall Q (grow_loop g o p symbols i).
Proof.
  intros Hg. induction symbols as [|s symbols IH]; intros i; simpl;
    constructor; [now apply Hg | apply IH].
Qed.

Lemma children_made_parent (o : Options) (p p' : Module) cs i :
  submodule_path p = submodule_path p' -> depth p = depth p' ->
  children_made o p cs i -> children_made o p' cs i.
Proof.
  intros Hs Hd. revert i.
  induction cs as [|c cs IH]; intros i; simpl; [trivial|].
  intros [H1 H2]. split; [now apply (made_by_parent o p p') | now apply IH].
Qed.

Lemma grow_tree_made o :
  forall n self symbol,
    children self = [] -> tree_made o (grow n o self symbol).
Proof.
  induction n as [|n IH]; intros self symbol Hc.
  - simpl. apply tree_made_eq. rewrite Hc. simpl. auto.
  - destruct (o_rules o !! symbol) as [expansion|] eqn:Hrule.
    + rewrite (grow_rule n o self symbol expansion Hrule), Hc.
      apply tree_made_eq. cbn [children set_children app]. split.
      * apply (children_made_parent o self); [reflexivity | reflexivity |].
        apply grow_loop_made; [apply grow_same_node|].
        apply List.Forall_forall. intros s Hs. now exists symbol, expansion.
      * apply grow_loop_all. intros m s Hm. now apply IH.
    + rewrite (grow_no_rule _ _ _ _ Hrule).
      apply tree_made_eq. rewrite Hc. simpl. auto.
Qed.

Lemma module_tree_made (o : Options) : tree_made o (module_tree o).
Proof. apply grow_tree_made. reflexivity. Qed.

Lemma module_tree_sub_ok (o : Options) : sub_ok (module_tree o).
Proof.
  unfold sub_ok, module_tree.
  destruct (same_node_fields _ _
              (grow_same_node (o_depth o) o
                 (Module_init ROOT_AXIOM None 0 0 0%Z (o_dynamic_imports o))
                 ROOT_AXIOM)) as (_ & _ & _ & Hsub & _).
  rewrite Hsub. split; discriminate.
Qed.

(** [create_module_tree] always returns, with the grown tree; the list of
    modules is [None] exactly when the root returned at once. *)
Lemma create_module_tree_eq (o : Options) :
  create_module_tree o
  = Some {| options := o;
            start_module := module_tree o;
            modules :=
              match o_depth o, o_rules o !! ROOT_AXIOM with
              | S _, Some _ => Some (descendants (module_tree o))
              | _, _ => None
              end |}.
Proof.
  unfold create_module_tree, module_tree.
  destruct (expand_recurse_grow o (S (o_depth o)) (o_depth o)
              (Module_init ROOT_AXIOM None 0 0 0%Z (o_dynamic_imports o))
              ROOT_AXIOM []) as (r & Hr & Hres);
    [reflexivity | lia | reflexivity |].
  rewrite Hr, Hres. reflexivity.
Qed.

(** Enough fuel: [expand_recurse] returns from any fresh module that is
    not below the maximum depth. *)
Lemma expand_recurse_fuel (o : Options) (fuel : nat) (self : Module)
    (symbol : string) (acc : list Module) :
  depth self <= o_depth o -> o_depth o - depth self < fuel ->
  children self = [] ->
  expand_recurse fuel o self symbol acc <> None.
Proof.
  intros Hd Hf Hc.
  destruct (expand_recurse_grow o fuel (o_depth o - depth self) self symbol acc)
    as (r & Hr & _); [lia | lia | exact Hc |].
  rewrite Hr. discriminate.
Qed.

(** ** Properties of every module of a tree *)

Lemma children_made_each (o : Options) (p : Module) cs :
  forall k, children_made o p cs k ->
  forall c, In c cs -> exists j, k <= j /\ made_by o p j c.
Proof.
  induction cs as [|c0 cs IH]; intros k H c Hin; [destruct Hin|].
  destruct H as [H0 H]. destruct Hin as [<-|Hin].
  - exists k. split; [lia | exact H0].
  - destruct (IH (S k) H c Hin) as (j & Hj & Hm).
    exists j. split; [lia | exact Hm].
Qed.


Lemma descendants_made (o : Options) (Q : Module -> Prop) :
  (forall p i c, sub_ok p -> made_by o p i c -> Q c) ->
  forall m, tree_made o m -> sub_ok m -> Forall Q (descendants m).
Proof.
  intros HQ m. induction m as [m IH] using Module_tree_ind.
  intros Hm Hp. rewrite descendants_eq.
  apply tree_made_eq in Hm as [Hmade Htrees].
  apply List.Forall_flat_map. rewrite List.Forall_forall in IH, Htrees.
  apply List.Forall_forall. intros c Hin.
  destruct (children_made_each o m _ 0 Hmade c Hin) as (j & _ & Hj).
  constructor.
  - now apply (HQ m j).
  - apply IH; [exact Hin | now apply Htrees |].
    now destruct (made_by_facts o m j c Hp Hj) as (_ & _ & _ & _ & _ & ? & _).
Qed.

Lemma subtree_all (o : Options) (Q : Module -> Prop) :
  (forall m, tree_made o m -> sub_ok m -> Q m) ->
  forall m, tree_made o m -> sub_ok m -> Forall Q (m :: descendants m).
Proof.
  intros HQ m. induction m as [m IH] using Module_tree_ind.
  intros Hm Hp. constructor; [now apply HQ|].
  rewrite descendants_eq.
  destruct (proj1 (tree_made_eq o m) Hm) as [Hmade Htrees].
  apply List.Forall_flat_map. rewrite List.Forall_forall in IH, Htrees.
  apply List.Forall_forall. intros c Hin.
  destruct (children_made_each o m _ 0 Hmade c Hin) as (j & _ & Hj).
  apply IH; [exact Hin | now apply Htrees |].
  now destruct (made_by_facts o m j c Hp Hj) as (_ & _ & _ & _ & _ & ? & _).
Qed.

(** ** The helper is inert *)

Lemma helper_body_inert (numbers : list Z) (a : Z) :
  fold_left exec (helper_body numbers) a = a.
Proof.
  revert a. induction numbers as [|n numbers IH]; intros a; simpl;
    [reflexivity|].
  rewrite <- (IH a) at 2. f_equal. lia.
Qed.

Lemma call_helper_inert (numbers : list Z) : call_helper numbers = 101%Z.
Proof. unfold call_helper. now rewrite helper_body_inert. Qed.

Lemma randint_range (lo hi : Z) (g : RandomState) :
  (lo <= hi)%Z -> (lo <= fst (randint lo hi g) <= hi)%Z.
Proof.
  intros H. unfold randint. simpl.
  pose proof (Z.mod_pos_bound (g 0%nat) (hi - lo + 1)). lia.
Qed.

Lemma draw_numbers_length (n : nat) :
  forall g, length (fst (draw_numbers n g)) = n.
Proof.
  induction n as [|n IH]; intros g; simpl; [reflexivity|].
  specialize (IH (fun k => g (S k))).
  destruct (draw_numbers n (fun k => g (S k))). simpl in *. now rewrite IH.
Qed.

Lemma draw_numbers_range (n : nat) :
  forall g,
    Forall (fun v => (min_range <= v <= max_range)%Z) (fst (draw_numbers n g)).
Proof.
  induction n as [|n IH]; intros g; simpl; [constructor|].
  specialize (IH (fun k => g (S k))).
  destruct (draw_numbers n (fun k => g (S k))). simpl in *.
  constructor; [|exact IH].
  apply (randint_range min_range max_range g). now vm_compute.
Qed.

(** While the helper runs, [a] stays an integer that a double holds
    exactly. *)
Lemma helper_values_exact (numbers : list Z) :
  Forall (fun v => (min_range <= v <= max_range)%Z) numbers ->
  Forall (fun v => (- 2 ^ 53 < v < 2 ^ 53)%Z) (values 1 (helper_body numbers)).
Proof.
  induction 1 as [|n numbers Hn _ IH]; simpl.
  - constructor; [lia | constructor].
  - replace (1 + n - n)%Z with 1%Z by lia.
    unfold min_range, max_range, random_digits in Hn. simpl in Hn.
    constructor; [lia|]. constructor; [lia | exact IH].
Qed.

(** ** The text written is the rendering of the program *)

Lemma export_writes_render (self : Module) (g : RandomState) :
  export_writes self g
  = (render (artifact_of self (fst (helper_draw self g))),
     snd (helper_draw self g)).
Proof.
  unfold export_writes, render, artifact_of, joined_operations, write_imports,
    write_static_imports, create_dynamic_imports, render_load, render_term.
  cbn [art_imports art_async art_name art_guard art_body art_helper].
  destruct (helper_draw self g) as [numbers g'].
  destruct (dynamic_import self), (Z.eqb (size self) 0);
    cbn [fst snd negb map app]; rewrite ?map_app, ?map_map;
    reflexivity.
Qed.

(** ** What an entry function returns *)

Lemma append_length (s1 s2 : string) :
  String.length (s1 +:+ s2) = String.length s1 + String.length s2.
Proof. induction s1 as [|c s1 IH]; simpl; [reflexivity | now rewrite IH]. Qed.

Lemma append_inj_r (t s1 s2 : string) : s1 +:+ t = s2 +:+ t -> s1 = s2.
Proof.
  revert s2. induction s1 as [|a s1 IH]; intros [|b s2] E; simpl in E.
  - reflexivity.
  - apply (f_equal String.length) in E. simpl in E.
    rewrite append_length in E. lia.
  - apply (f_equal String.length) in E. simpl in E.
    rewrite append_length in E. lia.
  - injection E as -> E. f_equal. now apply IH.
Qed.










Section Entry.
Variables (m : Module) (evaluate_all : bool) (numbers : list Z).
Variable vals : Module -> Z.
Hypothesis Hnames : List.NoDup (map name (children m)).



End Entry.








(** ** The order of the keys *)

Lemma string_compare_refl (s : string) : String.compare s s = Eq.
Proof. now apply OrderedTypeEx.String_as_OT.cmp_eq. Qed.

Lemma string_compare_lt_trans (a b c : string) :
  String.compare a b = Lt -> String.compare b c = Lt ->
  String.compare a c = Lt.
Proof.
  intros H1 H2.
  apply OrderedTypeEx.String_as_OT.cmp_lt in H1, H2.
  apply OrderedTypeEx.String_as_OT.cmp_lt.
  exact (OrderedTypeEx.String_as_OT.lt_trans _ _ _ H1 H2).
Qed.

Lemma tuple_compare_refl (t : list string) : tuple_compare t t = Eq.
Proof.
  induction t as [|a t IH]; simpl; [reflexivity|].
  now rewrite string_compare_refl.
Qed.

Lemma tuple_compare_eq (t1 t2 : list string) :
  tuple_compare t1 t2 = Eq -> t1 = t2.
Proof.
  revert t2. induction t1 as [|a t1 IH]; intros [|b t2]; simpl;
    try discriminate; [reflexivity|].
  destruct (String.compare a b) eqn:E; try discriminate.
  intros H. apply String.compare_eq_iff in E. subst b. f_equal. now apply IH.
Qed.

Lemma tuple_compare_antisym (t1 t2 : list string) :
  tuple_compare t2 t1 = CompOpp (tuple_compare t1 t2).
Proof.
  revert t2. induction t1 as [|a t1 IH]; intros [|b t2]; simpl;
    try reflexivity.
  rewrite (String.compare_antisym b a).
  destruct (String.compare a b); simpl; [apply IH | reflexivity | reflexivity].
Qed.

Lemma tuple_compare_lt_trans (t1 t2 t3 : list string) :
  tuple_compare t1 t2 = Lt -> tuple_compare t2 t3 = Lt ->
  tuple_compare t1 t3 = Lt.
Proof.
  revert t2 t3.
  induction t1 as [|a t1 IH]; intros [|b t2] [|c t3]; simpl;
    try discriminate; try reflexivity.
  destruct (String.compare a b) eqn:Eab; try discriminate;
    destruct (String.compare b c) eqn:Ebc; try discriminate; intros H1 H2.
  - apply String.compare_eq_iff in Eab, Ebc. subst.
    rewrite string_compare_refl. now apply (IH t2).
  - apply String.compare_eq_iff in Eab. subst. now rewrite Ebc.
  - apply String.compare_eq_iff in Ebc. subst. now rewrite Eab.
  - now rewrite (string_compare_lt_trans a b c Eab Ebc).
Qed.

Lemma key_compare_refl (k : nat * list string) : key_compare k k = Eq.
Proof.
  unfold key_compare. now rewrite Nat.compare_refl, tuple_compare_refl.
Qed.

Lemma key_compare_eq (k1 k2 : nat * list string) :
  key_compare k1 k2 = Eq -> k1 = k2.
Proof.
  destruct k1 as [n1 t1], k2 as [n2 t2]. unfold key_compare. simpl.
  destruct (Nat.compare n1 n2) eqn:E; try discriminate.
  intros H. apply Nat.compare_eq in E. apply tuple_compare_eq in H.
  now subst.
Qed.

Lemma key_compare_antisym (k1 k2 : nat * list string) :
  key_compare k2 k1 = CompOpp (key_compare k1 k2).
Proof.
  unfold key_compare. rewrite (Nat.compare_antisym (fst k1) (fst k2)).
  destruct (Nat.compare (fst k1) (fst k2)); simpl;
    [apply tuple_compare_antisym | reflexivity | reflexivity].
Qed.

Lemma key_compare_lt_trans (k1 k2 k3 : nat * list string) :
  key_compare k1 k2 = Lt -> key_compare k2 k3 = Lt -> key_compare k1 k3 = Lt.
Proof.
  unfold key_compare.
  destruct (Nat.compare (fst k1) (fst k2)) eqn:E12; try discriminate;
    destruct (Nat.compare (fst k2) (fst k3)) eqn:E23; try discriminate;
    intros H1 H2.
  - apply Nat.compare_eq in E12, E23. rewrite E12, E23, Nat.compare_refl.
    now apply (tuple_compare_lt_trans _ (snd k2)).
  - apply Nat.compare_eq in E12. now rewrite E12, E23.
  - apply Nat.compare_eq in E23. now rewrite <- E23, E12.
  - apply Nat.compare_lt_iff in E12, E23.
    assert (E : Nat.compare (fst k1) (fst k3) = Lt)
      by (apply Nat.compare_lt_iff; lia).
    now rewrite E.
Qed.

Lemma key_le_compare (m1 m2 : Module) :
  key_le m1 m2 <-> key_compare (sort_key m1) (sort_key m2) <> Gt.
Proof.
  unfold key_le, key_ltb.
  rewrite (key_compare_antisym (sort_key m1) (sort_key m2)).
  destruct (key_compare (sort_key m1) (sort_key m2)); simpl;
    split; congruence.
Qed.

Lemma key_le_trans (m1 m2 m3 : Module) :
  key_le m1 m2 -> key_le m2 m3 -> key_le m1 m3.
Proof.
  rewrite !key_le_compare. intros H1 H2.
  destruct (key_compare (sort_key m1) (sort_key m2)) eqn:E12; [| |congruence];
    destruct (key_compare (sort_key m2) (sort_key m3)) eqn:E23;
    try congruence.
  - apply key_compare_eq in E12, E23. rewrite E12, E23, key_compare_refl.
    discriminate.
  - apply key_compare_eq in E12. rewrite E12, E23. discriminate.
  - apply key_compare_eq in E23. rewrite <- E23, E12. discriminate.
  - rewrite (key_compare_lt_trans _ _ _ E12 E23). discriminate.
Qed.

Lemma key_ltb_le (m1 m2 : Module) :
  key_ltb (sort_key m1) (sort_key m2) = true -> key_le m1 m2.
Proof.
  unfold key_le, key_ltb.
  rewrite (key_compare_antisym (sort_key m1) (sort_key m2)).
  destruct (key_compare (sort_key m1) (sort_key m2)); simpl; congruence.
Qed.

(** What [key_le] says about the paths. *)
Lemma key_le_parts (m1 m2 : Module) :
  key_le m1 m2 ->
  length (path_parts (path m1)) <= length (path_parts (path m2))
  /\ (length (path_parts (path m1)) = length (path_parts (path m2)) ->
      tuple_compare (path_parts (path m1)) (path_parts (path m2)) <> Gt).
Proof.
  rewrite key_le_compare. unfold key_compare, sort_key. cbn [fst snd].
  destruct (Nat.compare (length (path_parts (path m1)))
              (length (path_parts (path m2)))) eqn:E; intros H.
  - apply Nat.compare_eq in E. split; [lia | intros _; exact H].
  - apply Nat.compare_lt_iff in E. split; lia.
  - congruence.
Qed.

(** ** The sort *)

Lemma insert_module_perm (m : Module) (l : list Module) :
  Permutation (m :: l) (insert_module m l).
Proof.
  induction l as [|m' l IH]; simpl; [reflexivity|].
  destruct (key_ltb (sort_key m') (sort_key m)); [|reflexivity].
  rewrite perm_swap. now constructor.
Qed.

Lemma sort_modules_perm (ms : list Module) :
  Permutation ms (sort_modules ms).
Proof.
  induction ms as [|m ms IH]; simpl; [constructor|].
  rewrite <- insert_module_perm. now constructor.
Qed.

Lemma insert_module_sorted (m : Module) (l : list Module) :
  StronglySorted key_le l -> StronglySorted key_le (insert_module m l).
Proof.
  induction 1 as [|m' l Hl IH Hall]; simpl.
  - constructor; constructor.
  - destruct (key_ltb (sort_key m') (sort_key m)) eqn:E.
    + constructor; [exact IH|].
      apply (Permutation_Forall (insert_module_perm m l)).
      constructor; [now apply key_ltb_le | exact Hall].
    + constructor; [now constructor|].
      constructor; [exact E|].
      eapply List.Forall_impl; [|exact Hall].
      intros x Hx. exact (key_le_trans m m' x E Hx).
Qed.

Lemma sort_modules_sorted (ms : list Module) :
  StronglySorted key_le (sort_modules ms).
Proof.
  induction ms as [|m ms IH]; simpl; [constructor|].
  now apply insert_module_sorted.
Qed.

Lemma strongly_sorted_nth {A : Type} (R : A -> A -> Prop) (l : list A) :
  StronglySorted R l ->
  forall i j a b,
    i < j -> nth_error l i = Some a -> nth_error l j = Some b -> R a b.
Proof.
  induction 1 as [|x l Hl IH Hall]; intros i j a b Hij Hi Hj.
  - destruct i; discriminate.
  - destruct j as [|j]; [lia|]. destruct i as [|i]; simpl in Hi, Hj.
    + injection Hi as <-. rewrite List.Forall_forall in Hall.
      apply Hall. now apply nth_error_In with j.
    + apply (IH i j); [lia | exact Hi | exact Hj].
Qed.

(** * The claims *)

(** C1: with the rules A -> AB and B -> BBB, maximum depth 2 and no sizes,
    the root gets the two children A0 and B1 at depth 1; A0 gets two
    children and B1 three, at depth 2; the accumulator holds the seven
    modules below the root in the order they were created. *)
Theorem scenario_expansion (dyn : bool) :
  exists b acc,
    create_module_tree (scenario_options 2 dyn) = Some b
    /\ modules b = Some acc
    /\ map (fun c => (simple_name c, depth c)) (children (start_module b))
       = [("A0", 1); ("B1", 1)]
    /\ map (fun c => map (fun c' => (simple_name c', depth c')) (children c))
         (children (start_module b))
       = [[("A0", 2); ("B1", 2)]; [("B0", 2); ("B1", 2); ("B2", 2)]]
    /\ length acc = 7
    /\ acc = descendants (start_module b)
    /\ map name acc
       = ["A_A0"; "A_A0_A0"; "A_A0_B1"; "A_B1"; "A_B1_B0"; "A_B1_B1";
          "A_B1_B2"].
Proof.
  destruct dyn.
  - eexists. eexists. split; [vm_compute; reflexivity|].
    split; [reflexivity|]. repeat split.
  - eexists. eexists. split; [vm_compute; reflexivity|].
    split; [reflexivity|]. repeat split.
Qed.

(** ** The helper and its filler *)

Lemma emitted_helper_sized (self : Module) (g : RandomState) :
  size self <> 0%Z ->
  emitted_helper self g = Some (fst (draw_numbers (filler_count self) g)).
Proof.
  intros H. unfold emitted_helper, artifact_of, helper_draw.
  cbn [art_helper]. apply Z.eqb_neq in H. now rewrite H.
Qed.

Lemma emitted_helper_none (self : Module) (g : RandomState) :
  size self = 0%Z -> emitted_helper self g = None.
Proof.
  intros H. unfold emitted_helper, artifact_of. cbn [art_helper].
  now rewrite H.
Qed.

(** C7: for a module with a positive size the helper is emitted, and
    whatever literals the generator yields, calling it returns 101: the
    statements a+=n;a-=n leave [a] at 1 (and every value of [a] on the way
    is an integer that a double holds exactly). *)
Theorem helper_result_fixed (self : Module) (g1 g2 : RandomState) :
  (0 < size self)%Z ->
  exists numbers1 numbers2,
    emitted_helper self g1 = Some numbers1
    /\ emitted_helper self g2 = Some numbers2
    /\ call_helper numbers1 = call_helper numbers2
    /\ call_helper numbers1 = 101%Z
    /\ fold_left exec (helper_body numbers1) 1%Z = 1%Z
    /\ Forall (fun v => (- 2 ^ 53 < v < 2 ^ 53)%Z)
         (values 1 (helper_body numbers1)).
Proof.
  intros Hsize.
  exists (fst (draw_numbers (filler_count self) g1)),
         (fst (draw_numbers (filler_count self) g2)).
  rewrite !emitted_helper_sized by lia. rewrite !call_helper_inert.
  repeat split.
  - apply helper_body_inert.
  - apply helper_values_exact, draw_numbers_range.
Qed.

Lemma helper_result_fixed_witness :
  (0 < size (Module_init "A0" None 1 0 100%Z false))%Z
  /\ exists numbers1 numbers2,
       emitted_helper (Module_init "A0" None 1 0 100%Z false) sample_random
       = Some numbers1
       /\ emitted_helper (Module_init "A0" None 1 0 100%Z false)
            (fun _ => 0%Z) = Some numbers2
       /\ call_helper numbers1 = call_helper numbers2
       /\ call_helper numbers1 = 101%Z
       /\ fold_left exec (helper_body numbers1) 1%Z = 1%Z
       /\ Forall (fun v => (- 2 ^ 53 < v < 2 ^ 53)%Z)
            (values 1 (helper_body numbers1)).
Proof.
  split; [reflexivity|].
  apply (helper_result_fixed (Module_init "A0" None 1 0 100%Z false)).
  reflexivity.
Defined.




(** ** The root *)

Lemma module_tree_root_fields (o : Options) :
  same_node (module_tree o)
    (Module_init ROOT_AXIOM None 0 0 0%Z (o_dynamic_imports o)).
Proof. apply grow_same_node. Qed.

Lemma module_tree_size (o : Options) : size (module_tree o) = 0%Z.
Proof.
  now destruct (same_node_fields _ _ (module_tree_root_fields o))
    as (_ & _ & _ & _ & _ & _ & ? & _).
Qed.

Lemma module_tree_path (o : Options) :
  path_str (path (module_tree o)) = "A.mjs".
Proof.
  destruct (same_node_fields _ _ (module_tree_root_fields o))
    as (_ & _ & Hpath & _).
  now rewrite Hpath.
Qed.

Lemma module_tree_depth0 (o : Options) :
  o_depth o = 0 ->
  module_tree o = Module_init ROOT_AXIOM None 0 0 0%Z (o_dynamic_imports o).
Proof. intros H. unfold module_tree. now rewrite H. Qed.

(** C5, as stated, fails: with the size table A -> 2048 and maximum depth 0
    the root artifact is exported without a helper. *)
Lemma root_helper_counterexample :
  ~ (exists b numbers,
       create_module_tree (sized_options 2048 0 false) = Some b
       /\ emitted_helper (start_module b) sample_random = Some numbers).
Proof.
  intros (b & numbers & Hb & Hn).
  vm_compute in Hb. injection Hb as <-. vm_compute in Hn. discriminate.
Qed.

(** C5, amended: the root is built with size 0 whatever the size table
    holds, so its artifact has no helper (with maximum depth 0 its text is
    the bare entry function); the size 2048 of the table goes to the
    modules of symbol A below the root, whose helper holds
    floor((2048 - 2 L) / 29) filler pairs, or none when that is negative. *)
Theorem root_without_helper (o : Options) (g : RandomState) :
  o_sizes o !! "A" = Some 2048%Z ->
  size (module_tree o) = 0%Z
  /\ emitted_helper (module_tree o) g = None
  /\ (o_depth o = 0 ->
      export_text (module_tree o) g = root_only_text (o_dynamic_imports o))
  /\ Forall
       (fun c =>
          (exists i, simple_name c = "A" +:+ str_nat i) ->
          size c = 2048%Z
          /\ exists numbers,
               emitted_helper c g = Some numbers
               /\ length numbers
                  = Z.to_nat
                      ((2048
                        - Z.of_nat (String.length (joined_operations c)) * 2)
                         / 29))
       (descendants (module_tree o)).
Proof.
  intros Hsize. split; [apply module_tree_size|].
  split; [apply emitted_helper_none, module_tree_size|]. split.
  - intros Hd. rewrite (module_tree_depth0 o Hd).
    destruct (o_dynamic_imports o); reflexivity.
  - apply (descendants_made o);
      [|apply module_tree_made | apply module_tree_sub_ok].
    intros p i c Hp Hmade (i' & Hname).
    destruct (made_by_facts o p i c Hp Hmade)
      as (a & _ & Hsn & _ & _ & _ & _ & _ & Hsz & _).
    rewrite Hsn in Hname. injection Hname as -> _.
    rewrite Hsize in Hsz. simpl in Hsz.
    split; [exact Hsz|].
    exists (fst (draw_numbers (filler_count c) g)).
    split; [apply emitted_helper_sized; lia|].
    rewrite draw_numbers_length. unfold filler_count, filler_bound.
    now rewrite Hsz.
Qed.

Lemma root_without_helper_witness :
  o_sizes (sized_options 2048 1 false) !! "A" = Some 2048%Z
  /\ emitted_helper (module_tree (sized_options 2048 1 false)) sample_random
     = None
  /\ Forall
       (fun c =>
          (exists i, simple_name c = "A" +:+ str_nat i) ->
          size c = 2048%Z
          /\ exists numbers,
               emitted_helper c sample_random = Some numbers
               /\ length numbers
                  = Z.to_nat
                      ((2048
                        - Z.of_nat (String.length (joined_operations c)) * 2)
                         / 29))
       (descendants (module_tree (sized_options 2048 1 false))).
Proof.
  split; [reflexivity|].
  destruct (root_without_helper (sized_options 2048 1 false) sample_random
              eq_refl) as (_ & H1 & _ & H2).
  split; [exact H1 | exact H2].
Defined.

(** The module of that scenario below the root: size 2048, and 70 filler
    pairs, 2030 bytes at 29 bytes a pair. *)
Example sized_child_filler :
  map (fun c => (name c, size c, option_map (@length Z)
                                   (emitted_helper c sample_random)))
    (descendants (module_tree (sized_options 2048 1 false)))
  = [("A_A0", 2048%Z, Some 70)].
Proof. vm_compute. reflexivity. Qed.

(** ** The run at maximum depth 0 *)



(** ** File paths *)

(** C4 fails on the code when the path separator is a grammar symbol: with
    the rules A -> /A and / -> A and maximum depth 3, the module made for
    A under /0 under the root and the module made for A under /0 under A1
    under the root get the same name and the same file path. *)
Theorem file_path_collision :
  exists b ms m1 m2,
    create_module_tree slash_options = Some b
    /\ modules b = Some ms
    /\ nth_error ms 1 = Some m1
    /\ nth_error ms 6 = Some m2
    /\ depth m1 = 2 /\ depth m2 = 3
    /\ name m1 = "_0_A0" /\ name m2 = "_0_A0"
    /\ path m1 = path m2
    /\ path_str (path m1) = "/0/_0_A0.mjs".
Proof.
  eexists. eexists. eexists. eexists.
  split; [vm_compute; reflexivity|].
  split; [reflexivity|].
  split; [reflexivity|].
  split; [reflexivity|].
  repeat split.
Qed.

(** ** The sorted list of modules *)




(** The sorted list of the first scenario. *)
Example scenario_sorted_paths :
  option_map (map (fun m => path_str (path m)))
    (modules
       (snd (fst (export_modules (scenario_benchmark 2 false) (Path_of "out")
                    (fresh_world sample_random)))))
  = Some ["A/A_A0.mjs"; "A/A_B1.mjs"; "A/A0/A_A0_A0.mjs"; "A/A0/A_A0_B1.mjs";
          "A/B1/A_B1_B0.mjs"; "A/B1/A_B1_B1.mjs"; "A/B1/A_B1_B2.mjs"].
Proof. vm_compute. reflexivity. Qed.

(** ** The totals of the entry functions *)






(** ** Files of the world *)

Lemma find_filter_none {A : Type} (f g : A -> bool) (l : list A) :
  (forall x, f x = true -> g x = false) ->
  List.find f (List.filter g l) = None.
Proof.
  intros H. induction l as [|a l IH]; simpl; [reflexivity|].
  destruct (g a) eqn:Eg; [|exact IH]. simpl.
  destruct (f a) eqn:Ef; [|exact IH]. rewrite (H a Ef) in Eg. discriminate.
Qed.

Lemma find_filter_same {A : Type} (f g : A -> bool) (l : list A) :
  (forall x, f x = true -> g x = true) ->
  List.find f (List.filter g l) = List.find f l.
Proof.
  intros H. induction l as [|a l IH]; simpl; [reflexivity|].
  destruct (g a) eqn:Eg; simpl.
  - now rewrite IH.
  - destruct (f a) eqn:Ef; [|exact IH]. rewrite (H a Ef) in Eg. discriminate.
Qed.

Lemma find_app_none {A : Type} (f : A -> bool) (l1 l2 : list A) :
  List.find f l1 = None -> List.find f (l1 ++ l2) = List.find f l2.
Proof.
  induction l1 as [|a l1 IH]; simpl; [reflexivity|].
  destruct (f a); [discriminate | exact IH].
Qed.

Lemma find_app_some {A : Type} (f : A -> bool) (l1 l2 : list A) (x : A) :
  List.find f l1 = Some x -> List.find f (l1 ++ l2) = Some x.
Proof.
  induction l1 as [|a l1 IH]; simpl; [discriminate|].
  destruct (f a); [trivial | exact IH].
Qed.

Lemma read_write_same (p : Path) (c : Content) (w : World) :
  read_file (write_file p c w) p = Some c.
Proof.
  unfold read_file, write_file. cbn [files].
  rewrite find_app_none.
  - simpl. now rewrite bool_decide_eq_true_2.
  - apply find_filter_none. intros x Hx. now rewrite Hx.
Qed.

Lemma read_write_other (p q : Path) (c : Content) (w : World) :
  p <> q -> read_file (write_file p c w) q = read_file w q.
Proof.
  intros Hpq. unfold read_file, write_file. cbn [files].
  assert (Hsame :
    List.find (fun f => bool_decide (fst f = q))
      (List.filter (fun f => negb (bool_decide (fst f = p))) (files w))
    = List.find (fun f => bool_decide (fst f = q)) (files w)).
  { apply find_filter_same. intros x Hx.
    apply bool_decide_eq_true_1 in Hx.
    rewrite bool_decide_eq_false_2; [reflexivity | congruence]. }
  destruct (List.find (fun f => bool_decide (fst f = q)) (files w))
    as [x|] eqn:E.
  - now rewrite (find_app_some _ _ _ x Hsame).
  - rewrite find_app_none by exact Hsame. simpl.
    now rewrite bool_decide_eq_false_2.
Qed.

(** ** The comparison pages *)

Lemma page_path_inj (out : Path) (n1 n2 : string) :
  page_path out n1 = page_path out n2 -> n1 = n2.
Proof.
  unfold page_path. intros E. injection E as E.
  now apply app_inj_tail in E as [_ E].
Qed.

Lemma strip_prefix_app (l r : list string) : strip_prefix l (l ++ r) = Some r.
Proof.
  induction l as [|a l IH]; simpl; [now destruct r|].
  now rewrite String.eqb_refl.
Qed.

Lemma page_item (out : Path) (file_name : string) :
  relative_to (page_path out file_name) out
  = Some {| anchored := false; comps := [file_name] |}
  /\ path_name (page_path out file_name) = file_name.
Proof.
  unfold relative_to, path_name, path_parts, page_path. cbn [anchored comps].
  rewrite app_assoc, strip_prefix_app. split; [reflexivity|].
  apply last_last.
Qed.

Lemma benchmark_items_pages (out : Path) (names : list string) :
  benchmark_items out (map (page_path out) names)
  = Some (map index_item names).
Proof.
  induction names as [|n names IH]; simpl; [reflexivity|].
  destruct (page_item out n) as [Hrel Hname].
  now rewrite Hrel, Hname, IH.
Qed.

Ltac read_pages :=
  repeat first
    [ rewrite read_write_same
    | rewrite read_write_other
        by (let E := fresh in
            intros E; apply page_path_inj in E; discriminate) ].

Ltac other_file H :=
  repeat (rewrite read_write_other
            by (let E := fresh in
                intros E; symmetry in E; revert E; apply H; simpl; tauto)).

(** What [export_html] writes, given the list of modules: the pages of
    [page_names], the index that lists them, and nothing else. *)
Lemma export_html_pages (b : Benchmark) (ms : list Module) (out : Path)
    (w : World) :
  modules b = Some ms ->
  let dyn := o_dynamic_imports (options b) in
  exists w',
    export_html b out w = (None, map (page_path out) (page_names dyn), w')
    /\ Forall
         (fun n =>
            exists headers scripts module,
              read_file w' (page_path out n)
              = Some (BenchmarkPage headers (output_info (options b) ms)
                        scripts module))
         (page_names dyn)
    /\ read_file w' (page_path out "index.html")
       = Some (IndexPage (output_info (options b) ms)
                 (String.concat nl (map index_item (page_names dyn))))
    /\ forall q,
         (forall n, In n (page_names dyn ++ ["index.html"]) ->
                    q <> page_path out n) ->
         read_file w' q = read_file w q.
Proof.
  intros Hms dyn. unfold export_html. rewrite Hms.
  unfold export_benchmark, export_bundled, export_bundled_wbn, export_index,
    output_benchmark_list.
  change (path_join out "unbundled.html")
    with (page_path out "unbundled.html").
  change (path_join out "modulepreload.html")
    with (page_path out "modulepreload.html").
  change (path_join out "script-preload.html")
    with (page_path out "script-preload.html").
  change (path_join out "rollup.html") with (page_path out "rollup.html").
  change (path_join out "webbundle.html")
    with (page_path out "webbundle.html").
  change (path_join out "index.html") with (page_path out "index.html").
  subst dyn. destruct (o_dynamic_imports (options b)).
  - pose proof (benchmark_items_pages out (page_names true)) as Hitems.
    cbn [page_names app map] in Hitems. rewrite Hitems. cbn [option_map].
    eexists. split; [reflexivity|]. cbn [page_names app map].
    split; [|split].
    + repeat constructor; do 3 eexists; read_pages; reflexivity.
    + read_pages. reflexivity.
    + intros q Hq. other_file Hq. reflexivity.
  - pose proof (benchmark_items_pages out (page_names false)) as Hitems.
    cbn [page_names app map] in Hitems. rewrite Hitems. cbn [option_map].
    eexists. split; [reflexivity|]. cbn [page_names app map].
    split; [|split].
    + repeat constructor; do 3 eexists; read_pages; reflexivity.
    + read_pages. reflexivity.
    + intros q Hq. other_file Hq. reflexivity.
Qed.

(** C8: once the modules are exported (and, with static imports, the
    bundles are built), [export] writes the comparison pages of the loading
    mode and the index that lists them, and no other page.  With dynamic
    imports these are the unbundled, the modulepreload and the
    script-preload page: no tool is run and the files of the bundled and
    the packaged page are left as they were.  With static imports the
    bundled (rollup) and the packaged (webbundle) page come in addition. *)
Theorem export_pages (tools : Tools) (b : Benchmark) (out : Path) (w : World)
    (b1 : Benchmark) (w1 : World) :
  export_modules b out (mkdir_exist_ok out w) = (None, b1, w1) ->
  let dyn := o_dynamic_imports (options b) in
  (dyn = false -> fst (build_bundles tools out w1) = None) ->
  let w2 := if dyn then w1 else snd (build_bundles tools out w1) in
  exists w',
    export tools b out w = (None, b1, w')
    /\ page_names dyn
       = (if dyn
          then ["unbundled.html"; "modulepreload.html"; "script-preload.html"]
          else ["unbundled.html"; "modulepreload.html"; "script-preload.html";
                "rollup.html"; "webbundle.html"])
    /\ Forall
         (fun n =>
            exists headers info scripts module,
              read_file w' (page_path out n)
              = Some (BenchmarkPage headers info scripts module))
         (page_names dyn)
    /\ (exists info,
          read_file w' (page_path out "index.html")
          = Some (IndexPage info
                    (String.concat nl (map index_item (page_names dyn)))))
    /\ (forall q,
          (forall n, In n (page_names dyn ++ ["index.html"]) ->
                     q <> page_path out n) ->
          read_file w' q = read_file w2 q)
    /\ (dyn = true ->
        read_file w' (page_path out "rollup.html")
        = read_file w1 (page_path out "rollup.html")
        /\ read_file w' (page_path out "webbundle.html")
           = read_file w1 (page_path out "webbundle.html")).
Proof.
  intros Hmods dyn Htools w2.
  assert (Hb1 : exists l, modules b1 = Some l /\ options b1 = options b).
  { unfold export_modules in Hmods.
    destruct (Module_export (start_module b) out (mkdir_exist_ok out w))
      as [[e|] w0]; [discriminate|].
    destruct (modules b) as [ms|]; [|discriminate].
    injection Hmods as <- _. now exists (sort_modules ms). }
  destruct Hb1 as (l & Hl & Hopt).
  destruct (export_html_pages b1 l out w2 Hl) as (w' & Hhtml & Hp & Hi & Hf).
  rewrite Hopt in Hhtml, Hp, Hi, Hf. fold dyn in Hhtml, Hp, Hi, Hf.
  exists w'. split; [|split; [|split; [|split; [|split]]]].
  - unfold export. rewrite Hmods, Hopt. fold dyn. subst w2.
    destruct dyn.
    + now rewrite Hhtml.
    + specialize (Htools eq_refl).
      destruct (build_bundles tools out w1) as [e wb]. simpl in Htools.
      subst e. cbn [snd] in Hhtml. now rewrite Hhtml.
  - now destruct dyn.
  - eapply List.Forall_impl; [|exact Hp].
    intros n (h & s & md & Hn). now exists h, (output_info (options b) l), s, md.
  - now exists (output_info (options b) l).
  - exact Hf.
  - intros Hdyn. subst w2. rewrite Hdyn in *.
    split; apply Hf; intros n Hn E; apply page_path_inj in E;
      simpl in Hn; intuition (subst; discriminate).
Qed.

Lemma export_pages_witness :
  let b := scenario_benchmark 2 true in
  let out := Path_of "out" in
  let w := fresh_world sample_random in
  let r := export_modules b out (mkdir_exist_ok out w) in
  r = (None, snd (fst r), snd r)
  /\ (o_dynamic_imports (options b) = false ->
      fst (build_bundles (fun _ => true) out (snd r)) = None)
  /\ exists w',
       export (fun _ => true) b out w = (None, snd (fst r), w')
       /\ Forall
            (fun n =>
               exists headers info scripts module,
                 read_file w' (page_path out n)
                 = Some (BenchmarkPage headers info scripts module))
            ["unbundled.html"; "modulepreload.html"; "script-preload.html"]
       /\ read_file w' (page_path out "rollup.html") = None
       /\ read_file w' (page_path out "webbundle.html") = None.
Proof.
  cbv zeta.
  assert (Hr :
    export_modules (scenario_benchmark 2 true) (Path_of "out")
      (mkdir_exist_ok (Path_of "out") (fresh_world sample_random))
    = (None,
       snd (fst (export_modules (scenario_benchmark 2 true) (Path_of "out")
                   (mkdir_exist_ok (Path_of "out")
                      (fresh_world sample_random)))),
       snd (export_modules (scenario_benchmark 2 true) (Path_of "out")
              (mkdir_exist_ok (Path_of "out") (fresh_world sample_random)))))
    by (vm_compute; reflexivity).
  split; [exact Hr|]. split; [discriminate|].
  destruct (export_pages (fun _ => true) (scenario_benchmark 2 true)
              (Path_of "out") (fresh_world sample_random) _ _ Hr
              (fun H => False_ind _ (diff_true_false H)))
    as (w' & Hexp & _ & Hpages & _ & _ & Hnot).
  exists w'. split; [exact Hexp|]. split; [exact Hpages|].
  destruct (Hnot eq_refl) as [H1 H2]. rewrite H1, H2.
  split; vm_compute; reflexivity.
Defined.

(** The run of the first scenario with static imports and tools that
    succeed: the five pages and the index, after the modules and the
    bundles. *)
Example scenario_static_files :
  option_map
    (fun r => (fst r, map (fun f => path_str (fst f)) (files (snd r))))
    (main (fun _ => true) (scenario_options 2 false) "out"
       (fresh_world sample_random))
  = Some (None,
          ["out/A.mjs"; "out/A/A_A0.mjs"; "out/A/A0/A_A0_A0.mjs";
           "out/A/A0/A_A0_B1.mjs"; "out/A/A_B1.mjs"; "out/A/B1/A_B1_B0.mjs";
           "out/A/B1/A_B1_B1.mjs"; "out/A/B1/A_B1_B2.mjs"; "out/bundled.wbn";
           "out/bundled.mjs"; "out/unbundled.html"; "out/modulepreload.html";
           "out/script-preload.html"; "out/rollup.html"; "out/webbundle.html";
           "out/index.html"]).
Proof. vm_compute. reflexivity. Qed.

Example scenario_dynamic_files :
  option_map
    (fun r => (fst r, map (fun f => path_str (fst f)) (files (snd r))))
    (main (fun _ => true) (scenario_options 2 true) "out"
       (fresh_world sample_random))
  = Some (None,
          ["out/A.mjs"; "out/A/A_A0.mjs"; "out/A/A0/A_A0_A0.mjs";
           "out/A/A0/A_A0_B1.mjs"; "out/A/A_B1.mjs"; "out/A/B1/A_B1_B0.mjs";
           "out/A/B1/A_B1_B1.mjs"; "out/A/B1/A_B1_B2.mjs";
           "out/unbundled.html"; "out/modulepreload.html";
           "out/script-preload.html"; "out/index.html"]).
Proof. vm_compute. reflexivity. Qed.

(** ** The hints and the root *)

Lemma contains_path_str (p : Module) (c : Module) (o : Options) (i : nat) :
  sub_ok p -> made_by o p i c -> contains "/" (path_str (path c)) = true.
Proof.
  intros Hp Hmade.
  destruct (made_by_facts o p i c Hp Hmade) as (a & _ & _ & Hpath & _).
  rewrite Hpath, path_str_snoc by apply Hp.
  rewrite !contains_append. simpl. now rewrite orb_true_r.
Qed.

Lemma descendants_not_root (o : Options) :
  Forall (fun m => 1 <= depth m /\ path_str (path m) <> "A.mjs")
    (descendants (module_tree o)).
Proof.
  apply (descendants_made o);
    [|apply module_tree_made | apply module_tree_sub_ok].
  intros p i c Hp Hmade. split.
  - destruct (made_by_facts o p i c Hp Hmade)
      as (_ & _ & _ & _ & _ & _ & Hd & _). lia.
  - intros E. pose proof (contains_path_str p c o i Hp Hmade) as H.
    rewrite E in H. discriminate.
Qed.

Lemma firstn_member {A : Type} (n : nat) (l : list A) (x : A) :
  In x (firstn n l) -> In x l.
Proof.
  revert l. induction n as [|n IH]; intros [|a l]; simpl; try tauto.
  intros [->|H]; [now left | right; now apply IH].
Qed.

Lemma slice_to_In {A : Type} (l : list A) (count : Z) (x : A) :
  In x (slice_to l count) -> In x l.
Proof.
  unfold slice_to. destruct (0 <=? count)%Z; apply firstn_member.
Qed.

Lemma link_hint_inj (m1 m2 : Module) :
  link_hint m1 = link_hint m2 -> path_str (path m1) = path_str (path m2).
Proof.
  unfold link_hint. intros E. apply String.app_inj in E.
  apply String.app_inj in E. apply String.app_inj in E.
  apply String.app_inj in E. apply String.app_inj in E.
  apply String.app_inj in E. now apply append_inj_r in E.
Qed.

Lemma script_tag_inj (m1 m2 : Module) :
  script_tag m1 = script_tag m2 -> path_str (path m1) = path_str (path m2).
Proof.
  unfold script_tag. intros E. apply String.app_inj in E.
  apply String.app_inj in E. apply String.app_inj in E.
  apply String.app_inj in E. apply String.app_inj in E.
  apply String.app_inj in E. now apply append_inj_r in E.
Qed.

(** C10, as stated, fails in its last part: not every comparison page has
    ./A.mjs as its entry module; the page of the rollup bundle has
    ./bundled.mjs. *)
Lemma entry_module_counterexample :
  ~ (forall (b : Benchmark) (out : Path) (w : World) (q : Path)
            (headers : string) (info : Info) (scripts module : string),
       read_file (snd (export_html b out w)) q
       = Some (BenchmarkPage headers info scripts module) ->
       module = "./A.mjs").
Proof.
  intros H.
  assert (E : "./bundled.mjs" = "./A.mjs"); [|discriminate].
  eapply (H (scenario_benchmark 2 false) (Path_of "out")
            (fresh_world sample_random)
            (page_path (Path_of "out") "rollup.html")).
  reflexivity.
Qed.

(** C10, amended: the list of modules never holds the root.  Every module
    of the list is below the root and has a path other than A.mjs, so for
    every prefix count the lines of the modulepreload page and of the
    script-preload page are lines of modules below the root, and the line
    of the root artifact A.mjs is not among them.  The pages written by
    [export_benchmark] and the webbundle page have ./A.mjs as entry module;
    the rollup page has ./bundled.mjs. *)
Theorem hints_skip_root (o : Options) (count : Z) :
  let root := module_tree o in
  let sorted := sort_modules (descendants root) in
  create_module_tree o
  = Some {| options := o; start_module := root;
            modules := match o_depth o, o_rules o !! ROOT_AXIOM with
                       | S _, Some _ => Some (descendants root)
                       | _, _ => None
                       end |}
  /\ path_str (path root) = "A.mjs"
  /\ Forall (fun m => 1 <= depth m /\ path_str (path m) <> "A.mjs")
       (descendants root)
  /\ Forall (fun m => In m (descendants root)
                      /\ path_str (path m) <> "A.mjs")
       (slice_to sorted count)
  /\ output_headers sorted count
     = String.concat nl (map link_hint (slice_to sorted count))
  /\ output_scripts sorted count
     = String.concat nl (map script_tag (slice_to sorted count))
  /\ ~ In (link_hint root) (map link_hint (slice_to sorted count))
  /\ ~ In (script_tag root) (map script_tag (slice_to sorted count))
  /\ (forall ms out file_name prefetch preload w,
        exists headers info scripts,
          read_file
            (snd (export_benchmark o ms out file_name prefetch preload w))
            (path_join out file_name)
          = Some (BenchmarkPage headers info scripts "./A.mjs"))
  /\ (forall ms out w,
        (exists headers info scripts,
           read_file (snd (export_bundled_wbn o ms out w))
             (path_join out "webbundle.html")
           = Some (BenchmarkPage headers info scripts "./A.mjs"))
        /\ exists headers info scripts,
             read_file (snd (export_bundled o ms out w))
               (path_join out "rollup.html")
             = Some (BenchmarkPage headers info scripts "./bundled.mjs")).
Proof.
  intros root sorted.
  assert (Hslice : Forall (fun m => In m (descendants root)
                                    /\ path_str (path m) <> "A.mjs")
                     (slice_to sorted count)).
  { apply List.Forall_forall. intros m Hm. apply slice_to_In in Hm.
    apply (Permutation_in _ (Permutation_sym (sort_modules_perm _))) in Hm.
    split; [exact Hm|].
    pose proof (descendants_not_root o) as Hall.
    rewrite List.Forall_forall in Hall. now apply Hall. }
  split; [apply create_module_tree_eq|].
  split; [apply module_tree_path|].
  split; [apply descendants_not_root|].
  split; [exact Hslice|].
  split; [reflexivity|]. split; [reflexivity|].
  rewrite List.Forall_forall in Hslice.
  split; [|split; [|split]].
  - intros Hin. apply in_map_iff in Hin as (m & E & Hm).
    apply link_hint_inj in E. apply (proj2 (Hslice m Hm)).
    rewrite E. apply module_tree_path.
  - intros Hin. apply in_map_iff in Hin as (m & E & Hm).
    apply script_tag_inj in E. apply (proj2 (Hslice m Hm)).
    rewrite E. apply module_tree_path.
  - intros. do 3 eexists. unfold export_benchmark. cbn [snd].
    apply read_write_same.
  - intros. split; do 3 eexists;
      unfold export_bundled_wbn, export_bundled; cbn [snd];
      apply read_write_same.
Qed.

(** ** File paths when no symbol is the path separator *)

Lemma chars_contains (a : ascii) (e : string) :
  In (String a "") (chars e) -> contains a e = true.
Proof.
  induction e as [|c e IH]; simpl; [tauto|].
  intros [E|H].
  - injection E as ->. now rewrite Ascii.eqb_refl.
  - rewrite (IH H). apply orb_true_r.
Qed.

Lemma no_separator_symbol (o : Options) (a : ascii) :
  no_separator o -> in_rules o (String a "") -> Ascii.eqb a "/" = false.
Proof.
  intros Hno (predecessor & expansion & Hrule & Hin).
  apply Ascii.eqb_neq. intros ->.
  apply chars_contains in Hin. now rewrite (Hno _ _ Hrule) in Hin.
Qed.

(** The name and the paths of a module made under a plain parent. *)
Lemma made_plain (o : Options) (p : Module) (i : nat) (c : Module) :
  no_separator o -> plain_ok p -> made_by o p i c ->
  name c = name p +:+ "_" +:+ simple_name c
  /\ simple_name c <> ""
  /\ comps (submodule_path c) = comps (submodule_path p) ++ [simple_name c]
  /\ comps (path c) = comps (submodule_path p) ++ [name c +:+ ".mjs"]
  /\ path c = path_join (submodule_path p) (name c +:+ ".mjs")
  /\ plain_ok c.
Proof.
  intros Hno [Hp Hname] Hmade.
  destruct (made_by_facts o p i c Hp Hmade)
    as (a & Hn & Hsn & Hpath & Hclean & Hsub & _ & _ & _ & _ & Hrule).
  pose proof (no_separator_symbol o a Hno Hrule) as Ha.
  rewrite Ha, Hname in Hn.
  destruct Hmade as (symbol & _ & Hsame).
  destruct (same_node_fields _ _ Hsame) as (Hsn' & _ & _ & Hsub' & _).
  assert (Hsym : symbol +:+ str_nat i = String a (str_nat i))
    by now rewrite <- Hsn, Hsn'.
  rewrite Hsym in Hsub'. rewrite (init_sub p a i), Ha in Hsub'.
  destruct (mjs_file (name c) Hclean) as (H1 & H2 & H3).
  rewrite Hsn. split; [exact Hn|]. split; [discriminate|].
  split; [now rewrite Hsub'|]. split; [now rewrite Hpath|].
  split; [now rewrite (path_join_plain _ _ H1 H2 H3)|].
  split; [exact Hsub|].
  rewrite Hsub', path_str_snoc by apply Hp.
  destruct (plain_name a i Ha) as (Hs1 & _ & _).
  rewrite !replace_char_append, (replace_char_id _ Hs1), Hname, Hn.
  reflexivity.
Qed.

Lemma plain_subtree (o : Options) (Q : Module -> Prop) :
  no_separator o ->
  (forall m, tree_made o m -> plain_ok m -> Q m) ->
  forall m, tree_made o m -> plain_ok m -> Forall Q (m :: descendants m).
Proof.
  intros Hno HQ m. induction m as [m IH] using Module_tree_ind.
  intros Hm Hp. constructor; [now apply HQ|].
  rewrite descendants_eq.
  destruct (proj1 (tree_made_eq o m) Hm) as [Hmade Htrees].
  apply List.Forall_flat_map. rewrite List.Forall_forall in IH, Htrees.
  apply List.Forall_forall. intros c Hin.
  destruct (children_made_each o m _ 0 Hmade c Hin) as (j & _ & Hj).
  apply IH; [exact Hin | now apply Htrees |].
  now destruct (made_plain o m j c Hno Hp Hj) as (_ & _ & _ & _ & _ & ?).
Qed.

(** The path of a module below [m] lies under the submodule path of [m]. *)
Lemma below_paths (o : Options) :
  no_separator o ->
  forall m, tree_made o m -> plain_ok m ->
  Forall (fun d => exists x rest,
                     comps (path d) = comps (submodule_path m) ++ x :: rest)
    (descendants m).
Proof.
  intros Hno m. induction m as [m IH] using Module_tree_ind.
  intros Hm Hp. rewrite descendants_eq.
  destruct (proj1 (tree_made_eq o m) Hm) as [Hmade Htrees].
  apply List.Forall_flat_map. rewrite List.Forall_forall in IH, Htrees.
  apply List.Forall_forall. intros c Hin.
  destruct (children_made_each o m _ 0 Hmade c Hin) as (j & _ & Hj).
  destruct (made_plain o m j c Hno Hp Hj) as (_ & _ & Hsub & Hpath & _ & Hc).
  constructor.
  - now exists (name c +:+ ".mjs"), [].
  - eapply List.Forall_impl; [|apply (IH c Hin (Htrees c Hin) Hc)].
    intros d (x & rest & Hd). exists (simple_name c), (x :: rest).
    now rewrite Hd, Hsub, <- app_assoc.
Qed.

(** The paths of a child and of the modules below it: the file of the
    child in the directory of the parent, or something in the directory of
    the child. *)
Lemma block_paths (o : Options) (m : Module) (j : nat) (c : Module) :
  no_separator o -> plain_ok m -> made_by o m j c -> tree_made o c ->
  Forall (fun d =>
            comps (path d) = comps (submodule_path m) ++ [name c +:+ ".mjs"]
            \/ exists x rest,
                 comps (path d)
                 = comps (submodule_path m) ++ simple_name c :: x :: rest)
    (c :: descendants c).
Proof.
  intros Hno Hp Hj Hc.
  destruct (made_plain o m j c Hno Hp Hj) as (_ & _ & Hsub & Hpath & _ & Hpc).
  constructor; [now left|].
  eapply List.Forall_impl; [|apply (below_paths o Hno c Hc Hpc)].
  intros d (x & rest & Hd). right. exists x, rest.
  now rewrite Hd, Hsub, <- app_assoc.
Qed.

Lemma made_by_simple_inj (o : Options) (p : Module) (i j : nat)
    (c1 c2 : Module) :
  sub_ok p -> made_by o p i c1 -> made_by o p j c2 ->
  simple_name c1 = simple_name c2 -> i = j.
Proof.
  intros Hp H1 H2 E.
  destruct (made_by_facts o p i c1 Hp H1) as (a & _ & Ha & _).
  destruct (made_by_facts o p j c2 Hp H2) as (b & _ & Hb & _).
  rewrite Ha, Hb in E. injection E as _ E. now apply str_nat_inj.
Qed.

(** Modules of the blocks of two children made at different indices have
    different paths. *)
Lemma blocks_apart (o : Options) (m : Module) (i j : nat) (c1 c2 : Module)
    (d1 d2 : Module) :
  no_separator o -> plain_ok m -> i <> j ->
  made_by o m i c1 -> made_by o m j c2 ->
  tree_made o c1 -> tree_made o c2 ->
  In d1 (c1 :: descendants c1) -> In d2 (c2 :: descendants c2) ->
  path d1 <> path d2.
Proof.
  intros Hno Hp Hij H1 H2 Ht1 Ht2 Hd1 Hd2 E.
  pose proof (block_paths o m i c1 Hno Hp H1 Ht1) as B1.
  pose proof (block_paths o m j c2 Hno Hp H2 Ht2) as B2.
  rewrite List.Forall_forall in B1, B2.
  specialize (B1 d1 Hd1). specialize (B2 d2 Hd2). rewrite E in B1.
  destruct B1 as [B1|(x1 & r1 & B1)], B2 as [B2|(x2 & r2 & B2)];
    rewrite B1 in B2; apply app_inv_head in B2.
  - injection B2 as B2. apply append_inj_r in B2.
    apply Hij. now apply (made_by_name_inj o m i j c1 c2 (proj1 Hp)).
  - discriminate.
  - discriminate.
  - injection B2 as B2 _. apply Hij.
    now apply (made_by_simple_inj o m i j c1 c2 (proj1 Hp)).
Qed.

Lemma paths_nodup (o : Options) :
  no_separator o ->
  forall m, tree_made o m -> plain_ok m ->
  List.NoDup (map path (descendants m)).
Proof.
  intros Hno m. induction m as [m IH] using Module_tree_ind.
  intros Hm Hp. rewrite descendants_eq.
  destruct (proj1 (tree_made_eq o m) Hm) as [Hmade Htrees].
  rewrite List.Forall_forall in IH.
  revert Hmade Htrees IH. generalize 0 as k. generalize (children m) as cs.
  induction cs as [|c cs IHcs]; intros k Hmade Htrees IH; simpl;
    [constructor|].
  destruct Hmade as [Hc Hmade]. inversion Htrees as [|? ? Htc Htcs]; subst.
  destruct (made_plain o m k c Hno Hp Hc) as (_ & _ & Hsub & Hpath & _ & Hpc).
  rewrite map_app. apply (List.NoDup_app (l1 := path c :: _)).
  - constructor.
    + intros Hin. apply in_map_iff in Hin as (d & E & Hd).
      pose proof (below_paths o Hno c Htc Hpc) as Hbelow.
      rewrite List.Forall_forall in Hbelow.
      destruct (Hbelow d Hd) as (x & rest & Hcomps).
      rewrite E, Hpath, Hsub, <- app_assoc in Hcomps.
      apply app_inv_head in Hcomps. discriminate.
    + apply IH; [now left | exact Htc | exact Hpc].
  - apply (IHcs (S k)); [exact Hmade | exact Htcs |].
    intros x Hx. apply IH. now right.
  - intros q Hq1 Hq2.
    change (path c :: map path (descendants c))
      with (map path (c :: descendants c)) in Hq1.
    apply in_map_iff in Hq1 as (d1 & E1 & Hd1).
    apply in_map_iff in Hq2 as (d2 & E2 & Hd2).
    apply in_flat_map in Hd2 as (c2 & Hc2 & Hd2).
    destruct (children_made_each o m cs (S k) Hmade c2 Hc2)
      as (j & Hj & Hmj).
    rewrite List.Forall_forall in Htcs.
    apply (blocks_apart o m k j c c2 d1 d2 Hno Hp); try assumption;
      [lia | now apply Htcs | congruence].
Qed.

Lemma module_tree_plain (o : Options) : plain_ok (module_tree o).
Proof.
  split; [apply module_tree_sub_ok|].
  destruct (same_node_fields _ _ (module_tree_root_fields o))
    as (_ & Hn & _ & Hsub & _).
  now rewrite Hn, Hsub.
Qed.

(** X10: when no rule has the separator among its successors, what C4 says
    holds: the file of a module is in the submodule path of its parent,
    named by the qualified name, which is the qualified name of the parent,
    "_" and the local name; and no two modules of the tree share a path. *)
Lemma paths_unique_without_separator (o : Options) :
  no_separator o ->
  let root := module_tree o in
  Forall
    (fun p =>
       Forall
         (fun c =>
            path c = path_join (submodule_path p) (name c +:+ ".mjs")
            /\ name c = name p +:+ "_" +:+ simple_name c)
         (children p))
    (root :: descendants root)
  /\ List.NoDup (map path (root :: descendants root)).
Proof.
  intros Hno root.
  pose proof (module_tree_made o) as Hm.
  pose proof (module_tree_plain o) as Hp.
  fold root in Hm, Hp. split.
  - apply (plain_subtree o); try assumption.
    intros p Htp Hpp.
    destruct (proj1 (tree_made_eq o p) Htp) as [Hmade _].
    apply List.Forall_forall. intros c Hc.
    destruct (children_made_each o p _ 0 Hmade c Hc) as (j & _ & Hj).
    now destruct (made_plain o p j c Hno Hpp Hj) as (? & _ & _ & _ & ? & _).
  - simpl. constructor; [|now apply (paths_nodup o)].
    intros Hin. apply in_map_iff in Hin as (d & E & Hd).
    pose proof (below_paths o Hno root Hm Hp) as Hbelow.
    rewrite List.Forall_forall in Hbelow.
    destruct (Hbelow d Hd) as (x & rest & Hcomps).
    rewrite E in Hcomps.
    destruct (same_node_fields _ _ (module_tree_root_fields o))
      as (_ & _ & Hpath & Hsub & _).
    fold root in Hpath, Hsub. rewrite Hpath, Hsub in Hcomps.
    discriminate.
Qed.

(** The number of path components and the depth: when no rule has the
    separator among its successors, the path of a module at depth [d] has
    [d + 1] parts, so the order of the sorted list is also the order of
    the depths. *)
Lemma made_anchor (o : Options) (p : Module) (i : nat) (c : Module) :
  no_separator o -> sub_ok p -> made_by o p i c ->
  anchored (path c) = anchored (submodule_path p)
  /\ anchored (submodule_path c) = anchored (submodule_path p).
Proof.
  intros Hno Hp Hmade.
  destruct (made_by_facts o p i c Hp Hmade)
    as (a & _ & Hsn & Hpath & _ & _ & _ & _ & _ & _ & Hrule).
  pose proof (no_separator_symbol o a Hno Hrule) as Ha.
  destruct Hmade as (symbol & _ & Hsame).
  destruct (same_node_fields _ _ Hsame) as (Hsn' & _ & _ & Hsub' & _).
  assert (Hsym : symbol +:+ str_nat i = String a (str_nat i))
    by now rewrite <- Hsn, Hsn'.
  rewrite Hsym in Hsub'. rewrite (init_sub p a i), Ha in Hsub'.
  now rewrite Hpath, Hsub'.
Qed.

Lemma parts_below (o : Options) :
  no_separator o ->
  forall m, tree_made o m -> plain_ok m ->
  anchored (submodule_path m) = false ->
  length (comps (submodule_path m)) = depth m + 1 ->
  Forall (fun d => length (path_parts (path d)) = depth d + 1)
    (descendants m).
Proof.
  intros Hno m. induction m as [m IH] using Module_tree_ind.
  intros Hm Hp Ha Hlen. rewrite descendants_eq.
  destruct (proj1 (tree_made_eq o m) Hm) as [Hmade Htrees].
  apply List.Forall_flat_map. rewrite List.Forall_forall in IH, Htrees.
  apply List.Forall_forall. intros c Hin.
  destruct (children_made_each o m _ 0 Hmade c Hin) as (j & _ & Hj).
  destruct (made_plain o m j c Hno Hp Hj) as (_ & _ & Hsub & Hpath & _ & Hc).
  destruct (made_anchor o m j c Hno (proj1 Hp) Hj) as [Hap Has].
  destruct (made_by_facts o m j c (proj1 Hp) Hj)
    as (_ & _ & _ & _ & _ & _ & Hd & _).
  constructor.
  - unfold path_parts. rewrite Hap, Ha, Hpath. simpl.
    rewrite length_app. simpl. lia.
  - apply IH; [exact Hin | now apply Htrees | exact Hc | congruence |].
    rewrite Hsub, length_app. simpl. lia.
Qed.

Lemma module_tree_parts (o : Options) :
  no_separator o ->
  Forall (fun d => length (path_parts (path d)) = depth d + 1)
    (descendants (module_tree o)).
Proof.
  intros Hno.
  destruct (same_node_fields _ _ (module_tree_root_fields o))
    as (_ & _ & _ & Hsub & Hd & _).
  apply (parts_below o Hno);
    [apply module_tree_made | apply module_tree_plain | |];
    now rewrite Hsub, ?Hd.
Qed.

(** X11: when no rule has the separator among its successors, the sorted
    list of modules is ordered by depth: a module never comes before a
    module that is less deep, so a parent comes before its children. *)
Lemma sorted_by_depth (o : Options) (i j : nat) (mi mj : Module) :
  no_separator o ->
  let sorted := sort_modules (descendants (module_tree o)) in
  i < j -> nth_error sorted i = Some mi -> nth_error sorted j = Some mj ->
  depth mi <= depth mj.
Proof.
  intros Hno sorted Hij Hi Hj.
  pose proof (module_tree_parts o Hno) as Hparts.
  rewrite List.Forall_forall in Hparts.
  assert (Hin : forall k m, nth_error sorted k = Some m ->
                  In m (descendants (module_tree o))).
  { intros k m Hk. apply nth_error_In in Hk.
    now apply (Permutation_in _ (Permutation_sym (sort_modules_perm _))). }
  pose proof (strongly_sorted_nth key_le _
                (sort_modules_sorted (descendants (module_tree o)))
                i j mi mj Hij Hi Hj) as Hle.
  apply key_le_parts in Hle as [Hle _].
  rewrite (Hparts mi (Hin i mi Hi)), (Hparts mj (Hin j mj Hj)) in Hle. lia.
Qed.

(** * Proofs: the options *)

(** ** Splitting and joining *)

Lemma split_on_nonempty (sep : ascii) (s : string) : split_on sep s <> [].
Proof.
  induction s as [|c s IH]; simpl; [discriminate|].
  destruct (Ascii.eqb c sep); [discriminate|].
  destruct (split_on sep s); discriminate.
Qed.

Lemma split_on_join (sep : ascii) (s : string) :
  String.concat (String sep "") (split_on sep s) = s.
Proof.
  induction s as [|c s IH]; simpl; [reflexivity|].
  destruct (Ascii.eqb_spec c sep) as [->|Hc].
  - pose proof (split_on_nonempty sep s) as Hne.
    destruct (split_on sep s) as [|p ps]; [congruence|].
    change (String sep (String.concat (String sep "") (p :: ps))
            = String sep s).
    f_equal. exact IH.
  - pose proof (split_on_nonempty sep s) as Hne.
    destruct (split_on sep s) as [|p ps]; [congruence|].
    destruct ps as [|q qs]; [simpl in *; now rewrite IH|].
    change (String.concat (String sep "") (String c p :: q :: qs))
      with (String c (p +:+ String sep ""
                        +:+ String.concat (String sep "") (q :: qs))).
    f_equal. exact IH.
Qed.

Lemma split_on_clean (sep : ascii) (s : string) :
  Forall (fun p => contains sep p = false) (split_on sep s).
Proof.
  induction s as [|c s IH]; simpl; [now constructor|].
  destruct (Ascii.eqb_spec c sep) as [->|Hc]; [now constructor|].
  destruct (split_on sep s) as [|p ps]; inversion IH; subst; constructor;
    simpl; try constructor; try assumption;
    destruct (Ascii.eqb_spec c sep); simpl; congruence.
Qed.

Lemma split_on_plain (sep : ascii) (s : string) :
  contains sep s = false -> split_on sep s = [s].
Proof.
  induction s as [|c s IH]; simpl; [reflexivity|].
  destruct (Ascii.eqb c sep); simpl; [discriminate|].
  intros H. now rewrite (IH H).
Qed.

Lemma split_on_cons (sep : ascii) (a rest : string) :
  contains sep a = false ->
  split_on sep (a +:+ String sep rest) = a :: split_on sep rest.
Proof.
  induction a as [|c a IH]; simpl.
  - now rewrite Ascii.eqb_refl.
  - destruct (Ascii.eqb c sep); simpl; [discriminate|].
    intros H. now rewrite (IH H).
Qed.

Lemma split_on_concat (sep : ascii) (l : list string) :
  l <> [] -> Forall (fun p => contains sep p = false) l ->
  split_on sep (String.concat (String sep "") l) = l.
Proof.
  induction l as [|a l IH]; [congruence|].
  intros _ Hl. inversion Hl as [|? ? Ha Hl']; subst.
  destruct l as [|b l].
  - simpl. now apply split_on_plain.
  - change (String.concat (String sep "") (a :: b :: l))
      with (a +:+ String sep "" +:+ String.concat (String sep "") (b :: l)).
    change (String sep "" +:+ String.concat (String sep "") (b :: l))
      with (String sep (String.concat (String sep "") (b :: l))).
    rewrite (split_on_cons _ _ _ Ha). f_equal. now apply IH.
Qed.

(** ** The rules that [parse_rules] takes *)

Lemma rule_text_split (r : string * string) :
  contains ":" (fst r) = false -> contains ":" (snd r) = false ->
  split_on ":" (rule_text r) = [fst r; snd r].
Proof.
  intros H1 H2. unfold rule_text.
  change (":" +:+ snd r) with (String ":" (snd r)).
  rewrite (split_on_cons _ _ _ H1). now rewrite (split_on_plain _ _ H2).
Qed.

Lemma rule_text_comma (r : string * string) :
  contains "," (rule_text r) = false
  <-> contains "," (fst r) = false /\ contains "," (snd r) = false.
Proof.
  unfold rule_text. rewrite !contains_append. simpl.
  destruct (contains "," (fst r)), (contains "," (snd r)); simpl; intuition.
Qed.

Lemma length_zero (s : string) : String.length s = 0 <-> s = "".
Proof. destruct s; simpl; split; congruence. Qed.

Lemma insert_all (l : list (string * string)) :
  forall rules0 : gmap string string,
    List.NoDup (map fst l) ->
    (forall k, In k (map fst l) -> rules0 !! k = None) ->
    fold_left (fun m r => <[fst r := snd r]> m) l rules0
    = list_to_map l ∪ rules0.
Proof.
  induction l as [|[p s] l IH]; intros rules0 Hnd Hfresh; simpl.
  - now rewrite (left_id_L ∅ (∪)).
  - inversion Hnd as [|? ? Hp Hnd']; subst.
    rewrite IH; [|assumption|].
    + rewrite <- insert_union_r, insert_union_l; [reflexivity|].
      apply not_elem_of_list_to_map_1.
      rewrite list_elem_of_In. exact Hp.
    + intros k Hk. rewrite lookup_insert_ne; [apply Hfresh; now right|].
      simpl. intros <-. contradiction.
Qed.

Lemma parse_rules_loop_app (l : list (string * string)) (more : list string) :
  forall rules0,
    Forall rule_ok l -> List.NoDup (map fst l) ->
    (forall k, In k (map fst l) -> rules0 !! k = None) ->
    parse_rules_loop (map rule_text l ++ more) rules0
    = parse_rules_loop more
        (fold_left (fun m r => <[fst r := snd r]> m) l rules0).
Proof.
  induction l as [|r l IH]; intros rules0 Hok Hnd Hfresh; [reflexivity|].
  inversion Hok as [|? ? (Hlen & Hs & (_ & Hp1) & (_ & Hs1)) Hok']; subst.
  inversion Hnd as [|? ? Hp Hnd']; subst.
  simpl. rewrite (rule_text_split r Hp1 Hs1), Hlen. simpl.
  destruct (Nat.eqb_spec (String.length (snd r)) 0) as [E|_];
    [apply length_zero in E; contradiction|].
  rewrite (Hfresh (fst r)) by now left.
  apply IH; [assumption..|].
  intros k Hk. rewrite lookup_insert_ne; [apply Hfresh; now right|].
  intros <-. contradiction.
Qed.

Lemma parse_rules_loop_ok (l : list (string * string)) :
  Forall rule_ok l -> List.NoDup (map fst l) ->
  parse_rules_loop (map rule_text l) ∅ = inr (list_to_map l).
Proof.
  intros Hok Hnd.
  rewrite <- (app_nil_r (map rule_text l)).
  rewrite (parse_rules_loop_app l [] ∅ Hok Hnd)
    by (intros; apply lookup_empty).
  simpl. rewrite (insert_all l ∅ Hnd) by (intros; apply lookup_empty).
  now rewrite (right_id_L ∅ (∪)).
Qed.

Lemma parse_rules_loop_inv (pieces : list string) :
  forall rules0 rules,
    Forall (fun p => contains "," p = false) pieces ->
    parse_rules_loop pieces rules0 = inr rules ->
    exists l,
      pieces = map rule_text l /\ Forall rule_ok l
      /\ List.NoDup (map fst l)
      /\ (forall k, In k (map fst l) -> rules0 !! k = None)
      /\ rules = fold_left (fun m r => <[fst r := snd r]> m) l rules0.
Proof.
  induction pieces as [|rule rest IH]; intros rules0 rules Hc H.
  - exists []. simpl in *. repeat split; try constructor; try tauto.
    congruence.
  - inversion Hc as [|? ? Hrule Hc']; subst. simpl in H.
    pose proof (split_on_join ":" rule) as Hjoin.
    pose proof (split_on_clean ":" rule) as Hclean.
    destruct (split_on ":" rule) as [|p [|s [|]]]; try discriminate.
    inversion Hclean as [|? ? Hp Hclean']; subst.
    inversion Hclean' as [|? ? Hs _]; subst.
    destruct (Nat.eqb_spec (String.length p) 1) as [Hlen|]; [|discriminate].
    destruct (Nat.eqb_spec (String.length s) 0) as [|Hne]; [discriminate|].
    simpl in H.
    destruct (rules0 !! p) eqn:Hnew; [discriminate|].
    destruct (IH _ _ Hc' H) as (l & -> & Hok & Hnd & Hfresh & ->).
    change (String.concat ":" [p; s]) with (rule_text (p, s)) in *.
    assert (Hin : ~ In p (map fst l)).
    { intros Hin. apply Hfresh in Hin.
      now rewrite lookup_insert_eq in Hin. }
    exists ((p, s) :: l). simpl. repeat split.
    + constructor; [|assumption].
      apply rule_text_comma in Hrule as [? ?].
      repeat split; simpl; try assumption.
      intros E. apply Hne. now apply length_zero.
    + now constructor.
    + intros k [<-|Hk]; [assumption|].
      specialize (Hfresh k Hk).
      rewrite lookup_insert_ne in Hfresh; [assumption|].
      intros <-. contradiction.
Qed.

Lemma rules_text_pieces (l : list (string * string)) :
  l <> [] -> Forall rule_ok l ->
  split_on "," (rules_text l) = map rule_text l.
Proof.
  intros Hne Hok. unfold rules_text.
  apply (split_on_concat ","); [now destruct l|].
  apply List.Forall_map. eapply List.Forall_impl; [|exact Hok].
  intros r (_ & _ & (H1 & _) & (H2 & _)). now apply rule_text_comma.
Qed.

Lemma rules_lookup (l : list (string * string)) (k : string) :
  List.NoDup (map fst l) ->
  (exists v, (list_to_map l : gmap string string) !! k = Some v)
  <-> In k (map fst l).
Proof.
  intros Hnd. rewrite <- list_elem_of_In, list_elem_of_fmap. split.
  - intros [v Hv]. apply elem_of_list_to_map_2 in Hv. now exists (k, v).
  - intros [[k' v] [-> Hin]]. exists v.
    apply elem_of_list_to_map_1; [|exact Hin].
    now apply NoDup_ListNoDup.
Qed.

Lemma parse_rules_ok (l : list (string * string)) :
  Forall rule_ok l -> List.NoDup (map fst l) -> In "A" (map fst l) ->
  parse_rules (rules_text l) = inr (list_to_map l).
Proof.
  intros Hok Hnd HA. unfold parse_rules.
  assert (Hne : l <> []) by (intros ->; contradiction).
  rewrite (rules_text_pieces l Hne Hok), (parse_rules_loop_ok l Hok Hnd).
  apply (rules_lookup l "A" Hnd) in HA as [v ->]. reflexivity.
Qed.

Lemma parse_rules_inv (text : string) (rules : gmap string string) :
  parse_rules text = inr rules ->
  exists l,
    text = rules_text l /\ Forall rule_ok l /\ List.NoDup (map fst l)
    /\ In "A" (map fst l) /\ rules = list_to_map l.
Proof.
  unfold parse_rules.
  destruct (parse_rules_loop (split_on "," text) ∅) as [|rules'] eqn:Hloop;
    [discriminate|].
  destruct (rules' !! "A") eqn:HA; [|discriminate].
  intros [= <-].
  destruct (parse_rules_loop_inv _ _ _ (split_on_clean "," text) Hloop)
    as (l & Hpieces & Hok & Hnd & _ & ->).
  rewrite (insert_all l ∅ Hnd) in * by (intros; apply lookup_empty).
  rewrite (right_id_L ∅ (∪)) in *.
  exists l. repeat split; try assumption.
  - rewrite <- (split_on_join "," text), Hpieces. reflexivity.
  - apply (rules_lookup l "A" Hnd). eauto.
Qed.

(** X1: [parse_rules] returns a table exactly for the texts [p:s,p:s,...]
    whose predecessors are single characters, all different and with "A"
    among them, and whose successors are not empty; the table maps each
    predecessor to its successors. *)
Theorem parse_rules_accepts (text : string) (rules : gmap string string) :
  parse_rules text = inr rules
  <-> exists l,
        text = rules_text l /\ Forall rule_ok l /\ List.NoDup (map fst l)
        /\ In "A" (map fst l) /\ rules = list_to_map l.
Proof.
  split.
  - apply parse_rules_inv.
  - intros (l & -> & Hok & Hnd & HA & ->). now apply parse_rules_ok.
Qed.

Lemma pieces_text (pieces : list string) :
  pieces <> [] -> Forall (fun p => contains "," p = false) pieces ->
  split_on "," (String.concat "," pieces) = pieces.
Proof. apply (split_on_concat ","). Qed.

Lemma rules_pieces_clean (l : list (string * string)) :
  Forall rule_ok l ->
  Forall (fun p => contains "," p = false) (map rule_text l).
Proof.
  intros Hok. apply List.Forall_map. eapply List.Forall_impl; [|exact Hok].
  intros r (_ & _ & (H1 & _) & (H2 & _)). now apply rule_text_comma.
Qed.

(** X2: how [parse_rules] turns a text down, once the rules in front are
    fine: a rule text without the colon, or with more than one, raises
    [ValueError] (no usage message); a second rule for a predecessor is
    a usage error, whatever follows it; and so is a text without a rule
    for "A". *)
Theorem parse_rules_errors (l : list (string * string)) :
  Forall rule_ok l -> List.NoDup (map fst l) ->
  (forall piece rest,
     Forall (fun p => contains "," p = false) (piece :: rest) ->
     length (split_on ":" piece) <> 2 ->
     parse_rules (String.concat "," (map rule_text l ++ piece :: rest))
     = inl (Raise ValueError))
  /\ (forall r rest,
        rule_ok r -> In (fst r) (map fst l) ->
        Forall (fun p => contains "," p = false) rest ->
        parse_rules (String.concat "," (map rule_text l ++ rule_text r :: rest))
        = inl (ParserError ("More than one rule for '" +:+ fst r)))
  /\ (l <> [] -> ~ In "A" (map fst l) ->
      parse_rules (rules_text l)
      = inl (ParserError "Missing rule for initial axiom 'A'")).
Proof.
  intros Hok Hnd.
  assert (Hfresh : forall k, In k (map fst l) ->
                     (∅ : gmap string string) !! k = None)
    by (intros; apply lookup_empty).
  assert (Hall : fold_left (fun m r => <[fst r := snd r]> m) l ∅
                 = (list_to_map l : gmap string string)).
  { rewrite (insert_all l ∅ Hnd Hfresh). apply (right_id_L ∅ (∪)). }
  repeat split.
  - intros piece rest Hclean Hlen. unfold parse_rules.
    rewrite pieces_text;
      [|now destruct l|
       apply Forall_app; split; [now apply rules_pieces_clean|assumption]].
    rewrite (parse_rules_loop_app l _ ∅ Hok Hnd Hfresh). simpl.
    destruct (split_on ":" piece) as [|p [|s [|]]]; try reflexivity.
    now contradiction Hlen.
  - intros r rest (Hlen & Hs & (Hc1 & Hp1) & (Hc2 & Hs1)) Hin Hclean.
    unfold parse_rules.
    rewrite pieces_text;
      [|now destruct l|
       apply Forall_app; split;
       [now apply rules_pieces_clean
       |constructor; [now apply rule_text_comma|assumption]]].
    rewrite (parse_rules_loop_app l _ ∅ Hok Hnd Hfresh), Hall. simpl.
    rewrite (rule_text_split r Hp1 Hs1), Hlen. simpl.
    destruct (Nat.eqb_spec (String.length (snd r)) 0) as [E|_];
      [apply length_zero in E; contradiction|].
    apply (rules_lookup l (fst r) Hnd) in Hin as [v ->]. reflexivity.
  - intros Hne HA. unfold parse_rules.
    rewrite (rules_text_pieces l Hne Hok), (parse_rules_loop_ok l Hok Hnd).
    destruct (list_to_map l !! "A") eqn:E; [|reflexivity].
    contradiction HA. apply (rules_lookup l "A" Hnd). eauto.
Qed.

Lemma parse_rules_errors_witness :
  (Forall rule_ok [("B", "BB")] /\ List.NoDup (map fst [("B", "BB")]))
  /\ parse_rules "B:BB,AB,A:B" = inl (Raise ValueError)
  /\ parse_rules "B:BB,B:A,A" = inl (ParserError "More than one rule for 'B")
  /\ parse_rules "B:BB"
     = inl (ParserError "Missing rule for initial axiom 'A'").
Proof.
  assert (Hok : Forall rule_ok [("B", "BB")]).
  { repeat constructor; simpl; congruence. }
  assert (Hnd : List.NoDup (map fst [("B", "BB")])).
  { repeat constructor; simpl; tauto. }
  split; [now split|].
  destruct (parse_rules_errors [("B", "BB")] Hok Hnd) as (H1 & H2 & H3).
  split; [|split].
  - apply (H1 "AB" ["A:B"]); [repeat constructor|simpl; lia].
  - apply (H2 ("B", "A") ["A"]);
      [repeat split; simpl; congruence|simpl; tauto|repeat constructor].
  - apply H3; [discriminate|simpl; intros [E|[]]; discriminate].
Defined.

(** ** The sizes that [parse_sizes] takes *)

Lemma lower_snoc (d : string) (c : ascii) :
  lower (d +:+ String c "") = lower d +:+ String (lower_char c) "".
Proof. induction d as [|x d IH]; simpl; [reflexivity|now rewrite IH]. Qed.

Lemma ends_with_snoc (c x : ascii) (d : string) :
  ends_with c (d +:+ String x "") = Ascii.eqb x c.
Proof.
  induction d as [|y d IH]; simpl; [reflexivity|].
  rewrite IH. destruct d; reflexivity.
Qed.

Lemma drop_last_snoc (x : ascii) (d : string) :
  drop_last (d +:+ String x "") = d.
Proof.
  induction d as [|y d IH]; simpl; [reflexivity|].
  rewrite IH. destruct d; reflexivity.
Qed.

(** X3: the unit of a size text.  A number without suffix is a number of
    KiB, as with the suffix K or k; the suffix M or m stands for 1024 KiB.
    The number itself is what [int] reads. *)
Theorem size_units (int : string -> option Z) (d : string) :
  lower d = d -> ends_with "k" d = false -> ends_with "m" d = false ->
  parse_size int d = option_map (fun n => (n * 1024)%Z) (int d)
  /\ parse_size int (d +:+ "K") = parse_size int d
  /\ parse_size int (d +:+ "k") = parse_size int d
  /\ parse_size int (d +:+ "M")
     = option_map (fun n => (n * 1024 * 1024)%Z) (int d)
  /\ parse_size int (d +:+ "m") = parse_size int (d +:+ "M").
Proof.
  intros Hlow Hk Hm.
  assert (H0 : parse_size int d = option_map (fun n => (n * 1024)%Z) (int d)).
  { unfold parse_size. now rewrite Hlow, Hk, Hm. }
  assert (HK : forall x, lower_char x = "k"%char ->
                 parse_size int (d +:+ String x "") = parse_size int d).
  { intros x Hx. rewrite H0. unfold parse_size.
    now rewrite lower_snoc, Hx, Hlow, ends_with_snoc, drop_last_snoc. }
  assert (HM : forall x, lower_char x = "m"%char ->
                 parse_size int (d +:+ String x "")
                 = option_map (fun n => (n * 1024 * 1024)%Z) (int d)).
  { intros x Hx. unfold parse_size.
    now rewrite lower_snoc, Hx, Hlow, !ends_with_snoc, drop_last_snoc. }
  repeat split; try assumption.
  - now apply HK.
  - now apply HK.
  - now apply HM.
  - now rewrite !HM.
Qed.

Lemma size_units_witness :
  (lower "10" = "10" /\ ends_with "k" "10" = false
   /\ ends_with "m" "10" = false)
  /\ parse_size int_digits "10" = Some 10240%Z
  /\ parse_size int_digits "10K" = parse_size int_digits "10"
  /\ parse_size int_digits "10M" = Some 10485760%Z.
Proof.
  split; [repeat split|].
  destruct (size_units int_digits "10" eq_refl eq_refl eq_refl)
    as (H1 & H2 & _ & H4 & _).
  split; [exact H1|]. split; [exact H2|exact H4].
Defined.

Lemma parse_size_kib (int : string -> option Z) (t : string) (z : Z) :
  parse_size int t = Some z -> (1024 | z)%Z.
Proof.
  unfold parse_size.
  destruct (ends_with "k" (lower t));
    [|destruct (ends_with "m" (lower t))];
    (destruct (int _) as [n|]; simpl; [|discriminate]);
    intros [= <-].
  - now exists n.
  - exists (n * 1024)%Z. reflexivity.
  - now exists n.
Qed.

Lemma parse_sizes_loop_kib (int : string -> option Z) (inputs : list string) :
  forall sizes0 sizes,
    map_Forall (fun _ z => (1024 | z)%Z) sizes0 ->
    parse_sizes_loop int inputs sizes0 = inr sizes ->
    map_Forall (fun _ z => (1024 | z)%Z) sizes
    /\ sizes0 ⊆ sizes
    /\ base.size sizes = base.size sizes0 + length inputs.
Proof.
  induction inputs as [|input rest IH]; intros sizes0 sizes H0 H; simpl in H.
  - injection H as <-. repeat split; [assumption|reflexivity|simpl; lia].
  - destruct (split_on ":" input) as [|symbol [|t [|]]]; try discriminate.
    destruct (parse_size int t) as [z|] eqn:Hz; [|discriminate].
    destruct (sizes0 !! symbol) eqn:Hnew; [discriminate|].
    apply IH in H as (H1 & H2 & H3).
    + repeat split; [assumption| |].
      * etransitivity; [|exact H2]. now apply insert_subseteq.
      * rewrite H3, map_size_insert_None by assumption. simpl. lia.
    + apply map_Forall_insert_2; [|assumption].
      now apply (parse_size_kib int t).
Qed.

(** X4: what [parse_sizes] returns.  Without [--sizes] the table is empty;
    otherwise it has one entry for each piece of the text, and every size
    is a whole number of KiB, whatever [int] reads. *)
Theorem parse_sizes_table (int : string -> option Z)
    (input_sizes : option string) (sizes : gmap string Z) :
  parse_sizes int input_sizes = inr sizes ->
  (forall symbol z, sizes !! symbol = Some z -> (1024 | z)%Z)
  /\ base.size sizes
     = match input_sizes with
       | None => 0
       | Some text => length (split_on "," text)
       end.
Proof.
  destruct input_sizes as [text|]; simpl.
  - intros H.
    apply parse_sizes_loop_kib in H as (H1 & _ & H3);
      [|apply map_Forall_empty].
    split; [exact H1|]. rewrite H3, map_size_empty. reflexivity.
  - intros [= <-]. split; [|apply map_size_empty].
    intros symbol z H. now rewrite lookup_empty in H.
Qed.

Lemma parse_sizes_table_witness :
  parse_sizes int_digits (Some "A:10K,B:2m,C:3")
  = inr (<["A" := 10240%Z]> (<["B" := 2097152%Z]> (<["C" := 3072%Z]> ∅)))
  /\ (forall symbol z,
        (<["A" := 10240%Z]> (<["B" := 2097152%Z]> (<["C" := 3072%Z]> ∅))
           : gmap string Z) !! symbol = Some z ->
        (1024 | z)%Z).
Proof.
  assert (H : parse_sizes int_digits (Some "A:10K,B:2m,C:3")
              = inr (<["A" := 10240%Z]>
                       (<["B" := 2097152%Z]> (<["C" := 3072%Z]> ∅))))
    by (vm_compute; reflexivity).
  split; [exact H|].
  exact (proj1 (parse_sizes_table int_digits _ _ H)).
Defined.

(** ** The options that [validate_options] returns *)

Lemma parse_rules_sound (text : string) (rules : gmap string string) :
  parse_rules text = inr rules ->
  (forall p s, rules !! p = Some s ->
     String.length p = 1 /\ s <> "" /\ plain_text p /\ plain_text s)
  /\ exists s, rules !! "A" = Some s.
Proof.
  intros H. apply parse_rules_inv in H as (l & _ & Hok & Hnd & HA & ->).
  split.
  - intros p s Hps. apply elem_of_list_to_map_2, list_elem_of_In in Hps.
    rewrite List.Forall_forall in Hok. exact (Hok (p, s) Hps).
  - now apply (rules_lookup l "A" Hnd).
Qed.

Lemma validate_options_inv (int : string -> option Z) (v : Values)
    (o : Options) :
  validate_options int v = inr o ->
  (0 <= v_depth v)%Z /\ (1 <= v_branches v)%Z
  /\ parse_rules
       (match v_rules v with
        | None => "A:" +:+ repeat_string "A" (Z.to_nat (v_branches v))
        | Some text => text
        end) = inr (o_rules o)
  /\ parse_sizes int (v_sizes v) = inr (o_sizes o)
  /\ o_depth o = Z.to_nat (v_depth v)
  /\ o_dynamic_imports o = v_dynamic_imports v.
Proof.
  unfold validate_options.
  destruct (Z.ltb_spec (v_depth v) 0); [discriminate|].
  destruct (Z.leb_spec (v_branches v) 0); [discriminate|].
  destruct (parse_rules _) as [|rules]; [discriminate|].
  destruct (parse_sizes int (v_sizes v)) as [|sizes]; [discriminate|].
  intros [= <-]. simpl. repeat split; lia.
Qed.

Lemma chars_nonempty (s : string) : s <> "" -> chars s <> [].
Proof. destruct s; simpl; congruence. Qed.

Lemma grow_children (n : nat) (o : Options) (m : Module) (symbol e : string) :
  o_rules o !! symbol = Some e -> children m = [] ->
  children (grow (S n) o m symbol)
  = grow_loop (grow n o) o m (chars e) 0.
Proof. intros He Hm. rewrite (grow_rule _ _ _ _ _ He). simpl. now rewrite Hm. Qed.

(** X5: what [validate_options] lets through.  The depth is not negative
    and the count of branches is positive; every rule has a predecessor of
    one character and at least one successor, and there is a rule for "A".
    For these options the tree is built, and the root stays without
    children, and the list of modules is missing, exactly at depth 0. *)
Theorem validated_options (int : string -> option Z) (v : Values)
    (o : Options) :
  validate_options int v = inr o ->
  (0 <= v_depth v)%Z /\ (1 <= v_branches v)%Z
  /\ o_depth o = Z.to_nat (v_depth v)
  /\ o_dynamic_imports o = v_dynamic_imports v
  /\ (forall p s, o_rules o !! p = Some s -> String.length p = 1 /\ s <> "")
  /\ (exists s, o_rules o !! ROOT_AXIOM = Some s)
  /\ exists b,
       create_module_tree o = Some b
       /\ (modules b = None <-> v_depth v = 0%Z)
       /\ (children (start_module b) = [] <-> v_depth v = 0%Z).
Proof.
  intros H.
  apply validate_options_inv in H as (Hd & Hb & Hr & _ & Hdepth & Hdyn).
  apply parse_rules_sound in Hr as (Hrules & s & Hs).
  repeat split; try assumption.
  - now apply (Hrules p s0).
  - now apply (Hrules p s0).
  - now exists s.
  - eexists. split; [apply create_module_tree_eq|]. simpl.
    unfold module_tree, ROOT_AXIOM. rewrite Hdepth, Hs.
    destruct (Z.to_nat (v_depth v)) as [|n] eqn:E.
    + simpl. split; split; intros; try reflexivity; lia.
    + rewrite (grow_children n o
                 (Module_init "A" None 0 0 0%Z (o_dynamic_imports o))
                 "A" s Hs eq_refl).
      destruct (Hrules "A" s Hs) as (_ & Hne & _).
      apply chars_nonempty in Hne.
      destruct (chars s); [congruence|].
      simpl. split; split; intros; try discriminate; lia.
Qed.

Lemma validated_options_witness :
  validate_options int_digits default_values
  = inr {| o_depth := 4; o_rules := <["A" := "AAAAAAAAAA"]> ∅;
           o_sizes := ∅; o_dynamic_imports := false |}
  /\ exists b,
       create_module_tree
         {| o_depth := 4; o_rules := <["A" := "AAAAAAAAAA"]> ∅;
            o_sizes := ∅; o_dynamic_imports := false |} = Some b
       /\ (modules b = None <-> v_depth default_values = 0%Z).
Proof.
  assert (H : validate_options int_digits default_values
              = inr {| o_depth := 4; o_rules := <["A" := "AAAAAAAAAA"]> ∅;
                       o_sizes := ∅; o_dynamic_imports := false |})
    by (vm_compute; reflexivity).
  split; [exact H|].
  destruct (validated_options int_digits _ _ H)
    as (_ & _ & _ & _ & _ & _ & b & Hb & Hm & _).
  exists b. now split.
Defined.

(** ** The balanced tree of the default rules *)

Lemma descendants_count (m : Module) :
  S (length (descendants m)) = node_count m.
Proof.
  induction m as [m IH] using Module_tree_ind.
  rewrite descendants_eq, node_count_eq. f_equal.
  induction IH as [|c cs Hc _ IHcs]; [reflexivity|].
  simpl. rewrite length_app, IHcs, <- Hc. reflexivity.
Qed.

Lemma repeat_string_chars (c : ascii) (b : nat) :
  chars (repeat_string (String c "") b) = repeat (String c "") b.
Proof. induction b as [|b IH]; simpl; [reflexivity|now rewrite IH]. Qed.

Lemma repeat_string_plain (c x : ascii) (b : nat) :
  Ascii.eqb c x = false -> contains x (repeat_string (String c "") b) = false.
Proof. intros H. induction b as [|b IH]; simpl; [reflexivity|now rewrite H]. Qed.

Lemma repeat_string_nonempty (c : ascii) (b : nat) :
  0 < b -> repeat_string (String c "") b <> "".
Proof. destruct b; simpl; [lia|discriminate]. Qed.

Lemma uniform_loop_count (g : Module -> string -> Module) (o : Options)
    (p : Module) (symbol : string) (k b : nat) :
  (forall m, children m = [] -> node_count (g m symbol) = k) ->
  forall i,
    list_sum (map node_count (grow_loop g o p (repeat symbol b) i)) = b * k.
Proof.
  intros Hg. induction b as [|b IH]; intros i; simpl; [reflexivity|].
  rewrite IH, Hg; reflexivity.
Qed.

Lemma uniform_count (o : Options) (b : nat) :
  o_rules o !! "A" = Some (repeat_string "A" b) ->
  forall n m,
    children m = [] -> node_count (grow n o m "A") = level_sum b n.
Proof.
  intros Hr. induction n as [|n IH]; intros m Hm.
  - simpl. rewrite node_count_eq, Hm. reflexivity.
  - rewrite node_count_eq, (grow_children n o m "A" _ Hr Hm).
    rewrite repeat_string_chars.
    rewrite (uniform_loop_count _ o m "A" (level_sum b n) b IH). reflexivity.
Qed.

Lemma level_sum_closed (b d : nat) :
  0 < b -> level_sum b d * (b - 1) + 1 = b ^ S d.
Proof.
  intros Hb. induction d as [|d IH].
  - simpl. lia.
  - change (level_sum b (S d)) with (1 + b * level_sum b d).
    change (b ^ S (S d)) with (b * b ^ S d). rewrite <- IH.
    destruct b; simpl; nia.
Qed.

Lemma default_rules_text (b : nat) :
  0 < b ->
  parse_rules ("A:" +:+ repeat_string "A" b)
  = inr (<["A" := repeat_string "A" b]> ∅).
Proof.
  intros Hb.
  change ("A:" +:+ repeat_string "A" b)
    with (rules_text [("A", repeat_string "A" b)]).
  rewrite parse_rules_ok; [reflexivity| | |simpl; tauto].
  - repeat constructor; simpl; try reflexivity.
    + now apply repeat_string_nonempty.
    + now apply repeat_string_plain.
    + now apply repeat_string_plain.
  - repeat constructor. simpl. tauto.
Qed.

(** X6: without [--rules] the tree is balanced.  The only rule is
    A -> A...A with [branches] successors, the tree has
    1 + b + ... + b^depth modules (with the root), and the list of modules
    holds all of them but the root. *)
Theorem default_rules_balanced (int : string -> option Z) (v : Values)
    (o : Options) :
  v_rules v = None -> validate_options int v = inr o ->
  let b := Z.to_nat (v_branches v) in
  let d := Z.to_nat (v_depth v) in
  o_rules o = <["A" := repeat_string "A" b]> ∅
  /\ node_count (module_tree o) = level_sum b d
  /\ level_sum b d * (b - 1) + 1 = b ^ S d
  /\ exists bm,
       create_module_tree o = Some bm
       /\ start_module bm = module_tree o
       /\ forall ms, modules bm = Some ms -> S (length ms) = level_sum b d.
Proof.
  intros Hnone H b d.
  apply validate_options_inv in H as (Hd & Hb & Hr & _ & Hdepth & _).
  rewrite Hnone, default_rules_text in Hr by lia. injection Hr as Hr.
  assert (Hcount : node_count (module_tree o) = level_sum b d).
  { unfold module_tree. rewrite Hdepth.
    apply uniform_count; [|reflexivity].
    rewrite <- Hr. apply lookup_insert_eq. }
  repeat split.
  - now symmetry.
  - exact Hcount.
  - apply level_sum_closed. lia.
  - eexists. split; [apply create_module_tree_eq|]. simpl.
    split; [reflexivity|].
    intros ms Hms. rewrite <- Hcount, <- descendants_count.
    destruct (o_depth o); [discriminate|].
    destruct (o_rules o !! ROOT_AXIOM); [|discriminate].
    now injection Hms as <-.
Qed.

Lemma default_rules_balanced_witness :
  (v_rules default_values = None
   /\ validate_options int_digits default_values
      = inr {| o_depth := 4; o_rules := <["A" := "AAAAAAAAAA"]> ∅;
               o_sizes := ∅; o_dynamic_imports := false |})
  /\ node_count
       (module_tree {| o_depth := 4; o_rules := <["A" := "AAAAAAAAAA"]> ∅;
                       o_sizes := ∅; o_dynamic_imports := false |})
     = level_sum 10 4.
Proof.
  assert (H : validate_options int_digits default_values
              = inr {| o_depth := 4; o_rules := <["A" := "AAAAAAAAAA"]> ∅;
                       o_sizes := ∅; o_dynamic_imports := false |})
    by (vm_compute; reflexivity).
  split; [now split|].
  exact (proj1 (proj2 (default_rules_balanced int_digits default_values _
                         eq_refl H))).
Defined.

(** * Proofs: the shape of the tree *)

Lemma grow_loop_each (Q : Module -> Prop) (g : Module -> string -> Module)
    (o : Options) (p : Module) (symbols : list string) :
  (forall i s,
     In s symbols ->
     Q (g (Module_init (s +:+ str_nat i) (Some p) (depth p + 1) i
             (default 0%Z (o_sizes o !! s)) (o_dynamic_imports o)) s)) ->
  forall i, Forall Q (grow_loop g o p symbols i).
Proof.
  induction symbols as [|s symbols IH]; intros HQ i; simpl; constructor.
  - apply HQ. now left.
  - apply IH. intros j s' Hs'. apply HQ. now right.
Qed.

Lemma chars_symbol (e s : string) :
  In s (chars e) -> exists a, s = String a "".
Proof.
  induction e as [|c e IH]; simpl; [tauto|].
  intros [<-|H]; eauto.
Qed.

Lemma symbol_of_init (a : ascii) (i : nat) (p : option Module) d sz dy :
  symbol_of (Module_init (String a "" +:+ str_nat i) p d i sz dy)
  = String a "".
Proof. destruct p; reflexivity. Qed.

Lemma forall_flat_map {A B : Type} (Q : B -> Prop) (f : A -> list B)
    (l : list A) :
  Forall (fun x => Forall Q (f x)) l -> Forall Q (flat_map f l).
Proof.
  induction 1 as [|x l Hx _ IH]; simpl; [constructor|].
  apply Forall_app. now split.
Qed.

Lemma grow_grown (o : Options) :
  forall n m s,
    children m = [] -> depth m + n = o_depth o -> symbol_of m = s ->
    Forall (grown o) (grow n o m s :: descendants (grow n o m s)).
Proof.
  induction n as [|n IH]; intros m s Hm Hd Hs.
  - constructor; [now exists 0, m, s|].
    simpl. rewrite (descendants_leaf m Hm). constructor.
  - constructor; [now exists (S n), m, s|].
    destruct (o_rules o !! s) as [e|] eqn:He.
    + rewrite descendants_eq, (grow_children n o m s e He Hm).
      apply forall_flat_map, grow_loop_each.
      intros i s' Hs'. destruct (chars_symbol e s' Hs') as [a ->].
      apply IH; [reflexivity|simpl; lia|apply symbol_of_init].
    + rewrite (grow_no_rule _ _ _ _ He), (descendants_leaf m Hm).
      constructor.
Qed.

Lemma module_tree_grown (o : Options) :
  Forall (grown o) (module_tree o :: descendants (module_tree o)).
Proof. apply grow_grown; reflexivity. Qed.

Lemma grown_fields (o : Options) (n : nat) (m : Module) (s : string) :
  simple_name (grow n o m s) = simple_name m
  /\ depth (grow n o m s) = depth m
  /\ index (grow n o m s) = index m
  /\ size (grow n o m s) = size m
  /\ dynamic_import (grow n o m s) = dynamic_import m.
Proof.
  destruct (same_node_fields _ _ (grow_same_node n o m s))
    as (H1 & _ & _ & _ & H2 & H3 & H4 & H5).
  now repeat split.
Qed.

Lemma grow_loop_fields (o : Options) (n : nat) (p : Module)
    (symbols : list string) :
  forall i0,
    map made_fields (grow_loop (grow n o) o p symbols i0)
    = imap (fun i symbol =>
              (symbol +:+ str_nat (i0 + i), depth p + 1, i0 + i,
               default 0%Z (o_sizes o !! symbol), o_dynamic_imports o))
        symbols.
Proof.
  induction symbols as [|s symbols IH]; intros i0; [reflexivity|].
  simpl. f_equal.
  - unfold made_fields.
    destruct (grown_fields o n
                (Module_init (s +:+ str_nat i0) (Some p) (depth p + 1) i0
                   (default 0%Z (o_sizes o !! s)) (o_dynamic_imports o)) s)
      as (-> & -> & -> & -> & ->).
    simpl. rewrite Nat.add_0_r. reflexivity.
  - rewrite IH. apply imap_ext. intros i x _. simpl.
    now rewrite (Nat.add_succ_r i0 i).
Qed.

(** X7: the children of a module are the successors of the rule of its
    symbol, in their order.  For every module of the tree, the root
    included: it has no child at the maximum depth or when its symbol has no
    rule; otherwise its i-th child has the i-th successor followed by i as
    its simple name, is one level deeper, has index i, the size the table
    gives for the successor (0 without entry) and the loading mode of the
    options. *)
Theorem children_follow_rule (o : Options) :
  let root := module_tree o in
  made_fields root = (ROOT_AXIOM, 0, 0, 0%Z, o_dynamic_imports o)
  /\ Forall
       (fun m =>
          depth m <= o_depth o
          /\ map made_fields (children m)
             = imap (fun i symbol =>
                       (symbol +:+ str_nat i, depth m + 1, i,
                        default 0%Z (o_sizes o !! symbol),
                        o_dynamic_imports o))
                 (successors o m))
       (root :: descendants root).
Proof.
  intros root. split.
  - unfold made_fields, root, module_tree.
    destruct (grown_fields o (o_depth o)
                (Module_init ROOT_AXIOM None 0 0 0%Z (o_dynamic_imports o))
                ROOT_AXIOM) as (-> & -> & -> & -> & ->).
    reflexivity.
  - eapply List.Forall_impl; [|apply module_tree_grown].
    intros m' (n & m & s & -> & Hm & Hd & Hs).
    destruct (grown_fields o n m s) as (Hname & Hdepth & _).
    unfold successors, symbol_of. rewrite Hname, Hdepth.
    fold (symbol_of m). rewrite Hs.
    split; [lia|].
    destruct n as [|n].
    + rewrite Nat.add_0_r in Hd. rewrite Hd, Nat.eqb_refl. simpl.
      now rewrite Hm.
    + destruct (Nat.eqb_spec (depth m) (o_depth o)) as [E|_]; [lia|].
      destruct (o_rules o !! s) as [e|] eqn:He.
      * rewrite (grow_children n o m s e He Hm), grow_loop_fields.
        reflexivity.
      * rewrite (grow_no_rule _ _ _ _ He), Hm. reflexivity.
Qed.

(** X8: the list of modules is the tree without its root.  The tree is
    built for every configuration; [self.modules] is missing exactly at
    maximum depth 0 or without a rule for "A", where the root has no child;
    otherwise it lists the modules below the root, each once, parent before
    child and siblings by index, all at depths 1 to the maximum depth. *)
Theorem module_list_is_tree (o : Options) :
  exists b,
    create_module_tree o = Some b
    /\ (modules b = None
        <-> o_depth o = 0 \/ o_rules o !! ROOT_AXIOM = None)
    /\ (modules b = None -> children (start_module b) = [])
    /\ forall ms,
         modules b = Some ms ->
         ms = flat_map (fun c => c :: descendants c)
                (children (start_module b))
         /\ S (length ms) = node_count (start_module b)
         /\ Forall (fun m => 1 <= depth m <= o_depth o) ms.
Proof.
  eexists. split; [apply create_module_tree_eq|]. simpl.
  pose proof (module_tree_grown o) as Hg.
  apply Forall_inv_tail in Hg.
  pose proof (descendants_not_root o) as Hd.
  split; [|split].
  - destruct (o_depth o); [tauto|].
    destruct (o_rules o !! ROOT_AXIOM);
      split; try tauto; try discriminate.
    intros [|]; discriminate.
  - unfold module_tree.
    destruct (o_depth o) as [|n]; [reflexivity|].
    destruct (o_rules o !! ROOT_AXIOM) eqn:He; [discriminate|].
    now rewrite (grow_no_rule _ _ _ _ He).
  - intros ms Hms.
    assert (ms = descendants (module_tree o)) as ->.
    { destruct (o_depth o); [discriminate|].
      destruct (o_rules o !! ROOT_AXIOM); [|discriminate].
      now injection Hms. }
    split; [apply descendants_eq|]. split; [apply descendants_count|].
    rewrite List.Forall_forall in *. intros m Hin. split.
    + now apply Hd.
    + destruct (Hg m Hin) as (n & m0 & s & -> & _ & Hdepth & _).
      destruct (grown_fields o n m0 s) as (_ & -> & _). lia.
Qed.

(** * Proofs: names and places *)

Lemma tree_inherit (o : Options) (Q : Module -> Prop) :
  (forall p i c, Q p -> made_by o p i c -> Q c) ->
  forall m, tree_made o m -> Q m -> Forall Q (m :: descendants m).
Proof.
  intros HQ m. induction m as [m IH] using Module_tree_ind.
  intros Hm Hq. constructor; [assumption|].
  rewrite descendants_eq.
  destruct (proj1 (tree_made_eq o m) Hm) as [Hmade Htrees].
  apply List.Forall_flat_map. rewrite List.Forall_forall in IH, Htrees.
  apply List.Forall_forall. intros c Hin.
  destruct (children_made_each o m _ 0 Hmade c Hin) as (j & _ & Hj).
  apply IH; [exact Hin | now apply Htrees |].
  now apply (HQ m j).
Qed.

Lemma removelast_snoc {A : Type} (l : list A) (x : A) :
  removelast (l ++ [x]) = l.
Proof. apply removelast_last. Qed.

Lemma laid_out_root (o : Options) : laid_out (module_tree o).
Proof.
  destruct (same_node_fields _ _ (module_tree_root_fields o))
    as (Hsn & Hn & Hpath & Hsub & _).
  split; [apply module_tree_plain|].
  rewrite Hsn, Hn, Hpath, Hsub. repeat split; discriminate.
Qed.

Lemma laid_out_child (o : Options) (p : Module) (i : nat) (c : Module) :
  no_separator o -> laid_out p -> made_by o p i c -> laid_out c.
Proof.
  intros Hno (Hp & _ & _ & Hsubp & _) Hmade.
  destruct (made_plain o p i c Hno Hp Hmade)
    as (_ & _ & Hsub & Hpath & _ & Hc).
  destruct (made_anchor o p i c Hno (proj1 Hp) Hmade) as [Ha1 Ha2].
  destruct (made_by_facts o p i c (proj1 Hp) Hmade)
    as (a & _ & Hsn & _ & _ & _ & _ & _ & _ & _ & Hrule).
  pose proof (no_separator_symbol o a Hno Hrule) as Ha.
  assert (Hanch : anchored (submodule_path p) = false)
    by now rewrite Hsubp.
  assert (Hparent : comps (path_parent (path c)) = comps (submodule_path p)).
  { unfold path_parent. simpl. rewrite Hpath. apply removelast_last. }
  split; [assumption|]. split; [congruence|].
  split; [now rewrite Hparent|]. split.
  - destruct (submodule_path c) as [anch cs]. simpl in *.
    rewrite Hparent. congruence.
  - rewrite Hsn. now apply plain_name.
Qed.

Lemma module_tree_laid_out (o : Options) :
  no_separator o ->
  Forall laid_out (module_tree o :: descendants (module_tree o)).
Proof.
  intros Hno. apply (tree_inherit o).
  - intros p i c Hp Hc. exact (laid_out_child o p i c Hno Hp Hc).
  - apply module_tree_made.
  - apply laid_out_root.
Qed.

Lemma split_slash_cons (a rest : string) :
  contains "/" a = false ->
  split_slash (a +:+ String "/" rest) = a :: split_slash rest.
Proof.
  induction a as [|c a IH]; simpl; [reflexivity|].
  destruct (Ascii.eqb c "/"); simpl; [discriminate|].
  intros H. now rewrite (IH H).
Qed.

Lemma keep_plain (s : string) :
  s <> "" -> s <> "." -> keep_component s = true.
Proof.
  intros H1 H2. unfold keep_component.
  destruct (String.eqb_spec s ""); [contradiction|].
  destruct (String.eqb_spec s "."); [contradiction|]. reflexivity.
Qed.

Lemma Path_of_specifier (d f : string) :
  contains "/" d = false -> d <> "" -> d <> "." ->
  contains "/" f = false -> f <> "" -> f <> "." ->
  Path_of ("./" +:+ d +:+ "/" +:+ f)
  = {| anchored := false; comps := [d; f] |}.
Proof.
  intros Hd1 Hd2 Hd3 Hf1 Hf2 Hf3. unfold Path_of. f_equal.
  change ("./" +:+ d +:+ "/" +:+ f)
    with ("." +:+ String "/" (d +:+ String "/" f)).
  rewrite (split_slash_cons "." _ eq_refl), (split_slash_cons d f Hd1).
  rewrite (split_slash_plain f Hf1). simpl.
  now rewrite (keep_plain d Hd2 Hd3), (keep_plain f Hf2 Hf3).
Qed.

Lemma scenario_no_separator (d : nat) (dyn : bool) :
  no_separator (scenario_options d dyn).
Proof.
  intros p e H. simpl in H. unfold scenario_rules in H.
  apply lookup_insert_Some in H as [[_ <-]|[_ H]]; [reflexivity|].
  apply lookup_insert_Some in H as [[_ <-]|[_ H]]; [reflexivity|].
  now rewrite lookup_empty in H.
Qed.

(** X9: the import of a child names the child's file.  When no rule has
    the path separator among its successors, for every module of the tree
    and each of its children: the specifier the module writes for the
    child, taken from the directory of the module's own file, is the path of
    the child's file; that file lies in the directory the export makes for
    the submodules of the module; and the directory for the submodules of
    the child lies in that directory too. *)
Theorem import_specifier_resolves (o : Options) :
  no_separator o ->
  let root := module_tree o in
  Forall
    (fun p =>
       Forall
         (fun c =>
            path_join (path_parent (path p)) (import_specifier p c) = path c
            /\ path_parent (path c) = submodule_path p
            /\ path_parent (submodule_path c) = submodule_path p)
         (children p))
    (root :: descendants root).
Proof.
  intros Hno root.
  pose proof (module_tree_made o) as Hm.
  pose proof (module_tree_laid_out o Hno) as Hl. fold root in Hm, Hl.
  assert (Hmade : Forall (tree_made o) (root :: descendants root)).
  { apply (subtree_all o (tree_made o));
      [tauto|assumption|apply module_tree_sub_ok]. }
  rewrite List.Forall_forall in *. intros p Hp.
  destruct (Hl p Hp) as (Hplain & Hanch & Hcomps & Hsub & Hs1 & Hs2 & Hs3).
  destruct (proj1 (tree_made_eq o p) (Hmade p Hp)) as [Hcs _].
  apply List.Forall_forall. intros c Hc.
  destruct (children_made_each o p _ 0 Hcs c Hc) as (j & _ & Hj).
  destruct (made_plain o p j c Hno Hplain Hj)
    as (_ & _ & Hsc & Hpc & _ & _).
  destruct (made_anchor o p j c Hno (proj1 Hplain) Hj) as [_ Hac].
  destruct (made_by_facts o p j c (proj1 Hplain) Hj)
    as (a & _ & _ & Hpath & Hclean & _).
  destruct (mjs_file (name c) Hclean) as (Hf1 & Hf2 & Hf3).
  split; [|split].
  - unfold path_join, import_specifier.
    replace ("./" +:+ simple_name p +:+ "/" +:+ name c +:+ ".mjs")
      with ("./" +:+ simple_name p +:+ "/" +:+ (name c +:+ ".mjs"))
      by reflexivity.
    rewrite (Path_of_specifier _ _ Hs1 Hs2 Hs3 Hf1 Hf2 Hf3).
    unfold path_join_path. simpl. rewrite Hpath, Hsub, Hanch. simpl.
    now rewrite <- app_assoc.
  - rewrite Hpath. unfold path_parent. simpl.
    rewrite removelast_last. now destruct (submodule_path p).
  - unfold path_parent. rewrite Hsc, Hac, removelast_last.
    now destruct (submodule_path p).
Qed.

Lemma import_specifier_resolves_witness :
  no_separator (scenario_options 2 false)
  /\ Forall
       (fun p =>
          Forall
            (fun c =>
               path_join (path_parent (path p)) (import_specifier p c)
               = path c
               /\ path_parent (path c) = submodule_path p
               /\ path_parent (submodule_path c) = submodule_path p)
            (children p))
       (module_tree (scenario_options 2 false)
          :: descendants (module_tree (scenario_options 2 false))).
Proof.
  split; [apply scenario_no_separator|].
  apply (import_specifier_resolves (scenario_options 2 false)).
  apply scenario_no_separator.
Defined.

Lemma paths_unique_witness :
  no_separator (scenario_options 2 false)
  /\ List.NoDup
       (map path
          (module_tree (scenario_options 2 false)
             :: descendants (module_tree (scenario_options 2 false)))).
Proof.
  split; [apply scenario_no_separator|].
  exact (proj2 (paths_unique_without_separator (scenario_options 2 false)
                  (scenario_no_separator 2 false))).
Defined.

Lemma sorted_by_depth_witness :
  let sorted :=
    sort_modules (descendants (module_tree (scenario_options 2 false))) in
  no_separator (scenario_options 2 false)
  /\ 1 < 2
  /\ exists mi mj,
       nth_error sorted 1 = Some mi /\ nth_error sorted 2 = Some mj
       /\ name mi = "A_B1" /\ name mj = "A_A0_A0"
       /\ depth mi <= depth mj.
Proof.
  intros sorted.
  split; [apply scenario_no_separator|]. split; [lia|].
  destruct (nth_error sorted 1) as [mi|] eqn:Hi;
    [|vm_compute in Hi; discriminate].
  destruct (nth_error sorted 2) as [mj|] eqn:Hj;
    [|vm_compute in Hj; discriminate].
  exists mi, mj. split; [reflexivity|]. split; [reflexivity|].
  split; [|split].
  - assert (E : option_map name (nth_error sorted 1) = Some "A_B1")
      by (vm_compute; reflexivity).
    rewrite Hi in E. now injection E.
  - assert (E : option_map name (nth_error sorted 2) = Some "A_A0_A0")
      by (vm_compute; reflexivity).
    rewrite Hj in E. now injection E.
  - apply (sorted_by_depth (scenario_options 2 false) 1 2 mi mj);
      [apply scenario_no_separator|lia|exact Hi|exact Hj].
Defined.

(** * Proofs: the export of the modules *)

Lemma Module_export_eq (self : Module) (out : Path) (w : World) :
  Module_export self out w
  = if has_children self then
      match mkdir (path_join_path out (submodule_path self))
              (export_own self out w) with
      | (Some e, w2) => (Some e, w2)
      | (None, w2) => export_each (children self) out w2
      end
    else (None, export_own self out w).
Proof.
  destruct self as [sn n p sp d i sz dy cs].
  unfold export_own. cbn [Module_export].
  destruct (export_writes _ (random w)) as [writes g].
  cbv zeta.
  destruct (has_children _); [|reflexivity].
  destruct (mkdir _ _) as [[e|] w2]; [reflexivity|].
  cbn [children]. revert w2.
  induction cs as [|c cs IH]; intros w2; [reflexivity|].
  cbn [export_each].
  destruct (Module_export c out w2) as [[e|] w3]; [reflexivity|].
  apply IH.
Qed.























(** ** A run without sizes does not use the generator *)

Lemma export_writes_unsized (m : Module) (g : RandomState) :
  size m = 0%Z -> export_writes m g = (render (artifact_of m []), g).
Proof.
  intros Hs. rewrite export_writes_render. unfold helper_draw.
  now rewrite Hs.
Qed.

Lemma export_own_random (m : Module) (out : Path) (w : World)
    (g : RandomState) :
  size m = 0%Z ->
  export_own m out (set_random w g) = set_random (export_own m out w) g.
Proof.
  intros Hs. unfold export_own. simpl.
  now rewrite !(export_writes_unsized m _ Hs).
Qed.

Lemma mkdir_random (p : Path) (w : World) (g : RandomState) :
  mkdir p (set_random w g) = with_random g (mkdir p w).
Proof.
  unfold mkdir, with_random. simpl.
  now destruct (bool_decide (p ∈ dirs w)).
Qed.

Lemma export_each_random (out : Path) (cs : list Module) :
  Forall
    (fun c =>
       forall w g,
         Module_export c out (set_random w g)
         = with_random g (Module_export c out w))
    cs ->
  forall w g,
    export_each cs out (set_random w g)
    = with_random g (export_each cs out w).
Proof.
  induction 1 as [|c cs Hc _ IH]; intros w g; [reflexivity|].
  cbn [export_each]. rewrite Hc.
  destruct (Module_export c out w) as [[e|] w']; [reflexivity|].
  apply IH.
Qed.

Lemma Module_export_random (out : Path) (m : Module) :
  Forall (fun d => size d = 0%Z) (exported m) ->
  forall w g,
    Module_export m out (set_random w g)
    = with_random g (Module_export m out w).
Proof.
  induction m as [m IH] using Module_tree_ind. intros Hs w g.
  unfold exported in Hs. rewrite descendants_eq in Hs.
  inversion Hs as [|? ? Hm Hcs]; subst.
  rewrite !Module_export_eq, (export_own_random m out w g Hm).
  destruct (has_children m); [|reflexivity].
  rewrite mkdir_random.
  destruct (mkdir _ (export_own m out w)) as [[e|] w2]; [reflexivity|].
  apply export_each_random.
  rewrite List.Forall_forall in *. intros c Hc.
  apply (IH c Hc). apply List.Forall_forall. intros d Hd.
  apply Hcs. apply in_flat_map. now exists c.
Qed.

Lemma export_modules_random (b : Benchmark) (out : Path) (w : World)
    (g : RandomState) :
  Forall (fun d => size d = 0%Z) (exported (start_module b)) ->
  export_modules b out (set_random w g)
  = (fst (export_modules b out w), set_random (snd (export_modules b out w)) g).
Proof.
  intros Hs. unfold export_modules.
  rewrite (Module_export_random out _ Hs).
  destruct (Module_export (start_module b) out w) as [[e|] w1];
    [reflexivity|].
  now destruct (modules b).
Qed.

Lemma build_bundles_random (tools : Tools) (out : Path) (w : World)
    (g : RandomState) :
  build_bundles tools out (set_random w g)
  = with_random g (build_bundles tools out w).
Proof.
  unfold build_bundles, check_call, with_random.
  destruct (tools _); [|reflexivity]. simpl.
  now destruct (tools _).
Qed.

Lemma export_html_random (b : Benchmark) (out : Path) (w : World)
    (g : RandomState) :
  export_html b out (set_random w g)
  = (fst (export_html b out w), set_random (snd (export_html b out w)) g).
Proof.
  unfold export_html.
  destruct (modules b) as [ms|]; [|reflexivity].
  unfold export_benchmark, export_bundled, export_bundled_wbn, export_index.
  destruct (o_dynamic_imports (options b));
    destruct (output_benchmark_list _ _); reflexivity.
Qed.

Lemma export_random (tools : Tools) (b : Benchmark) (out : Path) (w : World)
    (g : RandomState) :
  Forall (fun d => size d = 0%Z) (exported (start_module b)) ->
  export tools b out (set_random w g)
  = (fst (export tools b out w), set_random (snd (export tools b out w)) g).
Proof.
  intros Hs. unfold export.
  replace (mkdir_exist_ok out (set_random w g))
    with (set_random (mkdir_exist_ok out w) g)
    by (unfold mkdir_exist_ok; simpl;
        now destruct (bool_decide (out ∈ dirs w))).
  rewrite (export_modules_random b out _ g Hs).
  destruct (export_modules b out (mkdir_exist_ok out w)) as [[[e|] b1] w1];
    [reflexivity|]. simpl.
  destruct (o_dynamic_imports (options b1)).
  - rewrite export_html_random.
    now destruct (export_html b1 out w1) as [[e3 ps] w3].
  - rewrite build_bundles_random.
    destruct (build_bundles tools out w1) as [[e|] w2]; [reflexivity|].
    simpl. rewrite export_html_random.
    now destruct (export_html b1 out w2) as [[e3 ps] w3].
Qed.

Lemma unsized_tree (o : Options) :
  o_sizes o = ∅ ->
  Forall (fun d => size d = 0%Z) (exported (module_tree o)).
Proof.
  intros Hs. constructor; [apply module_tree_size|].
  apply (descendants_made o);
    [|apply module_tree_made|apply module_tree_sub_ok].
  intros p i c Hp Hc.
  destruct (made_by_facts o p i c Hp Hc)
    as (a & _ & _ & _ & _ & _ & _ & _ & Hsize & _).
  now rewrite Hsize, Hs, lookup_empty.
Qed.

(** X13: a run without sizes does not use the random generator.  When the
    size table is empty (no [--sizes]), the outcome of the whole run, the
    files with their contents and the directories are the same for every
    state of the generator, and the generator is left as it was. *)
Theorem unsized_run_ignores_random (tools : Tools) (o : Options)
    (out : string) :
  o_sizes o = ∅ ->
  exists e fs ds,
    forall g,
      main tools o out (fresh_world g)
      = Some (e, {| files := fs; dirs := ds; random := g |}).
Proof.
  intros Hs. unfold main. rewrite create_module_tree_eq.
  set (b := {| options := o; start_module := module_tree o;
               modules := _ |}).
  pose proof (unsized_tree o Hs) as Hz.
  set (g0 := (fun _ => 0%Z) : RandomState).
  destruct (export tools b (Path_of out) (fresh_world g0))
    as [[e b1] w0] eqn:H0.
  exists e, (files w0), (dirs w0). intros g.
  change (fresh_world g) with (set_random (fresh_world g0) g).
  rewrite (export_random tools b (Path_of out) (fresh_world g0) g Hz), H0.
  reflexivity.
Qed.

Lemma unsized_run_ignores_random_witness :
  o_sizes (scenario_options 2 false) = ∅
  /\ exists e fs ds,
       forall g,
         main (fun _ => true) (scenario_options 2 false) "out" (fresh_world g)
         = Some (e, {| files := fs; dirs := ds; random := g |}).
Proof.
  split; [reflexivity|].
  exact (unsized_run_ignores_random (fun _ => true) (scenario_options 2 false)
           "out" eq_refl).
Defined.

(** ** Directories are only added *)

Lemma export_own_dirs (m : Module) (out : Path) (w : World) :
  dirs (export_own m out w) = dirs w.
Proof.
  unfold export_own. now destruct (export_writes m (random w)).
Qed.

Lemma mkdir_dirs (p : Path) (w : World) :
  incl (dirs w) (dirs (snd (mkdir p w)))
  /\ (fst (mkdir p w) = None -> In p (dirs (snd (mkdir p w))))
  /\ (In p (dirs w) -> mkdir p w = (Some FileExistsError, w)).
Proof.
  unfold mkdir.
  destruct (bool_decide_reflect (p ∈ dirs w)) as [Hin|Hin]; simpl.
  - repeat split; [apply incl_refl|discriminate].
  - repeat split.
    + now apply incl_appl, incl_refl.
    + intros _. apply in_or_app. right. now left.
    + intros H. now apply list_elem_of_In in H.
Qed.

Lemma export_each_dirs (out : Path) (cs : list Module) :
  Forall
    (fun c => forall w, incl (dirs w) (dirs (snd (Module_export c out w))))
    cs ->
  forall w, incl (dirs w) (dirs (snd (export_each cs out w))).
Proof.
  induction 1 as [|c cs Hc _ IH]; intros w; [apply incl_refl|].
  cbn [export_each]. specialize (Hc w).
  destruct (Module_export c out w) as [[e|] w']; [exact Hc|].
  eapply incl_tran; [exact Hc|apply IH].
Qed.

Lemma Module_export_dirs (out : Path) (m : Module) :
  forall w, incl (dirs w) (dirs (snd (Module_export m out w))).
Proof.
  induction m as [m IH] using Module_tree_ind. intros w.
  rewrite Module_export_eq.
  destruct (has_children m).
  - destruct (mkdir_dirs (path_join_path out (submodule_path m))
                (export_own m out w)) as (Hincl & _).
    rewrite export_own_dirs in Hincl.
    destruct (mkdir _ (export_own m out w)) as [[e|] w2]; [exact Hincl|].
    eapply incl_tran; [exact Hincl|]. now apply export_each_dirs.
  - simpl. rewrite export_own_dirs. apply incl_refl.
Qed.

Lemma Module_export_made (out : Path) (m : Module) (w w' : World) :
  has_children m = true ->
  Module_export m out w = (None, w') ->
  In (path_join_path out (submodule_path m)) (dirs w').
Proof.
  intros Hc. rewrite Module_export_eq, Hc.
  destruct (mkdir_dirs (path_join_path out (submodule_path m))
              (export_own m out w)) as (_ & Hin & _).
  destruct (mkdir _ (export_own m out w)) as [[e|] w2]; [discriminate|].
  intros H.
  pose proof (export_each_dirs out (children m)) as Hincl.
  specialize (Hincl (proj2 (List.Forall_forall _ _)
                       (fun c _ => Module_export_dirs out c)) w2).
  rewrite H in Hincl. apply Hincl, Hin. reflexivity.
Qed.

Lemma build_bundles_dirs (tools : Tools) (out : Path) (w : World) :
  dirs (snd (build_bundles tools out w)) = dirs w.
Proof.
  unfold build_bundles, check_call.
  destruct (tools _); [|reflexivity]. simpl.
  now destruct (tools _).
Qed.

Lemma export_html_dirs (b : Benchmark) (out : Path) (w : World) :
  dirs (snd (export_html b out w)) = dirs w.
Proof.
  unfold export_html.
  destruct (modules b) as [ms|]; [|reflexivity].
  unfold export_benchmark, export_bundled, export_bundled_wbn, export_index.
  destruct (o_dynamic_imports (options b));
    destruct (output_benchmark_list _ _); reflexivity.
Qed.

Lemma mkdir_exist_ok_dirs (p : Path) (w : World) :
  incl (dirs w) (dirs (mkdir_exist_ok p w)).
Proof.
  unfold mkdir_exist_ok. destruct (bool_decide (p ∈ dirs w)); simpl.
  - apply incl_refl.
  - now apply incl_appl, incl_refl.
Qed.

Lemma has_children_true (m : Module) :
  children m <> [] -> has_children m = true.
Proof. unfold has_children. now destruct (children m). Qed.

(** A run into a place where the directory of the root's submodules is
    there already stops with [FileExistsError], right after the artifact of
    the root is written again. *)
Lemma export_into_existing (tools : Tools) (o : Options) (out : string)
    (w : World) :
  children (module_tree o) <> [] ->
  In (path_join_path (Path_of out) (submodule_path (module_tree o)))
    (dirs w) ->
  main tools o out w
  = Some (Some FileExistsError,
          export_own (module_tree o) (Path_of out)
            (mkdir_exist_ok (Path_of out) w)).
Proof.
  intros Hc Hin. unfold main. rewrite create_module_tree_eq.
  unfold export, export_modules. cbn [start_module].
  rewrite Module_export_eq, (has_children_true _ Hc).
  destruct (mkdir_dirs
              (path_join_path (Path_of out) (submodule_path (module_tree o)))
              (export_own (module_tree o) (Path_of out)
                 (mkdir_exist_ok (Path_of out) w))) as (_ & _ & Hfail).
  rewrite Hfail; [reflexivity|].
  rewrite export_own_dirs. now apply mkdir_exist_ok_dirs.
Qed.

Lemma export_done_dirs (tools : Tools) (b : Benchmark) (out : Path)
    (w : World) (b1 : Benchmark) (w1 : World) :
  children (start_module b) <> [] ->
  export tools b out w = (None, b1, w1) ->
  In out (dirs w1)
  /\ In (path_join_path out (submodule_path (start_module b))) (dirs w1).
Proof.
  intros Hc Hrun. unfold export in Hrun.
  destruct (export_modules b out (mkdir_exist_ok out w))
    as [[[e|] b'] wm] eqn:Hem; [discriminate|].
  assert (Hwm : In out (dirs wm)
                /\ In (path_join_path out (submodule_path (start_module b)))
                     (dirs wm)).
  { unfold export_modules in Hem.
    destruct (Module_export (start_module b) out (mkdir_exist_ok out w))
      as [[e|] wm'] eqn:Hm; [discriminate|].
    assert (wm' = wm) as -> by (destruct (modules b); congruence).
    split.
    - pose proof (Module_export_dirs out (start_module b)
                    (mkdir_exist_ok out w)) as Hincl.
      rewrite Hm in Hincl. apply Hincl.
      unfold mkdir_exist_ok.
      destruct (bool_decide_reflect (out ∈ dirs w)) as [H|H].
      + now apply list_elem_of_In.
      + simpl. apply in_or_app. right. now left.
    - exact (Module_export_made _ _ _ _ (has_children_true _ Hc) Hm). }
  destruct (o_dynamic_imports (options b')).
  - pose proof (export_html_dirs b' out wm) as Hd.
    destruct (export_html b' out wm) as [[e3 ps] w3].
    injection Hrun as _ _ <-. simpl in Hd. now rewrite Hd.
  - pose proof (build_bundles_dirs tools out wm) as Hb.
    destruct (build_bundles tools out wm) as [[e|] w2]; [discriminate|].
    pose proof (export_html_dirs b' out w2) as Hd.
    destruct (export_html b' out w2) as [[e3 ps] w3].
    injection Hrun as _ _ <-. simpl in Hd, Hb. now rewrite Hd, Hb.
Qed.

(** X14: the program cannot be run twice into one output directory.  When
    the root has children and a run has completed without error, a second
    run into the place the first one left, with any tools, stops with
    [FileExistsError]: the directories of the submodules are made without
    [exist_ok].  It stops right after the artifact of the root is written
    again; no other file is touched. *)
Theorem rerun_fails (tools tools' : Tools) (o : Options) (out : string)
    (w w1 : World) :
  children (module_tree o) <> [] ->
  main tools o out w = Some (None, w1) ->
  main tools' o out w1
  = Some (Some FileExistsError,
          export_own (module_tree o) (Path_of out) w1)
  /\ dirs (export_own (module_tree o) (Path_of out) w1) = dirs w1
  /\ forall q,
       q <> path_join_path (Path_of out) (path (module_tree o)) ->
       read_file (export_own (module_tree o) (Path_of out) w1) q
       = read_file w1 q.
Proof.
  intros Hc Hrun.
  assert (Hin : In (Path_of out) (dirs w1)
                /\ In (path_join_path (Path_of out)
                        (submodule_path (module_tree o))) (dirs w1)).
  { unfold main in Hrun. rewrite create_module_tree_eq in Hrun.
    destruct (export tools _ (Path_of out) w) as [[e b1] w'] eqn:He.
    injection Hrun as -> ->.
    apply (export_done_dirs tools _ (Path_of out) w b1 w1) in He;
      [exact He|exact Hc]. }
  destruct Hin as [Hout Hdir].
  assert (Hsame : mkdir_exist_ok (Path_of out) w1 = w1).
  { unfold mkdir_exist_ok.
    destruct (bool_decide_reflect (Path_of out ∈ dirs w1)) as [_|H];
      [reflexivity|].
    contradiction H. now apply list_elem_of_In. }
  split; [|split].
  - rewrite (export_into_existing tools' o out w1 Hc Hdir). now rewrite Hsame.
  - apply export_own_dirs.
  - intros q Hq. unfold export_own.
    destruct (export_writes _ _) as [writes g].
    rewrite read_write_other by congruence. reflexivity.
Qed.

Lemma rerun_fails_witness :
  let o := scenario_options 1 true in
  let r := main (fun _ => true) o "out" (fresh_world sample_random) in
  let w1 := match r with
            | Some (_, w) => w
            | None => fresh_world sample_random
            end in
  (children (module_tree o) <> [] /\ r = Some (None, w1))
  /\ main (fun _ => false) o "out" w1
     = Some (Some FileExistsError,
             export_own (module_tree o) (Path_of "out") w1).
Proof.
  intros o r w1.
  assert (Hc : children (module_tree o) <> []) by (vm_compute; discriminate).
  assert (Hr : r = Some (None, w1)) by (vm_compute; reflexivity).
  split; [now split|].
  exact (proj1 (rerun_fails (fun _ => true) (fun _ => false) o "out"
                  (fresh_world sample_random) w1 Hc Hr)).
Defined.

(** ** A run that completes *)










(** * Proofs: the width of the filler *)














(** * Proofs: the pages with hints *)

Lemma slice_all {A : Type} (l : list A) :
  slice_to l (Z.of_nat (length l)) = l.
Proof.
  unfold slice_to.
  destruct (Z.leb_spec 0 (Z.of_nat (length l))) as [_|H]; [|lia].
  rewrite Nat2Z.id. apply firstn_all.
Qed.

(** X17: the hints of the pages.  With the list [ms] in [self.modules],
    [export_html] writes the unbundled page without any hint, the
    modulepreload page with one link for each module of the list, in the
    order of the list, and no script, and the script-preload page with one
    script for each module of the list and no link; all three load
    [./A.mjs], and their info counts the modules of the list. *)
Theorem preload_pages (b : Benchmark) (ms : list Module) (out : Path)
    (w : World) :
  modules b = Some ms ->
  let w' := snd (export_html b out w) in
  let info := output_info (options b) ms in
  read_file w' (page_path out "unbundled.html")
  = Some (BenchmarkPage "" info "" "./A.mjs")
  /\ read_file w' (page_path out "modulepreload.html")
     = Some (BenchmarkPage (String.concat nl (map link_hint ms)) info ""
               "./A.mjs")
  /\ read_file w' (page_path out "script-preload.html")
     = Some (BenchmarkPage "" info (String.concat nl (map script_tag ms))
               "./A.mjs")
  /\ info_module_count info = length ms.
Proof.
  intros Hms w' info. subst w'. unfold export_html. rewrite Hms.
  unfold export_benchmark, export_bundled, export_bundled_wbn, export_index,
    output_benchmark_list, output_headers, output_scripts.
  rewrite !slice_all.
  change (slice_to ms 0) with (@nil Module).
  change (path_join out "unbundled.html")
    with (page_path out "unbundled.html").
  change (path_join out "modulepreload.html")
    with (page_path out "modulepreload.html").
  change (path_join out "script-preload.html")
    with (page_path out "script-preload.html").
  change (path_join out "rollup.html") with (page_path out "rollup.html").
  change (path_join out "webbundle.html")
    with (page_path out "webbundle.html").
  change (path_join out "index.html") with (page_path out "index.html").
  destruct (o_dynamic_imports (options b)).
  - pose proof (benchmark_items_pages out (page_names true)) as Hitems.
    cbn [page_names app map] in Hitems. rewrite Hitems. cbn [option_map snd].
    repeat split; read_pages; reflexivity.
  - pose proof (benchmark_items_pages out (page_names false)) as Hitems.
    cbn [page_names app map] in Hitems. rewrite Hitems. cbn [option_map snd].
    repeat split; read_pages; reflexivity.
Qed.

Lemma preload_pages_witness :
  let b := scenario_benchmark 1 true in
  let w' := snd (export_html b (Path_of "out") (fresh_world sample_random)) in
  modules b = Some (descendants (module_tree (scenario_options 1 true)))
  /\ read_file w' (page_path (Path_of "out") "modulepreload.html")
     = Some (BenchmarkPage
               (String.concat nl
                  (map link_hint
                     (descendants (module_tree (scenario_options 1 true)))))
               (output_info (options b)
                  (descendants (module_tree (scenario_options 1 true))))
               "" "./A.mjs").
Proof.
  intros b w'. split; [reflexivity|].
  exact (proj1 (proj2 (preload_pages b _ (Path_of "out")
                         (fresh_world sample_random) eq_refl))).
Defined.

(** * Proofs: the bundles *)

Lemma export_modules_options (b : Benchmark) (out : Path) (w : World)
    (e : option Error) (b1 : Benchmark) (w1 : World) :
  export_modules b out w = (e, b1, w1) -> options b1 = options b.
Proof.
  unfold export_modules.
  destruct (Module_export (start_module b) out w) as [[e'|] w'].
  - now intros [= _ <- _].
  - destruct (modules b); now intros [= _ <- _].
Qed.

(** X18: a tool that fails stops the export.  With static imports, once
    the modules are exported: when [gen-bundle] fails, [export] raises
    [CalledProcessError] and leaves the place as the export of the modules
    left it, so rollup is not run and no page is written; when [gen-bundle]
    succeeds and rollup fails, the same error is raised with the web bundle
    as the only new file.  With dynamic imports no tool is run: the outcome
    is the same whatever the tools do. *)
Theorem bundles_fail_fast (tools : Tools) (b : Benchmark) (out : Path)
    (w : World) (b1 : Benchmark) (w1 : World) :
  export_modules b out (mkdir_exist_ok out w) = (None, b1, w1) ->
  let wbn := path_join out "bundled.wbn" in
  let gen_bundle :=
    "gen-bundle --dir='" +:+ path_str out +:+ "' --o='" +:+ path_str wbn
      +:+ "'" in
  let rollup :=
    "npx rollup '" +:+ path_str (path_join out "A.mjs")
      +:+ "' --format=esm --file='" +:+ path_str (path_join out "bundled.mjs")
      +:+ "' --name=A" in
  (o_dynamic_imports (options b) = false -> tools gen_bundle = false ->
   export tools b out w = (Some CalledProcessError, b1, w1))
  /\ (o_dynamic_imports (options b) = false -> tools gen_bundle = true ->
      tools rollup = false ->
      export tools b out w
      = (Some CalledProcessError, b1,
         write_file wbn (ToolOutput gen_bundle) w1))
  /\ (o_dynamic_imports (options b) = true ->
      forall tools', export tools b out w = export tools' b out w).
Proof.
  intros Hmod wbn gen_bundle rollup.
  pose proof (export_modules_options _ _ _ _ _ _ Hmod) as Hopt.
  unfold export. rewrite Hmod, Hopt.
  split; [|split].
  - intros -> Hgen. unfold build_bundles, check_call.
    fold wbn. fold gen_bundle. now rewrite Hgen.
  - intros -> Hgen Hroll. unfold build_bundles, check_call.
    fold wbn. fold gen_bundle. rewrite Hgen.
    fold rollup. now rewrite Hroll.
  - intros -> tools'. reflexivity.
Qed.

Lemma bundles_fail_fast_witness :
  let b := scenario_benchmark 1 false in
  let out := Path_of "out" in
  let w := fresh_world sample_random in
  let r := export_modules b out (mkdir_exist_ok out w) in
  (r = (None, snd (fst r), snd r)
   /\ o_dynamic_imports (options b) = false
   /\ (fun _ : string => false)
        "gen-bundle --dir='out' --o='out/bundled.wbn'" = false)
  /\ export (fun _ => false) b out w
     = (Some CalledProcessError, snd (fst r), snd r).
Proof.
  intros b out w r.
  assert (Hr : r = (None, snd (fst r), snd r)) by (vm_compute; reflexivity).
  split; [now repeat split|].
  exact (proj1 (bundles_fail_fast (fun _ => false) b out w _ _ Hr)
           eq_refl eq_refl).
Defined.

(** * Proofs: the generations of the grammar *)

Lemma derive_app (o : Options) (w1 w2 : list string) :
  derive o (w1 ++ w2) = derive o w1 ++ derive o w2.
Proof. apply flat_map_app. Qed.

Lemma iter_derive_app (o : Options) (k : nat) (w1 w2 : list string) :
  Nat.iter k (derive o) (w1 ++ w2)
  = Nat.iter k (derive o) w1 ++ Nat.iter k (derive o) w2.
Proof.
  induction k as [|k IH]; [reflexivity|].
  simpl. now rewrite IH, derive_app.
Qed.

Lemma iter_derive_nil (o : Options) (k : nat) :
  Nat.iter k (derive o) [] = [].
Proof. induction k as [|k IH]; [reflexivity|]. simpl. now rewrite IH. Qed.

Lemma iter_derive_succ (o : Options) (k : nat) (w : list string) :
  Nat.iter (S k) (derive o) w = Nat.iter k (derive o) (derive o w).
Proof.
  induction k as [|k IH]; [reflexivity|].
  change (Nat.iter (S (S k)) (derive o) w)
    with (derive o (Nat.iter (S k) (derive o) w)).
  now rewrite IH.
Qed.

Lemma at_depth_app (k : nat) (l1 l2 : list Module) :
  at_depth k (l1 ++ l2) = at_depth k l1 ++ at_depth k l2.
Proof. apply List.filter_app. Qed.

Lemma at_depth_flat_map (k : nat) (f : Module -> list Module)
    (l : list Module) :
  at_depth k (flat_map f l) = flat_map (fun c => at_depth k (f c)) l.
Proof.
  induction l as [|c l IH]; [reflexivity|].
  simpl. now rewrite at_depth_app, IH.
Qed.

Lemma at_depth_cons (k : nat) (m : Module) (l : list Module) :
  at_depth k (m :: l)
  = if Nat.eqb (depth m) k then m :: at_depth k l else at_depth k l.
Proof. reflexivity. Qed.

Lemma grow_depths (o : Options) :
  forall n m s,
    children m = [] ->
    Forall (fun d => depth m < depth d) (descendants (grow n o m s)).
Proof.
  induction n as [|n IH]; intros m s Hm.
  - simpl. rewrite (descendants_leaf m Hm). constructor.
  - destruct (o_rules o !! s) as [e|] eqn:He.
    + rewrite descendants_eq, (grow_children n o m s e He Hm).
      apply forall_flat_map, grow_loop_each.
      intros i s' _.
      set (c := Module_init _ _ _ _ _ _).
      destruct (grown_fields o n c s') as (_ & Hd & _).
      constructor; [rewrite Hd; simpl; lia|].
      eapply List.Forall_impl; [|apply (IH c s' eq_refl)].
      simpl. intros d Hlt. lia.
    + rewrite (grow_no_rule _ _ _ _ He), (descendants_leaf m Hm).
      constructor.
Qed.

Lemma at_depth_none (k : nat) (l : list Module) :
  Forall (fun d => k < depth d) l -> at_depth k l = [].
Proof.
  induction 1 as [|d l Hd _ IH]; [reflexivity|].
  unfold at_depth in *. simpl.
  destruct (Nat.eqb_spec (depth d) k); [lia|assumption].
Qed.

Lemma grow_loop_generation (o : Options) (n k : nat) (p : Module)
    (symbols : list string) :
  (forall c s,
     children c = [] -> symbol_of c = s -> depth c = depth p + 1 ->
     map symbol_of (at_depth (depth p + 1 + k) (exported (grow n o c s)))
     = Nat.iter k (derive o) [s]) ->
  (forall s, In s symbols -> exists a, s = String a "") ->
  forall i,
    map symbol_of
      (flat_map (fun c => at_depth (depth p + 1 + k) (exported c))
         (grow_loop (grow n o) o p symbols i))
    = Nat.iter k (derive o) symbols.
Proof.
  intros Hg. induction symbols as [|s symbols IH]; intros Hsym i.
  - simpl. now rewrite iter_derive_nil.
  - change (s :: symbols) with ([s] ++ symbols) at 2.
    rewrite iter_derive_app. cbn [grow_loop flat_map].
    rewrite map_app. f_equal.
    + destruct (Hsym s (or_introl eq_refl)) as [a ->].
      apply Hg; [reflexivity|apply symbol_of_init|reflexivity].
    + apply IH. intros s' Hs'. apply Hsym. now right.
Qed.

Lemma grow_generation (o : Options) :
  forall n m s k,
    children m = [] -> symbol_of m = s -> k <= n ->
    map symbol_of (at_depth (depth m + k) (exported (grow n o m s)))
    = Nat.iter k (derive o) [s].
Proof.
  induction n as [|n IH]; intros m s k Hm Hs Hk.
  - assert (k = 0) as -> by lia. unfold exported.
    cbn [grow]. rewrite at_depth_cons, Nat.add_0_r, Nat.eqb_refl.
    rewrite (descendants_leaf m Hm). simpl. now rewrite Hs.
  - destruct (grown_fields o (S n) m s) as (Hname & Hdepth & _).
    assert (Hsym : symbol_of (grow (S n) o m s) = s)
      by (unfold symbol_of; rewrite Hname; exact Hs).
    unfold exported. rewrite at_depth_cons, Hdepth.
    destruct k as [|k].
    + rewrite Nat.add_0_r, Nat.eqb_refl.
      rewrite (at_depth_none _ _ (grow_depths o (S n) m s Hm)).
      cbn [map Nat.iter nat_rect]. now rewrite Hsym.
    + destruct (Nat.eqb_spec (depth m) (depth m + S k)) as [E|_]; [lia|].
      rewrite descendants_eq, iter_derive_succ.
      unfold derive at 2. cbn [flat_map]. rewrite app_nil_r.
      destruct (o_rules o !! s) as [e|] eqn:He.
      * rewrite (grow_children n o m s e He Hm), at_depth_flat_map.
        replace (depth m + S k) with (depth m + 1 + k) by lia.
        apply (grow_loop_generation o n k m (chars e)).
        -- intros c s' Hc Hs' Hd. rewrite <- Hd. apply IH; [assumption..|lia].
        -- apply chars_symbol.
      * rewrite (grow_no_rule _ _ _ _ He), Hm. simpl.
        now rewrite iter_derive_nil.
Qed.

(** X19: the levels of the tree are the generations of the grammar.  For
    every level up to the maximum depth, the symbols of the modules at that
    level, in the order the modules were made, are the word that the rules
    derive from "A" in that many steps, where a rule replaces each symbol
    by its successors and a symbol without rule by nothing.  So the number
    of modules at a level is the length of that word. *)
Theorem levels_are_generations (o : Options) (k : nat) :
  k <= o_depth o ->
  let root := module_tree o in
  let level := at_depth k (root :: descendants root) in
  map symbol_of level = Nat.iter k (derive o) [ROOT_AXIOM]
  /\ length level = length (Nat.iter k (derive o) [ROOT_AXIOM]).
Proof.
  intros Hk root level.
  assert (H : map symbol_of level = Nat.iter k (derive o) [ROOT_AXIOM]).
  { apply (grow_generation o (o_depth o)
             (Module_init ROOT_AXIOM None 0 0 0%Z (o_dynamic_imports o))
             ROOT_AXIOM k eq_refl eq_refl Hk). }
  split; [exact H|]. now rewrite <- H, length_map.
Qed.

Lemma levels_are_generations_witness :
  2 <= o_depth (scenario_options 2 false)
  /\ map symbol_of
       (at_depth 2
          (module_tree (scenario_options 2 false)
             :: descendants (module_tree (scenario_options 2 false))))
     = Nat.iter 2 (derive (scenario_options 2 false)) ["A"]
  /\ Nat.iter 2 (derive (scenario_options 2 false)) ["A"]
     = ["A"; "B"; "B"; "B"; "B"].
Proof.
  split; [simpl; lia|]. split.
  - exact (proj1 (levels_are_generations (scenario_options 2 false) 2
                    (le_n 2))).
  - vm_compute. reflexivity.
Defined.

(** * Proofs: the sizes that matter *)

Lemma grow_loop_sizes (g1 g2 : Module -> string -> Module) (o : Options)
    (sizes' : gmap string Z) (p : Module) (symbols : list string) :
  (forall m s, g1 m s = g2 m s) ->
  (forall s, In s symbols -> sizes' !! s = o_sizes o !! s) ->
  forall i,
    grow_loop g1 (with_sizes o sizes') p symbols i
    = grow_loop g2 o p symbols i.
Proof.
  intros Hg. induction symbols as [|s symbols IH]; intros Hs i;
    [reflexivity|].
  simpl. rewrite (Hs s (or_introl eq_refl)), Hg. f_equal.
  apply IH. intros s' Hs'. apply Hs. now right.
Qed.

Lemma grow_sizes (o : Options) (sizes' : gmap string Z) :
  (forall s, in_rules o s -> sizes' !! s = o_sizes o !! s) ->
  forall n m s, grow n (with_sizes o sizes') m s = grow n o m s.
Proof.
  intros Hs. induction n as [|n IH]; intros m s; [reflexivity|].
  simpl. destruct (o_rules o !! s) as [e|] eqn:He; [|reflexivity].
  f_equal. f_equal. apply grow_loop_sizes; [exact IH|].
  intros s' Hs'. apply Hs. now exists s, e.
Qed.

(** X20: only the sizes of successors matter.  The tree depends on the
    size table through the entries of the symbols that are successors of
    some rule, and on nothing else of it: a table that agrees with
    [options.sizes] on these symbols gives the same tree.  So an entry for a
    text that is not one character, which [parse_sizes] lets through, is
    never used. *)
Theorem sizes_of_successors (o : Options) (sizes' : gmap string Z) :
  (forall s, in_rules o s -> sizes' !! s = o_sizes o !! s) ->
  module_tree (with_sizes o sizes') = module_tree o
  /\ forall k z,
       String.length k <> 1 ->
       module_tree (with_sizes o (<[k := z]> sizes')) = module_tree o.
Proof.
  intros Hs. split.
  - apply (grow_sizes o sizes' Hs).
  - intros k z Hk. apply (grow_sizes o (<[k := z]> sizes')).
    intros s Hin. rewrite lookup_insert_ne; [now apply Hs|].
    intros ->. destruct (in_rules_single o s Hin) as [a ->].
    now contradiction Hk.
Qed.

Lemma sizes_of_successors_witness :
  (forall s,
     in_rules (scenario_options 2 false) s ->
     (∅ : gmap string Z) !! s = o_sizes (scenario_options 2 false) !! s)
  /\ module_tree
       (with_sizes (scenario_options 2 false) (<["AB" := 10240%Z]> ∅))
     = module_tree (scenario_options 2 false).
Proof.
  assert (H : forall s,
            in_rules (scenario_options 2 false) s ->
            (∅ : gmap string Z) !! s
            = o_sizes (scenario_options 2 false) !! s) by reflexivity.
  split; [exact H|].
  apply (proj2 (sizes_of_successors (scenario_options 2 false) ∅ H)).
  simpl. lia.
Defined.

(** * Proofs: the sort is stable *)

Lemma has_key_eq (k : nat * list string) (m : Module) :
  has_key k m = true -> sort_key m = k.
Proof.
  unfold has_key. destruct (key_compare (sort_key m) k) eqn:E;
    try discriminate.
  intros _. now apply key_compare_eq.
Qed.

Lemma insert_module_keys (k : nat * list string) (m : Module)
    (l : list Module) :
  List.filter (has_key k) (insert_module m l)
  = List.filter (has_key k) (m :: l).
Proof.
  induction l as [|m' l IH]; [reflexivity|].
  cbn [insert_module].
  destruct (key_ltb (sort_key m') (sort_key m)) eqn:Hlt; [|reflexivity].
  cbn [List.filter] in *. rewrite IH.
  destruct (has_key k m) eqn:Hm; [|reflexivity].
  destruct (has_key k m') eqn:Hm'; [|reflexivity].
  apply has_key_eq in Hm, Hm'. unfold key_ltb in Hlt.
  now rewrite Hm, Hm', key_compare_refl in Hlt.
Qed.

(** X21: the sort of the modules is stable.  Among the modules with one
    sort key, the sorted list keeps the order of the list before the sort,
    as [list.sort] does; with the order of the keys (C2) this fixes the
    sorted list. *)
Theorem sort_modules_stable (k : nat * list string) (ms : list Module) :
  List.filter (has_key k) (sort_modules ms) = List.filter (has_key k) ms.
Proof.
  induction ms as [|m ms IH]; [reflexivity|].
  change (sort_modules (m :: ms)) with (insert_module m (sort_modules ms)).
  rewrite insert_module_keys. cbn [List.filter]. now rewrite IH.
Qed.

(** * Proofs: the paths written into the pages *)

Lemma split_slash_on (s : string) : split_slash s = split_on "/" s.
Proof.
  induction s as [|c s IH]; [reflexivity|]. simpl. now rewrite IH.
Qed.

Lemma concat_prefix (x : string) (l : list string) :
  x <> "" -> contains "/" x = false ->
  String.prefix "/" (String.concat "/" (x :: l)) = false.
Proof.
  intros Hx Hc. destruct x as [|c x]; [congruence|].
  simpl in Hc. apply orb_false_elim in Hc as [Hc _].
  destruct l as [|y l].
  - simpl String.concat. now rewrite prefix_slash.
  - change (String.concat "/" (String c x :: y :: l))
      with (String c (x +:+ "/" +:+ String.concat "/" (y :: l))).
    now rewrite prefix_slash.
Qed.

Lemma filter_plain (l : list string) :
  Forall plain_comp l -> List.filter keep_component l = l.
Proof.
  induction 1 as [|c l (_ & H1 & H2) _ IH]; [reflexivity|].
  simpl. now rewrite (keep_plain c H1 H2), IH.
Qed.

Lemma Path_of_str (p : Path) :
  anchored p = false -> comps p <> [] -> Forall plain_comp (comps p) ->
  Path_of (path_str p) = p.
Proof.
  destruct p as [a cs]. simpl. intros -> Hne Hplain.
  unfold path_str. simpl. destruct cs as [|c cs]; [congruence|].
  unfold Path_of. f_equal.
  - inversion Hplain as [|? ? (Hc & Hc1 & _) _]; subst.
    now apply concat_prefix.
  - rewrite split_slash_on, (split_on_concat "/"); [|discriminate|].
    + now apply filter_plain.
    + eapply List.Forall_impl; [|exact Hplain]. now intros x (Hx & _).
Qed.

Lemma plain_paths_child (o : Options) (p : Module) (i : nat) (c : Module) :
  no_separator o ->
  laid_out p /\ Forall plain_comp (comps (submodule_path p))
  /\ Forall plain_comp (comps (path p)) ->
  made_by o p i c ->
  laid_out c /\ Forall plain_comp (comps (submodule_path c))
  /\ Forall plain_comp (comps (path c)).
Proof.
  intros Hno (Hl & Hs & _) Hmade.
  pose proof (laid_out_child o p i c Hno Hl Hmade) as Hlc.
  destruct Hl as (Hplain & _).
  destruct (made_plain o p i c Hno Hplain Hmade)
    as (_ & _ & Hsub & Hpath & _ & _).
  destruct (made_by_facts o p i c (proj1 Hplain) Hmade)
    as (a & _ & _ & _ & Hclean & _).
  split; [exact Hlc|].
  destruct Hlc as (Hpc & Hac & Hcc & Hsc & Hn1 & Hn2 & Hn3).
  split.
  - rewrite Hsub. apply Forall_app. split; [assumption|].
    now repeat constructor.
  - rewrite Hpath. apply Forall_app. split; [assumption|].
    constructor; [|constructor]. now apply mjs_file.
Qed.

Lemma module_tree_plain_paths (o : Options) :
  no_separator o ->
  Forall
    (fun m =>
       laid_out m /\ Forall plain_comp (comps (submodule_path m))
       /\ Forall plain_comp (comps (path m)))
    (module_tree o :: descendants (module_tree o)).
Proof.
  intros Hno. apply (tree_inherit o).
  - intros p i c. now apply plain_paths_child.
  - apply module_tree_made.
  - split; [apply laid_out_root|].
    destruct (same_node_fields _ _ (module_tree_root_fields o))
      as (_ & _ & Hpath & Hsub & _).
    rewrite Hpath, Hsub. split; repeat constructor; discriminate.
Qed.

(** X22: the paths in the pages name the files of the modules.  When no
    rule has the path separator among its successors, the text of the path
    of a module, which the link and the script of the module hold, read as
    a path again is the path of the module, and taken from the output
    directory, where the pages are, it is the file of the module; and
    [./A.mjs], the module the pages load, is the file of the root. *)
Theorem page_paths_resolve (o : Options) (out : Path) :
  no_separator o ->
  let root := module_tree o in
  Forall
    (fun m =>
       Path_of (path_str (path m)) = path m
       /\ path_join out (path_str (path m)) = path_join_path out (path m)
       /\ link_hint m
          = "  <link rel=" +:+ dq +:+ "modulepreload" +:+ dq +:+ " href="
              +:+ dq +:+ path_str (path m) +:+ dq +:+ ">")
    (root :: descendants root)
  /\ path_join out "./A.mjs" = path_join_path out (path root).
Proof.
  intros Hno root. split.
  - eapply List.Forall_impl; [|apply (module_tree_plain_paths o Hno)].
    intros m ((_ & Ha & Hc & _) & _ & Hp).
    assert (H : Path_of (path_str (path m)) = path m).
    { apply Path_of_str; [assumption| |assumption].
      rewrite Hc. now destruct (comps (path_parent (path m))). }
    split; [exact H|]. split; [|reflexivity].
    unfold path_join. now rewrite H.
  - destruct (same_node_fields _ _ (module_tree_root_fields o))
      as (_ & _ & Hpath & _).
    fold root in Hpath. rewrite Hpath. reflexivity.
Qed.

Lemma page_paths_resolve_witness :
  no_separator (scenario_options 2 false)
  /\ Forall
       (fun m =>
          Path_of (path_str (path m)) = path m
          /\ path_join (Path_of "out") (path_str (path m))
             = path_join_path (Path_of "out") (path m))
       (module_tree (scenario_options 2 false)
          :: descendants (module_tree (scenario_options 2 false))).
Proof.
  split; [apply scenario_no_separator|].
  eapply List.Forall_impl;
    [|exact (proj1 (page_paths_resolve (scenario_options 2 false)
                      (Path_of "out") (scenario_no_separator 2 false)))].
  intros m (H1 & H2 & _). now split.
Defined.

(** * Proofs: the separator as a symbol *)

Lemma grow_loop_nth (g : Module -> string -> Module) (o : Options)
    (p : Module) (symbols : list string) :
  forall i0 k s,
    nth_error symbols k = Some s ->
    nth_error (grow_loop g o p symbols i0) k
    = Some (g (Module_init (s +:+ str_nat (i0 + k)) (Some p) (depth p + 1)
                 (i0 + k) (default 0%Z (o_sizes o !! s))
                 (o_dynamic_imports o)) s).
Proof.
  induction symbols as [|s0 symbols IH]; intros i0 k s Hk.
  - now destruct k.
  - destruct k as [|k]; simpl in *.
    + injection Hk as ->. now rewrite Nat.add_0_r.
    + rewrite (IH (S i0) k s Hk).
      now replace (S i0 + k) with (i0 + S k) by lia.
Qed.

(** X23: the separator as a successor leads out of the output directory.
    When the rule of "A" has "/" as its i-th successor and the depth is at
    least 1, the i-th child of the root has the absolute path [/i] as its
    submodule path: joined to any output directory it stays [/i], so the
    directory its export makes and the files of its children, at
    [/i/name.mjs], are not under the output directory. *)
Theorem separator_leaves_output (o : Options) (e : string) (i : nat)
    (out : Path) :
  0 < o_depth o -> o_rules o !! ROOT_AXIOM = Some e ->
  nth_error (chars e) i = Some "/" ->
  exists c,
    nth_error (children (module_tree o)) i = Some c
    /\ simple_name c = "/" +:+ str_nat i
    /\ submodule_path c = {| anchored := true; comps := [str_nat i] |}
    /\ path_join_path out (submodule_path c) = submodule_path c
    /\ Forall
         (fun d =>
            path d = {| anchored := true;
                        comps := [str_nat i; name d +:+ ".mjs"] |}
            /\ path_join_path out (path d) = path d)
         (children c).
Proof.
  intros Hd He Hi.
  set (root0 := Module_init ROOT_AXIOM None 0 0 0%Z (o_dynamic_imports o)).
  set (init := Module_init ("/" +:+ str_nat i) (Some root0) (depth root0 + 1)
                 i (default 0%Z (o_sizes o !! "/")) (o_dynamic_imports o)).
  destruct (o_depth o) as [|n] eqn:Hdepth; [lia|].
  exists (grow n o init "/").
  assert (Hnth : nth_error (children (module_tree o)) i
                 = Some (grow n o init "/")).
  { unfold module_tree. rewrite Hdepth. fold root0.
    rewrite (grow_children n o root0 ROOT_AXIOM e He eq_refl).
    now rewrite (grow_loop_nth (grow n o) o root0 (chars e) 0 i "/" Hi). }
  destruct (same_node_fields _ _ (grow_same_node n o init "/"))
    as (Hsn & _ & _ & Hsub & _).
  assert (Hsubc : submodule_path (grow n o init "/")
                  = {| anchored := true; comps := [str_nat i] |}).
  { rewrite Hsub. unfold init.
    change ("/" +:+ str_nat i) with (String "/" (str_nat i)).
    now rewrite (init_sub root0 "/" i). }
  split; [exact Hnth|]. split; [exact Hsn|]. split; [exact Hsubc|].
  split; [now rewrite Hsubc|].
  (* the children of this child *)
  pose proof (module_tree_made o) as Hmade.
  apply tree_made_eq in Hmade as [Hcs Htrees].
  rewrite List.Forall_forall in Htrees.
  pose proof (nth_error_In _ _ Hnth) as Hin.
  pose proof (Htrees _ Hin) as Hc.
  apply tree_made_eq in Hc as [Hcc _].
  destruct (children_made_each o (module_tree o) _ 0 Hcs _ Hin)
    as (j & _ & Hj).
  destruct (made_by_facts o _ j _ (module_tree_sub_ok o) Hj)
    as (_ & _ & _ & _ & _ & Hok & _).
  apply List.Forall_forall. intros d Hdin.
  destruct (children_made_each o _ _ 0 Hcc d Hdin) as (k & _ & Hk).
  destruct (made_by_facts o _ k d Hok Hk) as (_ & _ & _ & Hpath & _).
  rewrite Hsubc in Hpath. simpl in Hpath.
  split; [exact Hpath|]. now rewrite Hpath.
Qed.

Lemma separator_leaves_output_witness :
  (0 < o_depth slash_options
   /\ o_rules slash_options !! ROOT_AXIOM = Some "/A"
   /\ nth_error (chars "/A") 0 = Some "/")
  /\ exists c,
       nth_error (children (module_tree slash_options)) 0 = Some c
       /\ submodule_path c = {| anchored := true; comps := ["0"] |}
       /\ map (fun d => path_str (path_join_path (Path_of "out") (path d)))
            (children c)
          = ["/0/_0_A0.mjs"].
Proof.
  split; [repeat split; simpl; lia|].
  destruct (separator_leaves_output slash_options "/A" 0 (Path_of "out"))
    as (c & Hc & _ & Hsub & _ & _); [simpl; lia|reflexivity|reflexivity|].
  exists c. split; [exact Hc|]. split; [exact Hsub|].
  assert (E : option_map
                (fun c => map (fun d => path_str
                                          (path_join_path (Path_of "out")
                                             (path d))) (children c))
                (nth_error (children (module_tree slash_options)) 0)
              = Some ["/0/_0_A0.mjs"]) by (vm_compute; reflexivity).
  rewrite Hc in E. now injection E.
Defined.
